(** * bcopy: the collection pipeline, embedded and verified

    A shallow embedding of [internal/analyzer] (the path filter, the
    count of lines, the validation of the path to analyse and the lookup
    of its repository) and [internal/collector] (directory walk, bounded
    worker pool, aggregation and markdown rendering) of nodelike/bcopy.

    Go strings are byte sequences; they are embedded as [string], whose
    characters are the 256 values of [ascii].  The platform is a Unix one:
    [os.PathSeparator] is the slash and [filepath.ToSlash] is the identity. *)

From Stdlib Require Import ZArith Ascii String List Floats Uint63.
From stdpp Require Import base gmap strings list sorting.

Local Open Scope Z_scope.

(** ** Bytes and the Go [strings] package *)

Definition byte_of (n : nat) : ascii := ascii_of_nat n.

Definition NUL : ascii := byte_of 0.
Definition LF : ascii := byte_of 10.
Definition slash : ascii := "/"%char.
Definition dot : ascii := "."%char.

Definition to_bytes (s : string) : list ascii := list_ascii_of_string s.
Definition of_bytes (l : list ascii) : string := string_of_list_ascii l.

(** What follows [pre] in [l], when [l] begins with [pre]. *)
Fixpoint drop_list_prefix (pre l : list ascii) : option (list ascii) :=
  match pre, l with
  | [], _ => Some l
  | a :: pre', b :: l' => if Ascii.eqb a b then drop_list_prefix pre' l' else None
  | _ :: _, [] => None
  end.

Definition strip_prefix (pre s : string) : option string :=
  option_map of_bytes (drop_list_prefix (to_bytes pre) (to_bytes s)).

(** [strings.HasPrefix(s, prefix)]. *)
Definition strings_HasPrefix (s pre : string) : bool :=
  bool_decide (drop_list_prefix (to_bytes pre) (to_bytes s) ≠ None).

(** [strings.HasSuffix(s, suffix)]. *)
Definition strings_HasSuffix (s suf : string) : bool :=
  bool_decide (drop_list_prefix (rev (to_bytes suf)) (rev (to_bytes s)) ≠ None).

(** [strings.TrimPrefix(s, prefix)]. *)
Definition strings_TrimPrefix (s pre : string) : string :=
  match strip_prefix pre s with Some r => r | None => s end.

(** [strings.Count(s, string(sep))] for a one-byte separator. *)
Fixpoint strings_Count (s : string) (sep : ascii) : Z :=
  match s with
  | EmptyString => 0
  | String a s' => (if Ascii.eqb a sep then 1 else 0) + strings_Count s' sep
  end.

(** [bytes.IndexByte(b, c) != -1]. *)
Definition bytes_Contains (b : string) (c : ascii) : bool :=
  existsb (Ascii.eqb c) (to_bytes b).

(** The first [n] bytes of [s]: the slice [s[:min(n, len(s))]]. *)
Definition first_bytes (n : nat) (s : string) : string :=
  String.substring 0 n s.

(** *** [strings.TrimSpace]

    Go trims the Unicode white space of a UTF-8 string.  On bytes these are
    the six ASCII blanks and the encodings of U+0085, U+00A0, U+1680,
    U+2000..U+200A, U+2028, U+2029, U+202F, U+205F and U+3000. *)
Definition space_encodings : list (list ascii) :=
  map (map byte_of)
    ([[9]; [10]; [11]; [12]; [13]; [32]; [194; 133]; [194; 160];
      [225; 154; 128]]
     ++ map (fun k => [226; 128; k]) [128;129;130;131;132;133;134;135;136;137;138]
     ++ [[226; 128; 168]; [226; 128; 169]; [226; 128; 175];
         [226; 129; 159]; [227; 128; 128]])%nat.

(** One leading white-space rune removed, if there is one. *)
Fixpoint drop_one_space (encs : list (list ascii)) (l : list ascii)
  : option (list ascii) :=
  match encs with
  | [] => None
  | e :: encs' =>
      match drop_list_prefix e l with
      | Some r => Some r
      | None => drop_one_space encs' l
      end
  end.

Fixpoint trim_left_fuel (fuel : nat) (encs : list (list ascii)) (l : list ascii)
  : list ascii :=
  match fuel with
  | O => l
  | S fuel' =>
      match drop_one_space encs l with
      | Some r => trim_left_fuel fuel' encs r
      | None => l
      end
  end.

Definition trim_left (encs : list (list ascii)) (l : list ascii) : list ascii :=
  trim_left_fuel (length l) encs l.

Definition strings_TrimSpace (s : string) : string :=
  let l := trim_left space_encodings (to_bytes s) in
  of_bytes (rev (trim_left (map (@rev ascii) space_encodings) (rev l))).

(** ** The [path/filepath] package on Unix *)

(** [filepath.Ext]: the suffix beginning at the final dot of the final
    element of the path, empty when that element has no dot.  The scan runs
    from the end of the path and stops at a separator. *)
Fixpoint ext_scan (rpath acc : list ascii) : list ascii :=
  match rpath with
  | [] => []
  | c :: rest =>
      if Ascii.eqb c slash then []
      else if Ascii.eqb c dot then c :: acc
      else ext_scan rest (c :: acc)
  end.

Definition filepath_Ext (path : string) : string :=
  of_bytes (ext_scan (rev (to_bytes path)) []).

Fixpoint drop_slashes (l : list ascii) : list ascii :=
  match l with
  | c :: rest => if Ascii.eqb c slash then drop_slashes rest else l
  | [] => []
  end.

Fixpoint until_slash (l : list ascii) : list ascii :=
  match l with
  | c :: rest => if Ascii.eqb c slash then [] else c :: until_slash rest
  | [] => []
  end.

(** [filepath.Base]: the last element of the path, trailing separators
    removed first; ["."] for the empty path and ["/"] for a path of
    separators only. *)
Definition filepath_Base (path : string) : string :=
  match path with
  | EmptyString => "."
  | _ =>
      match until_slash (drop_slashes (rev (to_bytes path))) with
      | [] => "/"
      | last => of_bytes (rev last)
      end
  end.

(** [filepath.ToSlash] replaces [os.PathSeparator] by a slash. *)
Definition filepath_ToSlash (path : string) : string := path.

Definition ends_with_slash (path : string) : bool :=
  strings_HasSuffix path "/".

(** [filepath.Join(dir, name)] where [dir] is a lexically clean path and
    [name] a directory entry: the two joined by one separator, the clean
    form of ["./name"] being [name]. *)
Definition filepath_Join (dir name : string) : string :=
  if String.eqb dir "" || String.eqb dir "." then name
  else if ends_with_slash dir then dir +:+ name
  else dir +:+ "/" +:+ name.

(** [filepath.Rel(base, target)] where [target] is [base] or lies lexically
    beneath it, which is the only way [filepath.WalkDir] calls back.  Any
    other pair is answered with an error here; Go would answer with a
    path through [".."], and the walk never asks. *)
Definition filepath_Rel (base target : string) : option string :=
  if String.eqb target base then Some "."
  else if String.eqb base "" || String.eqb base "." then Some target
  else
    match strip_prefix base target with
    | Some rest =>
        Some (match strip_prefix "/" rest with Some r => r | None => rest end)
    | None => None
    end.

(** ** Regular expressions ([regexp])

    A compiled expression is known by its [MatchString] method. *)
Record Regexp := { MatchString : string -> bool }.

(** The anchored, repetition-free fragment of the RE2 syntax in which the
    exclusion tables of [NewFilter] are written: ASCII literals, escaped
    punctuation, groups, alternation, [^] and [$], and the optional [?].
    A match is asked for as a yes or no, so which of several matches the
    library prefers plays no part. *)
Inductive re :=
| Eps
| Chr (c : ascii)
| Bol
| Eol
| Cat (r1 r2 : re)
| Alt (r1 r2 : re).

(** Matching of [r] at the head of [s]; [bol] tells whether the position is
    the beginning of the text, [k] continues with what is left. *)
Fixpoint re_match (r : re) (bol : bool) (s : list ascii)
    (k : bool -> list ascii -> bool) : bool :=
  match r with
  | Eps => k bol s
  | Chr c =>
      match s with
      | a :: s' => Ascii.eqb a c && k false s'
      | [] => false
      end
  | Bol => bol && k bol s
  | Eol => match s with [] => k bol s | _ => false end
  | Cat r1 r2 => re_match r1 bol s (fun b s' => re_match r2 b s' k)
  | Alt r1 r2 => re_match r1 bol s k || re_match r2 bol s k
  end.

(** An unanchored search: a match may begin at any position of the text. *)
Fixpoint re_search_from (r : re) (bol : bool) (s : list ascii) : bool :=
  re_match r bol s (fun _ _ => true)
  || match s with
     | [] => false
     | _ :: s' => re_search_from r false s'
     end.

Definition re_search (r : re) (s : string) : bool :=
  re_search_from r true (to_bytes s).

Definition is_alnum (c : ascii) : bool :=
  let n := nat_of_ascii c in
  ((48 <=? n) && (n <=? 57) || (65 <=? n) && (n <=? 90)
   || (97 <=? n) && (n <=? 122))%nat.

Definition is_ascii (c : ascii) : bool := (nat_of_ascii c <? 128)%nat.

(** The operators that the fragment leaves out, and the bytes beyond
    ASCII, which the library reads as UTF-8. *)
Definition outside_fragment (c : ascii) : bool :=
  existsb (Ascii.eqb c) (to_bytes "*+.[]{}") || negb (is_ascii c).

(** A recursive-descent reader of the fragment; [None] on anything else. *)
Fixpoint parse_alt (fuel : nat) (s : list ascii) : option (re * list ascii) :=
  match fuel with
  | O => None
  | S fuel' =>
      match parse_cat fuel' s with
      | Some (r1, c :: rest) =>
          if Ascii.eqb c "|"%char then
            match parse_alt fuel' rest with
            | Some (r2, rest') => Some (Alt r1 r2, rest')
            | None => None
            end
          else Some (r1, c :: rest)
      | other => other
      end
  end
with parse_cat (fuel : nat) (s : list ascii) : option (re * list ascii) :=
  match fuel with
  | O => None
  | S fuel' =>
      match s with
      | [] => Some (Eps, [])
      | c :: _ =>
          if Ascii.eqb c "|"%char || Ascii.eqb c ")"%char then Some (Eps, s)
          else
            match parse_piece fuel' s with
            | Some (r1, rest) =>
                match parse_cat fuel' rest with
                | Some (r2, rest') => Some (Cat r1 r2, rest')
                | None => None
                end
            | None => None
            end
      end
  end
with parse_piece (fuel : nat) (s : list ascii) : option (re * list ascii) :=
  match fuel with
  | O => None
  | S fuel' =>
      match parse_atom fuel' s with
      | Some (r, c :: rest) =>
          if Ascii.eqb c "?"%char then
            match r with
            | Bol | Eol => None
            | _ => Some (Alt r Eps, rest)
            end
          else Some (r, c :: rest)
      | other => other
      end
  end
with parse_atom (fuel : nat) (s : list ascii) : option (re * list ascii) :=
  match fuel with
  | O => None
  | S fuel' =>
      match s with
      | [] => None
      | c :: rest =>
          if Ascii.eqb c "("%char then
            match parse_alt fuel' rest with
            | Some (r, c' :: rest') =>
                if Ascii.eqb c' ")"%char then Some (r, rest') else None
            | _ => None
            end
          else if Ascii.eqb c "^"%char then Some (Bol, rest)
          else if Ascii.eqb c "$"%char then Some (Eol, rest)
          else if Ascii.eqb c "\"%char then
            match rest with
            | e :: rest' =>
                if is_alnum e || negb (is_ascii e) then None else Some (Chr e, rest')
            | [] => None
            end
          else if Ascii.eqb c "?"%char || outside_fragment c then None
          else Some (Chr c, rest)
      end
  end.

Definition re_parse (pattern : string) : option re :=
  let s := to_bytes pattern in
  match parse_alt (4 * length s + 4) s with
  | Some (r, []) => Some r
  | _ => None
  end.

(** [regexp.Compile] on the fragment.  [None] stands for an error of the
    library only on a pattern of the fragment; on a pattern outside it,
    [None] says that the pattern is not modelled. *)
Definition fragment_Compile (pattern : string) : option Regexp :=
  match re_parse pattern with
  | Some r => Some {| MatchString := re_search r |}
  | None => None
  end.

(** ** Globs ([github.com/gobwas/glob])

    A compiled glob is known by its [Match] method, which tests the whole
    text. *)
Record Glob := { Match : string -> bool }.

(** The wildcard fragment of the glob syntax: ASCII text, [*] (any run of
    non-separator bytes) and [**] (any run of bytes).  The escape, the
    character class, the alternatives and the one-rune [?] are outside. *)
Inductive gtok :=
| GText (c : ascii)
| GAny
| GSuper.

Fixpoint glob_lex (s : list ascii) : option (list gtok) :=
  match s with
  | [] => Some []
  | c :: rest =>
      if Ascii.eqb c "*"%char then
        match rest with
        | c' :: rest' =>
            if Ascii.eqb c' "*"%char
            then option_map (cons GSuper) (glob_lex rest')
            else option_map (cons GAny) (glob_lex rest)
        | [] => Some [GAny]
        end
      else if existsb (Ascii.eqb c) (to_bytes "\[{?") || negb (is_ascii c) then None
      else option_map (cons (GText c)) (glob_lex rest)
  end.

Fixpoint glob_match (sep : ascii) (ts : list gtok) (s : list ascii) : bool :=
  match ts with
  | [] => match s with [] => true | _ => false end
  | GText c :: ts' =>
      match s with
      | a :: s' => Ascii.eqb a c && glob_match sep ts' s'
      | [] => false
      end
  | GAny :: ts' =>
      (fix run (s : list ascii) : bool :=
         glob_match sep ts' s
         || match s with
            | a :: s' => negb (Ascii.eqb a sep) && run s'
            | [] => false
            end) s
  | GSuper :: ts' =>
      (fix run (s : list ascii) : bool :=
         glob_match sep ts' s
         || match s with
            | _ :: s' => run s'
            | [] => false
            end) s
  end.

(** [glob.Compile(pattern, sep)] on the fragment, with the meaning that
    the documentation of the library gives to [*] and [**].  [None] on a
    pattern outside the fragment (a character class, an escape,
    alternatives, [?]) says that the pattern is not modelled, not that the
    library refuses it; a class that is opened and never closed the
    library does refuse. *)
Definition wildcard_Compile (pattern : string) (sep : ascii) : option Glob :=
  match glob_lex (to_bytes pattern) with
  | Some ts => Some {| Match := fun s => glob_match sep ts (to_bytes s) |}
  | None => None
  end.

(** ** Package [analyzer]: the path filter *)

(** A Go [map[string]bool] read at a key: an absent key reads [false]. *)
Definition map_true (m : gmap string bool) (k : string) : bool :=
  default false (m !! k).

Record Filter := {
  allowedExts : gmap string bool;
  excludePatterns : list Regexp;
  gitignoreGlobs : list Glob;
  respectGitignore : bool;
  excludeTests : bool
}.

Definition defaultExts : list string :=
  [".go"; ".py"; ".js"; ".jsx"; ".ts"; ".tsx"; ".vue"; ".svelte"; ".mjs"; ".cjs";
   ".yaml"; ".yml"; ".json"; ".toml"; ".md"; ".txt"; ".sh"; ".bash";
   ".c"; ".cpp"; ".h"; ".hpp"; ".rs"; ".java"; ".rb"; ".php"; ".swift"; ".kt"].

Definition alwaysExclude : list string :=
  ["(^|/)node_modules($|/)";
   "(^|/)venv($|/)";
   "(^|/)\.venv($|/)";
   "(^|/)__pycache__($|/)";
   "(^|/)\.git($|/)";
   "(^|/)dist($|/)";
   "(^|/)build($|/)";
   "(^|/)\.egg-info($|/)";
   "(^|/)\.tox($|/)";
   "(^|/)coverage($|/)";
   "(^|/)\.next($|/)";
   "(^|/)vendor($|/)";
   "(^|/)bin($|/)";
   "(^|/)tmp($|/)";
   "\.lock$";
   "-lock\.json$";
   "-lock\.yaml$";
   "Pipfile\.lock$";
   "\.gitignore$";
   "\.exe$";
   "\.so$";
   "\.dylib$";
   "\.dll$";
   "_templ\.go$";
   "\.(jpg|jpeg|png|gif|bmp|svg|ico|webp|tiff|tif|psd|raw|heic|avif)$";
   "\.pyc$";
   "\.pyo$";
   "\.pyd$";
   "\.egg$";
   "(^|/)\.eggs($|/)";
   "(^|/)\.pytest_cache($|/)";
   "(^|/)\.mypy_cache($|/)";
   "\.pb\.go$";
   "_gen\.go$";
   "\.min\.js$";
   "\.bundle\.js$";
   "\.eslintcache";
   "(^|/)\.nyc_output($|/)";
   "(^|/)\.yarn($|/)";
   "(^|/)\.npm($|/)";
   "(^|/)cypress($|/)";
   "(^|/)jest-cache($|/)"].

Definition testPatterns : list string :=
  ["_test\.go$";
   "(^|/)tests?($|/)";
   "\.test\.(js|ts|jsx|tsx)$";
   "\.spec\.(js|ts|jsx|tsx)$"].

Definition commonNoExtFiles : gmap string bool :=
  list_to_map
    [("Makefile", true); ("Dockerfile", true); ("Rakefile", true);
     ("Gemfile", true); ("Procfile", true); ("Vagrantfile", true)].

(** [bufio.Scanner] with the default split function: the lines of the
    text, each without its line feed and without a carriage return before
    it; an unterminated last line counts when it is not empty.  The
    scanner stops with an error at a line that does not fit its buffer
    (64 KiB); the model is of texts whose lines all fit. *)
Definition drop_cr (rline : list ascii) : list ascii :=
  match rline with
  | c :: rest => if Ascii.eqb c (byte_of 13) then rest else rline
  | [] => []
  end.

Fixpoint scan_lines (s : list ascii) (rcur : list ascii) : list string :=
  match s with
  | [] => match rcur with [] => [] | _ => [of_bytes (rev (drop_cr rcur))] end
  | c :: rest =>
      if Ascii.eqb c LF then of_bytes (rev (drop_cr rcur)) :: scan_lines rest []
      else scan_lines rest (c :: rcur)
  end.

Definition bufio_ScanLines (text : string) : list string :=
  scan_lines (to_bytes text) [].

Section Analyzer.

(** The two pattern compilers are libraries outside the repository. *)
Variable regexp_Compile : string -> option Regexp.
Variable glob_Compile : string -> ascii -> option Glob.

(** The loop of [NewFilter] that keeps the expressions that compile. *)
Fixpoint compile_all (patterns : list string) : list Regexp :=
  match patterns with
  | [] => []
  | pattern :: rest =>
      match regexp_Compile pattern with
      | Some re => re :: compile_all rest
      | None => compile_all rest
      end
  end.

Definition normalizeExt (ext : string) : string :=
  if strings_HasPrefix ext "." then ext else "." +:+ ext.

Definition NewFilter (allowedExts0 customExcludes : list string)
    (respectGitignore0 excludeTests0 : bool) : Filter :=
  let exts :=
    match allowedExts0 with
    | [] => foldl (fun m ext => <[ext := true]> m) ∅ defaultExts
    | _ => foldl (fun m ext => <[normalizeExt ext := true]> m) ∅ allowedExts0
    end in
  let allPatterns := alwaysExclude in
  let allPatterns :=
    if excludeTests0 then (allPatterns ++ testPatterns)%list else allPatterns in
  let allPatterns := (allPatterns ++ customExcludes)%list in
  {| allowedExts := exts;
     excludePatterns := compile_all allPatterns;
     gitignoreGlobs := [];
     respectGitignore := respectGitignore0;
     excludeTests := excludeTests0 |}.

(** What one line of the ignore file becomes before it is compiled:
    [None] for a line that the loop skips. *)
Definition gitignore_pattern (text : string) : option string :=
  let line := strings_TrimSpace text in
  if String.eqb line "" || strings_HasPrefix line "#" then None
  else
    let pattern := line in
    if strings_HasPrefix pattern "!" then None
    else
      let pattern :=
        if strings_HasSuffix pattern "/" then pattern +:+ "**" else pattern in
      let pattern :=
        if strings_HasPrefix pattern "/" then strings_TrimPrefix pattern "/"
        else "**/" +:+ pattern in
      Some pattern.

(** The scanner loop of [LoadGitignore] over the globs collected so far. *)
Fixpoint load_lines (globs : list Glob) (lines : list string) : list Glob :=
  match lines with
  | [] => globs
  | text :: rest =>
      match gitignore_pattern text with
      | None => load_lines globs rest
      | Some pattern =>
          match glob_Compile pattern slash with
          | Some g => load_lines (globs ++ [g])%list rest
          | None => load_lines globs rest
          end
      end
  end.

(** [LoadGitignore]: [file] is what opening [repoRoot/.gitignore] and
    scanning it gives, [None] when the file cannot be opened, and else the
    lines that the scanner delivered before it stopped.  The receiver is
    updated in place; the updated filter is returned.  The error of the
    scanner, which the function returns, is not part of the model. *)
Definition LoadGitignore (f : Filter) (file : option (list string)) : Filter :=
  if negb (respectGitignore f) then f
  else
    match file with
    | None => f
    | Some lines =>
        {| allowedExts := allowedExts f;
           excludePatterns := excludePatterns f;
           gitignoreGlobs := load_lines (gitignoreGlobs f) lines;
           respectGitignore := respectGitignore f;
           excludeTests := excludeTests f |}
    end.

End Analyzer.

(** The first loop of [ShouldInclude]: [true] when some expression matches. *)
Fixpoint excluded_by_pattern (res : list Regexp) (path : string) : bool :=
  match res with
  | [] => false
  | re :: rest => if MatchString re path then true else excluded_by_pattern rest path
  end.

(** The second loop of [ShouldInclude]. *)
Fixpoint ignored_by_glob (globs : list Glob) (path : string) : bool :=
  match globs with
  | [] => false
  | g :: rest => if Match g path then true else ignored_by_glob rest path
  end.

Definition ShouldInclude (f : Filter) (path : string) : bool :=
  let path := filepath_ToSlash path in
  if excluded_by_pattern (excludePatterns f) path then false
  else if respectGitignore f && ignored_by_glob (gitignoreGlobs f) path then false
  else
    let ext := filepath_Ext path in
    let filename := filepath_Base path in
    if String.eqb ext "" then map_true commonNoExtFiles filename
    else if negb (map_true (allowedExts f) ext) then false
    else true.

(** ** The operating system as the collector sees it *)

Inductive error :=
| io_EOF
| os_PathError
| context_Canceled
| context_DeadlineExceeded.

(** A Go pair [(value, err)] of which one side is meaningful. *)
Inductive result (A : Type) :=
| Ok (a : A)
| Err (e : error).
Arguments Ok {A} a.
Arguments Err {A} e.

Inductive FileMode := ModeRegular | ModeDir | ModeSymlink | ModeIrregular.

#[local] Unset Elimination Schemes.

(** A directory entry as [filepath.WalkDir] meets it: its name, its type
    bits, and for a directory what [os.ReadDir] lists (and the error of
    the listing, if any).  Symbolic links are entries of their own: the
    walk of the library does not follow them. *)
Inductive DirEntry :=
| mkEntry (Name : string) (Type_ : FileMode) (listing : list DirEntry)
    (listingErr : option error).

#[local] Set Elimination Schemes.

Definition Name (d : DirEntry) : string := let 'mkEntry n _ _ _ := d in n.
Definition Type_ (d : DirEntry) : FileMode := let 'mkEntry _ t _ _ := d in t.
Definition listing (d : DirEntry) : list DirEntry := let 'mkEntry _ _ l _ := d in l.
Definition listingErr (d : DirEntry) : option error := let 'mkEntry _ _ _ e := d in e.

Definition IsDir (d : DirEntry) : bool :=
  match Type_ d with ModeDir => true | _ => false end.
Definition IsSymlink (d : DirEntry) : bool :=
  match Type_ d with ModeSymlink => true | _ => false end.

Record FileInfo := { info_Size : Z; info_IsDir : bool }.

(** An open file: a regular file with its bytes, or a directory. *)
Inductive File :=
| RegularFile (data : string)
| DirectoryFile.

(** [file.Read(buf)] with [len(buf) = n] on a freshly opened file: the
    bytes read and the error.  The end of file is reported with no byte;
    a directory cannot be read. *)
Definition File_Read (f : File) (n : nat) : string * option error :=
  match f with
  | RegularFile EmptyString => ("", Some io_EOF)
  | RegularFile data => (first_bytes n data, None)
  | DirectoryFile => ("", Some os_PathError)
  end.

(** The system calls of the collector, each by the path it is given. *)
Record OS := {
  filepath_EvalSymlinks : string -> result string;
  os_Stat : string -> result FileInfo;
  os_Open : string -> result File;
  os_ReadFile : string -> result string
}.

(** ** [filepath.WalkDir] *)

(** What a callback returns: [nil] is [None].  The callback of [Collect]
    returns nothing but [nil] and [filepath.SkipDir]. *)
Inductive WalkErr := SkipDir.

Section WalkDir.

Context {St : Type}.
Variable fn : string -> option DirEntry -> option error -> St -> St * option WalkErr.

(** [walkDir]: call back on the entry; descend when it is a directory
    and the callback returned [nil].  [SkipDir] on a directory skips
    that directory; on any other entry it ends the loop over the
    entries of the parent. *)
Fixpoint walkDir (path : string) (d : DirEntry) (st : St) {struct d}
  : St * option WalkErr :=
  match d with
  | mkEntry _ _ dirs rderr =>
      let '(st1, err) := fn path (Some d) None st in
      if bool_decide (err ≠ None) || negb (IsDir d) then
        (st1, match err with
              | Some SkipDir => if IsDir d then None else err
              | None => None
              end)
      else
        let '(st2, err2) :=
          match rderr with
          | Some e => fn path (Some d) (Some e) st1
          | None => (st1, None)
          end in
        match err2 with
        | Some SkipDir => (st2, None)
        | None =>
            (fix loop (ds : list DirEntry) (st : St) {struct ds}
               : St * option WalkErr :=
               match ds with
               | [] => (st, None)
               | d1 :: rest =>
                   match walkDir (filepath_Join path (Name d1)) d1 st with
                   | (st', Some SkipDir) => (st', None)
                   | (st', None) => loop rest st'
                   end
               end) dirs st2
        end
  end.

(** The loop of [walkDir] over the entries of a directory. *)
Fixpoint walkEntries (path : string) (ds : list DirEntry) (st : St)
  : St * option WalkErr :=
  match ds with
  | [] => (st, None)
  | d1 :: rest =>
      match walkDir (filepath_Join path (Name d1)) d1 st with
      | (st', Some SkipDir) => (st', None)
      | (st', None) => walkEntries path rest st'
      end
  end.

(** [filepath.WalkDir(root, fn)]: [lstat] is [os.Lstat(root)].  Its
    failure is reported to the callback without an entry.  A [SkipDir]
    that reaches the top is not an error. *)
Definition filepath_WalkDir (root : string) (lstat : result DirEntry) (st : St)
  : St * option error :=
  let '(st', err) :=
    match lstat with
    | Err e => fn root None (Some e) st
    | Ok d => walkDir root d st
    end in
  match err with
  | Some SkipDir => (st', None)
  | None => (st', None)
  end.

End WalkDir.

(** ** Package [collector] *)

Record FileData := {
  RelPath : string;
  Content : string;
  Size : Z;
  Language : string
}.

Record CollectionResult := {
  Files : list FileData;
  TotalSize : Z;
  FileCount : Z
}.

Record fileJob := { fullPath : string; relPath : string }.

(** The variables that the callback of the walk captures and updates.
    [dirVisits] is a ghost log, absent from the source: the paths of the
    directories on which the callback ran. *)
Record walkState := {
  fileJobs : list fileJob;
  visitedDirs : gmap string bool;
  dirVisits : list string
}.

Definition with_job (st : walkState) (j : fileJob) : walkState :=
  {| fileJobs := (fileJobs st ++ [j])%list;
     visitedDirs := visitedDirs st;
     dirVisits := dirVisits st |}.

Definition with_visited (st : walkState) (realPath : string) : walkState :=
  {| fileJobs := fileJobs st;
     visitedDirs := <[realPath := true]> (visitedDirs st);
     dirVisits := dirVisits st |}.

Definition with_dirVisit (st : walkState) (path : string) : walkState :=
  {| fileJobs := fileJobs st;
     visitedDirs := visitedDirs st;
     dirVisits := (dirVisits st ++ [path])%list |}.

Section Walk.

Variable sys : OS.
Variable rootPath : string.
Variable filter : Filter.
Variable maxDepth : Z.

(** The callback from the computation of [relPath] on. *)
Definition visitEntry (path : string) (d : DirEntry) (st : walkState)
  : walkState * option WalkErr :=
  match filepath_Rel rootPath path with
  | None => (st, None)
  | Some relPath =>
      if IsDir d then
        let st := with_dirVisit st path in
        if negb (String.eqb relPath ".") then
          let depth := strings_Count relPath slash + 1 in
          if (0 <? maxDepth) && (maxDepth <? depth) then (st, Some SkipDir)
          else if negb (ShouldInclude filter (relPath +:+ "/dummy.go"))
          then (st, Some SkipDir)
          else (st, None)
        else (st, None)
      else if negb (ShouldInclude filter relPath) then (st, None)
      else (with_job st {| fullPath := path; relPath := relPath |}, None)
  end.

(** The function literal that [Collect] hands to [filepath.WalkDir]. *)
Definition walkFn (path : string) (d : option DirEntry) (err : option error)
    (st : walkState) : walkState * option WalkErr :=
  match err, d with
  | Some _, _ => (st, None)
  | None, None => (st, None)
  | None, Some d =>
      if IsSymlink d then
        match filepath_EvalSymlinks sys path with
        | Err _ => (st, None)
        | Ok realPath =>
            if map_true (visitedDirs st) realPath then (st, Some SkipDir)
            else
              let st :=
                match os_Stat sys realPath with
                | Ok info =>
                    if info_IsDir info then with_visited st realPath else st
                | Err _ => st
                end in
              visitEntry path d st
        end
      else visitEntry path d st
  end.

Definition initialWalk : walkState :=
  {| fileJobs := []; visitedDirs := ∅; dirVisits := [] |}.

(** The first part of [Collect]: the walk that fills [fileJobs], with
    the error that [filepath.WalkDir] returns. *)
Definition enumerate (lstat : result DirEntry) : walkState * option error :=
  filepath_WalkDir walkFn rootPath lstat initialWalk.

End Walk.

Definition nl : string := String LF "".

(** [make([]byte, 8192)]. *)
Definition bufSize : nat := Z.to_nat 8192.

(** [isBinaryFile]: open, read at most 8192 bytes, look for a NUL byte. *)
Definition isBinaryFile (sys : OS) (filePath : string) : bool * option error :=
  match os_Open sys filePath with
  | Err e => (false, Some e)
  | Ok f =>
      let '(buf, err) := File_Read f bufSize in
      if bool_decide (err ≠ None) && (String.length buf =? 0)%nat
      then (false, err)
      else (bytes_Contains buf NUL, None)
  end.

Definition noExtMap : gmap string string :=
  list_to_map
    [("Makefile", "makefile"); ("Dockerfile", "dockerfile"); ("Rakefile", "ruby");
     ("Gemfile", "ruby"); ("Procfile", "yaml"); ("Vagrantfile", "ruby");
     ("Cargo", "toml")].

Definition languageMap : gmap string string :=
  list_to_map
    [(".go", "go"); (".py", "python"); (".js", "javascript"); (".jsx", "jsx");
     (".ts", "typescript"); (".tsx", "tsx"); (".vue", "vue");
     (".svelte", "svelte"); (".mjs", "javascript"); (".cjs", "javascript");
     (".rs", "rust"); (".java", "java"); (".c", "c"); (".cpp", "cpp");
     (".cc", "cpp"); (".cxx", "cpp"); (".h", "c"); (".hpp", "cpp");
     (".hh", "cpp"); (".cs", "csharp"); (".rb", "ruby"); (".php", "php");
     (".swift", "swift"); (".kt", "kotlin"); (".kts", "kotlin");
     (".scala", "scala"); (".sh", "bash"); (".bash", "bash"); (".zsh", "zsh");
     (".fish", "fish"); (".yaml", "yaml"); (".yml", "yaml"); (".json", "json");
     (".xml", "xml"); (".html", "html"); (".htm", "html"); (".css", "css");
     (".scss", "scss"); (".sass", "sass"); (".less", "less");
     (".md", "markdown"); (".markdown", "markdown"); (".sql", "sql");
     (".toml", "toml"); (".ini", "ini"); (".conf", "conf"); (".env", "bash");
     (".txt", "text"); (".dockerfile", "dockerfile"); (".pl", "perl");
     (".pm", "perl"); (".lua", "lua"); (".vim", "vim"); (".ex", "elixir");
     (".exs", "elixir"); (".erl", "erlang"); (".hrl", "erlang");
     (".clj", "clojure"); (".cljs", "clojure"); (".dart", "dart"); (".r", "r");
     (".R", "r"); (".m", "objective-c"); (".mm", "objective-c");
     (".groovy", "groovy"); (".gradle", "gradle"); (".tf", "terraform");
     (".hcl", "hcl")].

Definition getLanguage (filename : string) : string :=
  let base := filepath_Base filename in
  let ext := filepath_Ext filename in
  if String.eqb ext "" then default "" (noExtMap !! base)
  else default "" (languageMap !! ext).

(** *** The worker *)

Record fileResult := { res_data : FileData; res_err : option error }.

Definition zeroFileData : FileData :=
  {| RelPath := ""; Content := ""; Size := 0; Language := "" |}.

(** [float64(size)] for a size between 0 and 2^63, rounded to nearest. *)
Definition float64_of_size (size : Z) : float :=
  PrimFloat.of_uint63 (Uint63.of_Z size).

Definition fileSizeMB (size : Z) : float :=
  PrimFloat.div (float64_of_size size) (PrimFloat.of_uint63 (1024 * 1024)%uint63).

(** [a > b] on [float64]. *)
Definition float_gt (a b : float) : bool := PrimFloat.ltb b a.

Definition tooLarge (maxFileSizeMB : float) (size : Z) : bool :=
  float_gt maxFileSizeMB PrimFloat.zero
  && float_gt (fileSizeMB size) maxFileSizeMB.

(** The body of a worker after its look at the context: what it sends on
    [resultsChan], if anything.  It returns [nil] in every case. *)
Definition processJob (sys : OS) (maxFileSizeMB : float) (job : fileJob)
  : option fileResult :=
  let '(isBinary, err) := isBinaryFile sys (fullPath job) in
  if bool_decide (err ≠ None) || isBinary then None
  else
    match os_Stat sys (fullPath job) with
    | Err e => Some {| res_data := zeroFileData; res_err := Some e |}
    | Ok info =>
        if tooLarge maxFileSizeMB (info_Size info) then None
        else
          match os_ReadFile sys (fullPath job) with
          | Err e => Some {| res_data := zeroFileData; res_err := Some e |}
          | Ok content =>
              Some {| res_data :=
                        {| RelPath := relPath job;
                           Content := content;
                           Size := info_Size info;
                           Language := getLanguage (relPath job) |};
                      res_err := None |}
          end
    end.

(** *** The worker pool

    The goroutines of the [errgroup] run in an order that the program does
    not fix.  A run is a sequence of events: the context of the caller
    becomes done, the goroutine of job [i] takes its look at the context,
    the goroutine of job [i] runs the rest of its body and returns.
    [SetLimit(16)] only delays starts, so it removes runs and adds none. *)
Inductive event :=
| evDone (deadline : bool)
| evStart (i : nat)
| evFinish (i : nat).

Inductive goroutine := Pending | Running | Returned.

Record pool := {
  ctxErr : option error;
  groupErr : option error;
  workers : list goroutine;
  resultsChan : list fileResult
}.

Definition initialPool (njobs : nat) : pool :=
  {| ctxErr := None; groupErr := None;
     workers := replicate njobs Pending; resultsChan := [] |}.

(** [egCtx] is done when the context of the caller is, or when a worker
    of the group has returned an error. *)
Definition egCtx_Done (p : pool) : bool :=
  bool_decide (ctxErr p ≠ None) || bool_decide (groupErr p ≠ None).

Definition egCtx_Err (p : pool) : error :=
  match ctxErr p with Some e => e | None => context_Canceled end.

Section Pool.

Variable sys : OS.
Variable maxFileSizeMB : float.
Variable jobs : list fileJob.

Definition step (p : pool) (ev : event) : pool :=
  match ev with
  | evDone deadline =>
      match ctxErr p with
      | Some _ => p
      | None =>
          {| ctxErr := Some (if deadline then context_DeadlineExceeded
                             else context_Canceled);
             groupErr := groupErr p;
             workers := workers p;
             resultsChan := resultsChan p |}
      end
  | evStart i =>
      match workers p !! i with
      | Some Pending =>
          if egCtx_Done p then
            {| ctxErr := ctxErr p;
               groupErr := match groupErr p with
                           | Some e => Some e
                           | None => Some (egCtx_Err p)
                           end;
               workers := <[i := Returned]> (workers p);
               resultsChan := resultsChan p |}
          else
            {| ctxErr := ctxErr p;
               groupErr := groupErr p;
               workers := <[i := Running]> (workers p);
               resultsChan := resultsChan p |}
      | _ => p
      end
  | evFinish i =>
      match workers p !! i, jobs !! i with
      | Some Running, Some job =>
          {| ctxErr := ctxErr p;
             groupErr := groupErr p;
             workers := <[i := Returned]> (workers p);
             resultsChan :=
               match processJob sys maxFileSizeMB job with
               | Some res => (resultsChan p ++ [res])%list
               | None => resultsChan p
               end |}
      | _, _ => p
      end
  end.

Definition run (sched : list event) : pool :=
  foldl step (initialPool (length jobs)) sched.

(** [eg.Wait()] returns when every goroutine of the group has. *)
Definition allReturned (p : pool) : bool :=
  forallb (fun g => match g with Returned => true | _ => false end) (workers p).

End Pool.

(** *** Aggregation *)

(** Addition of [int64]. *)
Definition wrap64 (z : Z) : Z := (z + 2 ^ 63) mod 2 ^ 64 - 2 ^ 63.
Definition add64 (a b : Z) : Z := wrap64 (a + b).

(** The loop over [resultsChan]. *)
Fixpoint drain (ch : list fileResult) (files : list FileData) (total : Z)
  : list FileData * Z :=
  match ch with
  | [] => (files, total)
  | res :: rest =>
      match res_err res with
      | Some _ => drain rest files total
      | None =>
          drain rest (files ++ [res_data res])%list
            (add64 total (Size (res_data res)))
      end
  end.

(** [sort.Slice(x, less)]: a permutation of [x] in which no element is
    [less] than an earlier one; the order of elements that [less] does
    not tell apart is not promised.  An insertion sort stands for it. *)
Section SortSlice.
Context {A : Type}.
Variable less : A -> A -> bool.

Fixpoint sort_insert (x : A) (l : list A) : list A :=
  match l with
  | [] => [x]
  | y :: l' => if less x y then x :: l else y :: sort_insert x l'
  end.

Fixpoint sort_Slice (l : list A) : list A :=
  match l with
  | [] => []
  | x :: l' => sort_insert x (sort_Slice l')
  end.
End SortSlice.

Definition lessRelPath (a b : FileData) : bool :=
  String.ltb (RelPath a) (RelPath b).

(** The second part of [Collect], from the creation of the [errgroup] to
    the end: [sched] is the run of the worker pool, with the moment at
    which [ctx] becomes done.  The answer is [None] as long as a goroutine
    of the pool has not returned: the channel is not closed and [eg.Wait]
    blocks. *)
Definition gather (sys : OS) (sched : list event) (maxFileSizeMB : float)
    (jobs : list fileJob) : option (result CollectionResult) :=
  let p := run sys maxFileSizeMB jobs sched in
  if allReturned p then
    let '(files, total) := drain (resultsChan p) [] 0 in
    match groupErr p with
    | Some err => Some (Err err)
    | None =>
        let files := sort_Slice lessRelPath files in
        Some (Ok {| Files := files;
                    TotalSize := total;
                    FileCount := Z.of_nat (length files) |})
    end
  else None.

(** [Collect].  [lstat] and the directory tree under it are what the walk
    finds at [rootPath]. *)
Definition Collect (sys : OS) (sched : list event) (rootPath : string)
    (lstat : result DirEntry) (filter : Filter) (maxDepth : Z)
    (maxFileSizeMB : float) : option (result CollectionResult) :=
  match enumerate sys rootPath filter maxDepth lstat with
  | (_, Some err) => Some (Err err)
  | (walked, None) => gather sys sched maxFileSizeMB (fileJobs walked)
  end.

(** [FormatAsMarkdown]: the loop over [result.Files], with the index [i]
    and the builder [sb]. *)
Fixpoint formatFiles (files : list FileData) (i len : Z) (sb : string) : string :=
  match files with
  | [] => sb
  | file :: rest =>
      let sb := sb +:+ ("File: ./" +:+ RelPath file +:+ nl +:+ nl) in
      let sb := sb +:+ ("```" +:+ Language file +:+ nl) in
      let sb := sb +:+ Content file in
      let sb := if negb (strings_HasSuffix (Content file) nl)
                then sb +:+ nl else sb in
      let sb := sb +:+ ("```" +:+ nl) in
      let sb := if i <? len - 1
                then sb +:+ (nl +:+ "---" +:+ nl +:+ nl) else sb in
      formatFiles rest (i + 1) len sb
  end.

Definition FormatAsMarkdown (r : CollectionResult) : string :=
  formatFiles (Files r) 0 (Z.of_nat (length (Files r))) "".

(** ** Definitions on the side of the specification *)

(** *** The markdown artifact, as the specification words it *)

Definition separator : string := nl +:+ "---" +:+ nl +:+ nl.

(** The content as it stands before the closing fence: a line feed is added
    only when the content does not end with one. *)
Definition fencedContent (content : string) : string :=
  if strings_HasSuffix content nl then content else content +:+ nl.

Definition fileBlock (f : FileData) : string :=
  "File: ./" +:+ RelPath f +:+ nl +:+ nl
  +:+ "```" +:+ Language f +:+ nl
  +:+ fencedContent (Content f)
  +:+ "```" +:+ nl.

(** The blocks of the records in order, a separator between two of them. *)
Definition renderSpec (files : list FileData) : string :=
  String.concat separator (map fileBlock files).

(** *** The stages of the filter, as the specification words them *)

(** The fixed set of conventional build and project file names. *)
Definition conventionalNames : list string :=
  ["Makefile"; "Dockerfile"; "Rakefile"; "Gemfile"; "Procfile"; "Vagrantfile"].

(** Stage 1: some compiled exclusion pattern matches the path. *)
Definition patternMatches (f : Filter) (p : string) : Prop :=
  Exists (fun re => MatchString re p = true) (excludePatterns f).

(** Stage 2: the globs of the ignore file are active and one matches. *)
Definition globIgnores (f : Filter) (p : string) : Prop :=
  respectGitignore f = true
  /\ Exists (fun g => Match g p = true) (gitignoreGlobs f).

Definition inAllowSet (f : Filter) (ext : string) : Prop :=
  allowedExts f !! ext = Some true.

(** A regular-expression compiler that reads the fragment as [re_parse]
    does and matches it as [re_search] does. *)
Definition regexp_on_fragment (compile : string -> option Regexp) : Prop :=
  forall pattern r, re_parse pattern = Some r ->
    exists R, compile pattern = Some R /\ forall s, MatchString R s = re_search r s.

(** *** Concrete inputs *)

Definition regularFile (name : string) : DirEntry := mkEntry name ModeRegular [] None.
Definition directory (name : string) (entries : list DirEntry) : DirEntry :=
  mkEntry name ModeDir entries None.
Definition symlink (name : string) : DirEntry := mkEntry name ModeSymlink [] None.

(** The filter of a run without flags, before any ignore file is loaded. *)
Definition defaultFilter : Filter := NewFilter fragment_Compile [] [] true false.

(** A system in which no link resolves and no file opens. *)
Definition idleOS : OS :=
  {| filepath_EvalSymlinks := fun _ => Err os_PathError;
     os_Stat := fun _ => Err os_PathError;
     os_Open := fun _ => Err os_PathError;
     os_ReadFile := fun _ => Err os_PathError |}.

(** The tree [root/a.txt], [root/sub/b.txt]. *)
Definition twoLevelTree : DirEntry :=
  directory "root" [regularFile "a.txt"; directory "sub" [regularFile "b.txt"]].

(** The same with [root/sub/deep/c.txt]. *)
Definition threeLevelTree : DirEntry :=
  directory "root"
    [regularFile "a.txt";
     directory "sub" [regularFile "b.txt"; directory "deep" [regularFile "c.txt"]]].

Definition enumerated (sys : OS) (rootPath : string) (filter : Filter)
    (maxDepth : Z) (tree : DirEntry) : list string :=
  map relPath (fileJobs (fst (enumerate sys rootPath filter maxDepth (Ok tree)))).

(** An ignore file of two lines, [notes.txt] and [docs/]. *)
Definition ignoreFile : string := "notes.txt" +:+ nl +:+ "docs/" +:+ nl.

Definition ignoringFilter : Filter :=
  LoadGitignore wildcard_Compile defaultFilter (Some (bufio_ScanLines ignoreFile)).

(** *** The result set, as the specification words it *)

(** The byte-wise order of Go strings, strict. *)
Definition pathBefore (a b : FileData) : Prop :=
  String.ltb (RelPath a) (RelPath b) = true.

(** Strictly ascending: every record is before every later one. *)
Definition strictlyAscending (files : list FileData) : Prop :=
  StronglySorted pathBefore files.

(** The records that a channel holds: what the loop of [Collect] keeps. *)
Definition okData (ch : list fileResult) : list FileData :=
  omap (fun res => match res_err res with
                   | None => Some (res_data res)
                   | Some _ => None
                   end) ch.

(** What a worker sends for a job, as a list of zero or one result. *)
Definition sent (sys : OS) (maxFileSizeMB : float) (job : fileJob) : list fileResult :=
  match processJob sys maxFileSizeMB job with
  | Some res => [res]
  | None => []
  end.

(** The records of a list of jobs, in the order of the jobs. *)
Definition produced (sys : OS) (maxFileSizeMB : float) (jobs : list fileJob)
  : list FileData :=
  okData (jobs ≫= sent sys maxFileSizeMB).

Definition sumSizes (files : list FileData) : Z :=
  foldr (fun f acc => Size f + acc) 0 files.


(** The run in which the goroutines work one after the other. *)
Definition sequential (n : nat) : list event :=
  seq 0 n ≫= (fun i => [evStart i; evFinish i]).

(** *** The invariant of the worker pool *)

(** [finished] lists, in the order of their return, the goroutines that
    ran their body to the end. *)
Record poolInv (sys : OS) (maxFileSizeMB : float) (jobs : list fileJob)
    (p : pool) (finished : list nat) : Prop := {
  inv_nodup : NoDup finished;
  inv_returned : forall i, i ∈ finished -> workers p !! i = Some Returned;
  inv_chan :
    resultsChan p
    = finished ≫= (fun i => from_option (sent sys maxFileSizeMB) [] (jobs !! i));
  inv_length : length (workers p) = length jobs;
  inv_all :
    groupErr p = None -> forall i, workers p !! i = Some Returned -> i ∈ finished;
  inv_err : forall e, groupErr p = Some e -> ctxErr p = Some e;
  inv_ctx :
    forall e, ctxErr p = Some e ->
              e = context_Canceled \/ e = context_DeadlineExceeded
}.

(** *** Well-formed directory trees *)

(** Induction on a directory entry, with the entries of its listing. *)
Definition DirEntry_ind (P : DirEntry -> Prop)
    (step : forall n t dirs e, Forall P dirs -> P (mkEntry n t dirs e))
  : forall d, P d :=
  fix go (d : DirEntry) : P d :=
    match d with
    | mkEntry n t dirs e =>
        step n t dirs e
          ((fix all (ds : list DirEntry) : Forall P ds :=
              match ds with
              | [] => List.Forall_nil P
              | d1 :: rest => @List.Forall_cons _ P d1 rest (go d1) (all rest)
              end) dirs)
    end.

(** The name of a directory entry: not empty, not the dot, without
    separator. *)
Definition validName (name : string) : bool :=
  negb (String.eqb name "") && negb (String.eqb name ".")
  && negb (existsb (Ascii.eqb slash) (to_bytes name)).

(** A tree as a file system holds it: in every listing the names are
    valid and no name occurs twice. *)
Fixpoint wellFormed (d : DirEntry) : bool :=
  match d with
  | mkEntry _ _ dirs _ =>
      bool_decide (NoDup (map Name dirs))
      && forallb (fun d1 => validName (Name d1)) dirs
      && (fix all (ds : list DirEntry) : bool :=
            match ds with
            | [] => true
            | d1 :: rest => wellFormed d1 && all rest
            end) dirs
  end.

(** The path of the entry reached from [root] through the names [ns]. *)
Definition pathOf (root : string) (ns : list string) : string :=
  foldl filepath_Join root ns.

(** Its path relative to the root. *)
Definition relOf (ns : list string) : string :=
  match ns with
  | [] => "."
  | _ => String.concat "/" ns
  end.

Definition jobOf (root : string) (ns : list string) : fileJob :=
  {| fullPath := pathOf root ns; relPath := relOf ns |}.
(** What [filepath.Join] puts before the names under [root]. *)
Definition prefixOf (root : string) : string :=
  if String.eqb root "" || String.eqb root "." then ""
  else if ends_with_slash root then root
  else root +:+ "/".

Definition firstByte (s : string) : option ascii := head (to_bytes s).
Definition lastByte (s : string) : option ascii := head (rev (to_bytes s)).

(** A relative path of valid names. *)
Definition relShaped (c : string) : Prop :=
  c <> "" /\ c <> "." /\ firstByte c <> Some slash /\ lastByte c <> Some slash.

(** *** The trace of the walk *)

Definition validNames (ns : list string) : Prop :=
  Forall (fun n => validName n = true) ns.

(** [ms] leads to an entry at or beneath the one that [ns] leads to. *)
Definition beneath (ns ms : list string) : Prop :=
  validNames ms /\ exists rest, ms = (ns ++ rest)%list.

(** [ms] leads to an entry of [names] in the listing at [ns], or beneath. *)
Definition beneathOneOf (ns names ms : list string) : Prop :=
  validNames ms /\ exists n rest, n ∈ names /\ ms = (ns ++ n :: rest)%list.

(** From [st] to [st'] the walk has added the jobs of the entries [js]
    and has visited the directories [ds]. *)
Definition extends (root : string) (st st' : walkState)
    (js ds : list (list string)) : Prop :=
  fileJobs st' = (fileJobs st ++ map (jobOf root) js)%list
  /\ dirVisits st' = (dirVisits st ++ map (pathOf root) ds)%list.

(** The property of [walkDir] that the induction on the tree carries. *)
Definition traced (sys : OS) (rootPath : string) (filter : Filter) (maxDepth : Z)
    (d : DirEntry) : Prop :=
  wellFormed d = true ->
  forall ns st, validNames ns ->
    exists js ds,
      extends rootPath st
        (fst (walkDir (walkFn sys rootPath filter maxDepth) (pathOf rootPath ns) d st))
        js ds
      /\ NoDup js /\ NoDup ds
      /\ Forall (beneath ns) js /\ Forall (beneath ns) ds.

(** *** A small file system *)

Fixpoint assoc (key : string) (table : list (string * string)) : option string :=
  match table with
  | [] => None
  | (k, v) :: rest => if String.eqb k key then Some v else assoc key rest
  end.

(** A system of regular files with their content, symbolic links with
    their real target, and directories. *)
Definition tableOS (files links : list (string * string)) (dirs : list string) : OS :=
  let resolve := fun path =>
    match assoc path links with Some target => target | None => path end in
  let isDirectory := fun path => existsb (String.eqb path) dirs in
  {| filepath_EvalSymlinks := fun path =>
       match assoc (resolve path) files with
       | Some _ => Ok (resolve path)
       | None => if isDirectory (resolve path) then Ok (resolve path)
                 else Err os_PathError
       end;
     os_Stat := fun path =>
       match assoc (resolve path) files with
       | Some content =>
           Ok {| info_Size := Z.of_nat (String.length content); info_IsDir := false |}
       | None => if isDirectory (resolve path)
                 then Ok {| info_Size := 4096; info_IsDir := true |}
                 else Err os_PathError
       end;
     os_Open := fun path =>
       match assoc (resolve path) files with
       | Some content => Ok (RegularFile content)
       | None => if isDirectory (resolve path) then Ok DirectoryFile
                 else Err os_PathError
       end;
     os_ReadFile := fun path =>
       match assoc (resolve path) files with
       | Some content => Ok content
       | None => Err os_PathError
       end |}.

Definition demoFiles : list (string * string) :=
  [("/root/a.go", "package a" +:+ nl);
   ("/root/b.py", "print(1)");
   ("/root/blob.txt", String "a" (String NUL "b"));
   ("/root/empty.txt", "");
   ("/root/sub/c.md", "# c" +:+ nl);
   ("/root/sub/z.md", "# z" +:+ nl)].

(** Two links of [root/sub] lead back to [root]: a cycle. *)
Definition demoLinks : list (string * string) :=
  [("/root/sub/again", "/root"); ("/root/sub/loop", "/root")].

Definition demoOS : OS := tableOS demoFiles demoLinks ["/root"; "/root/sub"].

Definition demoTree : DirEntry :=
  directory "root"
    [regularFile "a.go"; regularFile "b.py"; regularFile "blob.txt";
     regularFile "empty.txt";
     directory "sub"
       [symlink "again"; regularFile "c.md"; symlink "loop"; regularFile "z.md"]].

(** A run of five goroutines, out of the order of the jobs. *)
Definition demoRun : list event :=
  [evStart 1; evStart 0; evFinish 0; evStart 4; evStart 2; evFinish 4;
   evFinish 1; evStart 3; evFinish 3; evFinish 2]%nat.

(** The root that [os.Lstat] finds, or its failure. *)
Definition wellFormedRoot (lstat : result DirEntry) : bool :=
  match lstat with
  | Ok d => wellFormed d
  | Err _ => true
  end.

(** No limit on the size of a file. *)
Definition noLimit : float := PrimFloat.zero.


(** *** The properties of a result, as the specification words them *)

(** The jobs that the walk of [Collect] hands to the worker pool. *)
Definition jobsOf (sys : OS) (rootPath : string) (filter : Filter) (maxDepth : Z)
    (lstat : result DirEntry) : list fileJob :=
  fileJobs (fst (enumerate sys rootPath filter maxDepth lstat)).

(** The first chunk that [isBinaryFile] reads from the file at [path]. *)
Definition firstChunk (sys : OS) (path : string) : option string :=
  match os_Open sys path with
  | Ok f => Some (fst (File_Read f bufSize))
  | Err _ => None
  end.




(** The result of the demonstration run without a limit. *)
Definition demoResult : CollectionResult :=
  {| Files :=
       [{| RelPath := "a.go"; Content := "package a" +:+ nl; Size := 10;
           Language := "go" |};
        {| RelPath := "b.py"; Content := "print(1)"; Size := 8;
           Language := "python" |};
        {| RelPath := "sub/c.md"; Content := "# c" +:+ nl; Size := 4;
           Language := "markdown" |}];
     TotalSize := 22;
     FileCount := 3 |}.

(** *** Cancellation, as the specification words it *)







(** The context is cancelled before the only worker starts. *)
Definition earlyCancel : list event := [evDone false; evStart 0]%nat.


(** A result of two records, [a.go] ending with a line feed and [b.py]
    without one. *)
Definition twoFiles : CollectionResult :=
  {| Files :=
       [{| RelPath := "a.go"; Content := "package a" +:+ nl; Size := 10;
           Language := getLanguage "a.go" |};
        {| RelPath := "b.py"; Content := "print(1)"; Size := 8;
           Language := getLanguage "b.py" |}];
     TotalSize := 18;
     FileCount := 2 |}.

(** *** More definitions on the side of the specification *)

(** The patterns that [NewFilter] hands to the compiler, in their order. *)
Definition allPatternsOf (customExcludes : list string) (excludeTests0 : bool)
  : list string :=
  (alwaysExclude ++ (if excludeTests0 then testPatterns else [])
   ++ customExcludes)%list.

(** A text of the wildcard fragment without wildcard: ASCII bytes, none
    of them an operator of the glob syntax. *)
Definition literalText (t : string) : bool :=
  forallb (fun c => is_ascii c
                    && negb (existsb (Ascii.eqb c) (to_bytes "*\[{?")))
    (to_bytes t).

(** The globs that one line of an ignore file gives. *)
Definition globsOfLine (compile : string -> ascii -> option Glob) (line : string)
  : list Glob :=
  load_lines compile [] [line].

(** *** The jobs of the walk, as the callback admits them *)

(** A job as the callback makes it: the relative path is what
    [filepath.Rel] gives for the full path, and the filter includes it. *)
Definition admitted (rootPath : string) (filter : Filter) (job : fileJob) : Prop :=
  filepath_Rel rootPath (fullPath job) = Some (relPath job)
  /\ ShouldInclude filter (relPath job) = true.

(** The result without a file. *)
Definition emptyResult : CollectionResult :=
  {| Files := []; TotalSize := 0; FileCount := 0 |}.

(** A relative path of the top level: one without separator. *)
Definition topLevel (rel : string) : Prop := strings_Count rel slash = 0.

(** A filter for Python files alone. *)
Definition pythonFilter : Filter := NewFilter fragment_Compile ["py"] [] true false.

(** The worker sends the record [f] for the job. *)
Definition yields (sys : OS) (maxFileSizeMB : float) (job : fileJob) (f : FileData)
  : Prop :=
  processJob sys maxFileSizeMB job = Some {| res_data := f; res_err := None |}.

(** The listing of [root/sub] in the demonstration tree: two links,
    [again] and [loop], lead to the same directory, with the file [c.md]
    between them and the file [z.md] after them. *)
Definition linkedListing : list DirEntry :=
  [symlink "again"; regularFile "c.md"; symlink "loop"; regularFile "z.md"].

(** Python files at two levels: [root/a.py] and [root/sub/b.py]. *)
Definition pythonTree : DirEntry :=
  directory "root" [regularFile "a.py"; directory "sub" [regularFile "b.py"]].

Definition pythonOS : OS :=
  tableOS [("/root/a.py", "x = 1" +:+ nl); ("/root/sub/b.py", "y = 2" +:+ nl)] []
    ["/root"; "/root/sub"].

Definition pythonResult : CollectionResult :=
  {| Files := [{| RelPath := "a.py"; Content := "x = 1" +:+ nl; Size := 6;
                  Language := "python" |}];
     TotalSize := 6;
     FileCount := 1 |}.

(** ** [CountLines] *)

(** [const bufferSize = 32 * 1024]. *)
Definition bufferSize : nat := Z.to_nat (32 * 1024).

(** The outcome of one call of [file.Read]: the bytes read and the error. *)
Definition readOutcome : Type := string * option error.

(** The loop of [CountLines] over the outcomes of its calls of
    [file.Read], with the variables [count] and [firstChunk].  The answer
    is [None] when the outcomes end before a call reports the end of the
    file or an error. *)
Fixpoint countLoop (reads : list readOutcome) (count : Z) (firstChunk : bool)
  : option (Z * option error) :=
  match reads with
  | [] => None
  | (chunk, err) :: rest =>
      let hasBytes := (0 <? String.length chunk)%nat in
      if hasBytes && firstChunk && bytes_Contains chunk NUL then Some (0, None)
      else
        let firstChunk := if hasBytes then false else firstChunk in
        let count := if hasBytes then add64 count (strings_Count chunk LF) else count in
        match err with
        | Some io_EOF => Some (count, None)
        | Some e => Some (count, Some e)
        | None => countLoop rest count firstChunk
        end
  end.

(** The pieces of [n] bytes of a text, the last one shorter when the
    length is no multiple of [n]. *)
Fixpoint chunks (fuel n : nat) (l : list ascii) : list string :=
  match fuel with
  | O => []
  | S fuel =>
      match l with
      | [] => []
      | _ => of_bytes (take n l) :: chunks fuel n (drop n l)
      end
  end.

(** The calls of [file.Read] with a buffer of [n] bytes on a freshly
    opened file, up to the one that fails: a regular file gives its bytes
    in pieces of [n] and then the end of the file with no byte; a
    directory cannot be read. *)
Definition File_reads (f : File) (n : nat) : list readOutcome :=
  match f with
  | RegularFile data =>
      (map (fun chunk => (chunk, None)) (chunks (String.length data) n (to_bytes data))
       ++ [("", Some io_EOF)])%list
  | DirectoryFile => [("", Some os_PathError)]
  end.

Definition CountLines (sys : OS) (filePath : string) : option (Z * option error) :=
  match os_Open sys filePath with
  | Err e => Some (0, Some e)
  | Ok file => countLoop (File_reads file bufferSize) 0 true
  end.

(** The text that a sequence of reads delivers. *)
Definition delivered (reads : list readOutcome) : string :=
  foldr (fun r text => fst r +:+ text) "" reads.

(** The first read that delivers a byte, if any. *)
Definition firstBytes (reads : list readOutcome) : string :=
  match List.filter (fun r => (0 <? String.length (fst r))%nat) reads with
  | r :: _ => fst r
  | [] => ""
  end.

(** Reads that succeed, followed by one that reports [e]. *)
Definition readsEnding (chunks : list string) (last : string) (e : error)
  : list readOutcome :=
  (map (fun chunk => (chunk, None)) chunks ++ [(last, Some e)])%list.

(** What [CountLines] reports for the error [e] of the last read. *)
Definition reported (e : error) : option error :=
  match e with io_EOF => None | _ => Some e end.

(** A text of [n] bytes [c]. *)
Definition repeated (n : nat) (c : ascii) : string := of_bytes (replicate n c).

(** A file of 8192 letters, a NUL byte and a line. *)
Definition lateNulOS : OS :=
  tableOS [("/late.txt", repeated bufSize "a" +:+ String NUL ("b" +:+ nl))] [] [].

(** ** [filepath.Clean] and [filepath.Dir] on Unix *)

(** The elements of a path: the texts between its separators. *)
Fixpoint split_slash (l rcur : list ascii) : list string :=
  match l with
  | [] => [of_bytes (rev rcur)]
  | c :: rest =>
      if Ascii.eqb c slash then of_bytes (rev rcur) :: split_slash rest []
      else split_slash rest (c :: rcur)
  end.

(** One round of the loop of [Clean] on the element [e]; [out] holds the
    elements written so far, the last one first.  An empty element and a
    dot are dropped; two dots take back the last element written, and are
    written themselves when there is nothing to take back and the path is
    not rooted. *)
Definition clean_step (rooted : bool) (out : list string) (e : string) : list string :=
  if String.eqb e "" || String.eqb e "." then out
  else if String.eqb e ".." then
    match out with
    | top :: below =>
        if negb (String.eqb top "..") then below
        else if negb rooted then e :: out
        else out
    | [] => if negb rooted then [e] else out
    end
  else e :: out.

Definition filepath_Clean (path : string) : string :=
  if String.eqb path "" then "."
  else
    let rooted := strings_HasPrefix path "/" in
    let out := foldl (clean_step rooted) [] (split_slash (to_bytes path) []) in
    if rooted then "/" +:+ String.concat "/" (rev out)
    else
      match out with
      | [] => "."
      | _ => String.concat "/" (rev out)
      end.

(** The bytes of a reversed path from its last separator on. *)
Fixpoint from_last_slash (rpath : list ascii) : list ascii :=
  match rpath with
  | [] => []
  | c :: rest => if Ascii.eqb c slash then rpath else from_last_slash rest
  end.

(** [filepath.Dir]: the path up to its last separator, cleaned. *)
Definition filepath_Dir (path : string) : string :=
  filepath_Clean (of_bytes (rev (from_last_slash (rev (to_bytes path))))).

(** ** [ValidatePath] *)

(** The errors of [ValidatePath], by the check that raises them. *)
Inductive refusal :=
| FailedToResolve
| RootDirectory
| HomeDirectory
| SystemDirectory
| TooBroad.

Definition dangerousDirs : list string :=
  ["/usr"; "/etc"; "/var"; "/bin"; "/sbin"; "/boot"; "/sys"; "/proc"; "/dev";
   "/System"; "/Library"; "/Applications"; "/Volumes"; "/private"; "/opt";
   "/root"; "/tmp"; "/Windows"; "/Program Files"; "/Program Files (x86)"].

(** [ValidatePath]: [abs] is what [filepath.Abs(path)] gives and [home]
    what [os.UserHomeDir()] gives; [None] is [nil]. *)
Definition ValidatePath (abs home : result string) : option refusal :=
  match abs with
  | Err _ => Some FailedToResolve
  | Ok absPath =>
      let cleanPath := filepath_Clean absPath in
      if String.eqb cleanPath "/" then Some RootDirectory
      else
        let homeDir := match home with Ok h => h | Err _ => "" end in
        if match home with
           | Ok h => String.eqb cleanPath (filepath_Clean h)
           | Err _ => false
           end
        then Some HomeDirectory
        else if existsb (fun dangerousDir =>
                           String.eqb cleanPath (filepath_Clean dangerousDir))
                  dangerousDirs
        then Some SystemDirectory
        else
          let pathDepth := strings_Count cleanPath slash in
          if (pathDepth <=? 2) && negb (String.eqb cleanPath "/") then
            let parentDir := filepath_Dir cleanPath in
            if String.eqb parentDir "/"
               || (negb (String.eqb homeDir "")
                   && String.eqb parentDir (filepath_Dir homeDir))
            then Some TooBroad
            else None
          else None
  end.

(** The clean absolute path of the elements [es]. *)
Definition absOf (es : list string) : string := "/" +:+ String.concat "/" es.

(** An element of a clean path: a name that is not two dots. *)
Definition cleanName (n : string) : bool :=
  validName n && negb (String.eqb n "..").

Definition cleanNames (es : list string) : Prop :=
  Forall (fun n => cleanName n = true) es.

(** ** Package [analyzer]: the repository of a path *)

(** The errors of [findGitRoot]: the one of [filepath.Abs], or
    [os.ErrNotExist] at the root of the file system. *)
Inductive rootError :=
| AbsError (e : error)
| os_ErrNotExist.

Section Git.

(** [os.Stat] by the file mode it reports, and [git.PlainOpen] by its
    success: the file system and the library outside the repository. *)
Variable os_StatMode : string -> result FileMode.
Variable git_PlainOpen : string -> bool.

(** The test of the loop of [findGitRoot] at [currentPath]: [.git] is
    there, a directory or a regular file, and the library opens the
    repository. *)
Definition repositoryAt (currentPath : string) : bool :=
  let gitPath := filepath_Join currentPath ".git" in
  match os_StatMode gitPath with
  | Ok mode =>
      match mode with
      | ModeDir | ModeRegular => git_PlainOpen currentPath
      | _ => false
      end
  | Err _ => false
  end.

(** The loop of [findGitRoot]; the answer is [None] when the rounds that
    [fuel] allows reach neither a repository nor the root. *)
Fixpoint findLoop (fuel : nat) (currentPath : string) : option (string + rootError) :=
  match fuel with
  | O => None
  | S fuel =>
      if repositoryAt currentPath then Some (inl currentPath)
      else
        let parentPath := filepath_Dir currentPath in
        if String.eqb parentPath currentPath then Some (inr os_ErrNotExist)
        else findLoop fuel parentPath
  end.

(** [findGitRoot]: [abs] is what [filepath.Abs(startPath)] gives.  Every
    round but the last takes an element off the path, so the length of
    the path bounds the rounds. *)
Definition findGitRoot (abs : result string) : option (string + rootError) :=
  match abs with
  | Err e => Some (inr (AbsError e))
  | Ok absPath => findLoop (S (String.length absPath)) absPath
  end.

Definition IsGitRepo (abs : result string) : option bool :=
  match findGitRoot abs with
  | Some (inl _) => Some true
  | Some (inr _) => Some false
  | None => None
  end.

Definition GetRepoRoot (abs : result string) : option (string + rootError) :=
  findGitRoot abs.

End Git.

(** A file system with one repository, at [/home/alice/proj]. *)
Definition oneRepository (path : string) : result FileMode :=
  if String.eqb path "/home/alice/proj/.git" then Ok ModeDir else Err os_PathError.

(** ** [ShouldWarnLargeDirectory] *)

(** The common elements that two paths begin with, taken off both. *)
Fixpoint drop_common (b t : list string) : list string * list string :=
  match b, t with
  | x :: b', y :: t' => if String.eqb x y then drop_common b' t' else (b, t)
  | _, _ => (b, t)
  end.

(** The elements of a clean rooted path after the root. *)
Definition names_of (cleanRooted : string) : list string :=
  if String.eqb cleanRooted "/" then []
  else tail (split_slash (to_bytes cleanRooted) []).

(** [filepath.Rel(basepath, targpath)] for rooted paths: the inner [None]
    is the error of a pair of which one path is rooted and the other is
    not; the outer [None] stands for a pair of paths that are not rooted,
    which is left out here.  From a clean rooted base, a step up for each
    element of the base that the target does not share, then the
    elements of the target that the base does not share. *)
Definition rooted_Rel (basepath targpath : string) : option (option string) :=
  let base := filepath_Clean basepath in
  let targ := filepath_Clean targpath in
  if String.eqb targ base then Some (Some ".")
  else
    let baseSlashed := strings_HasPrefix base "/" in
    let targSlashed := strings_HasPrefix targ "/" in
    if negb (Bool.eqb baseSlashed targSlashed) then Some None
    else if negb baseSlashed then None
    else
      let '(b, t) := drop_common (names_of base) (names_of targ) in
      Some (Some (String.concat "/" (map (fun _ => "..") b ++ t))).

Definition largeDirectoryWarning (name : string) : string :=
  "Warning: Analyzing a top-level directory in your home folder (" +:+ name
  +:+ "). This may take a while.".

(** [ShouldWarnLargeDirectory]: [abs] is what [filepath.Abs(path)] gives
    and [home] what [os.UserHomeDir()] gives. *)
Definition ShouldWarnLargeDirectory (abs home : result string)
  : option (bool * string) :=
  match abs with
  | Err _ => Some (false, "")
  | Ok absPath =>
      match home with
      | Err _ => Some (false, "")
      | Ok homeDir =>
          if strings_HasPrefix absPath homeDir then
            match rooted_Rel homeDir absPath with
            | None => None
            | Some (Some relPath) =>
                if negb (bytes_Contains relPath slash)
                then Some (true, largeDirectoryWarning (filepath_Base absPath))
                else Some (false, "")
            | Some None => Some (false, "")
            end
          else Some (false, "")
      end
  end.

(** *** The entries of a tree *)

(** The walk of [d] can reach the entry [e] through the names [ns]: each
    name is that of an entry in the listing of a directory. *)
Inductive reaches : DirEntry -> list string -> DirEntry -> Prop :=
| reaches_self (d : DirEntry) : reaches d [] d
| reaches_step (d d1 : DirEntry) (ns : list string) (e : DirEntry) :
    IsDir d = true -> d1 ∈ listing d -> reaches d1 ns e ->
    reaches d (Name d1 :: ns) e.

(** A tree without symbolic link. *)
Fixpoint linkFree (d : DirEntry) : bool :=
  match d with
  | mkEntry _ _ dirs _ =>
      negb (IsSymlink d)
      && (fix all (ds : list DirEntry) : bool :=
            match ds with
            | [] => true
            | d1 :: rest => linkFree d1 && all rest
            end) dirs
  end.

(** The callback lets the walk into the directory of relative path
    [rel]: the depth limit does not cut it off and the filter accepts
    the probe. *)
Definition entered (filter : Filter) (maxDepth : Z) (rel : string) : bool :=
  negb ((0 <? maxDepth) && (maxDepth <? strings_Count rel slash + 1))
  && ShouldInclude filter (rel +:+ "/dummy.go").

(** No job lies deeper than [maxDepth] separators. *)
Definition withinDepth (maxDepth : Z) (st : walkState) : Prop :=
  Forall (fun j => strings_Count (relPath j) slash <= maxDepth) (fileJobs st).

(** *** The directories that every filter excludes *)

(** The names [n] of the built-in patterns [(^|/)n($|/)]. *)
Definition excludedNames : list string :=
  ["node_modules"; "venv"; ".venv"; "__pycache__"; ".git"; "dist"; "build";
   ".egg-info"; ".tox"; "coverage"; ".next"; "vendor"; "bin"; "tmp"; ".eggs";
   ".pytest_cache"; ".mypy_cache"; ".nyc_output"; ".yarn"; ".npm"; "cypress";
   "jest-cache"].

(** A name as a pattern writes it: a backslash before each dot. *)
Fixpoint escaped (l : list ascii) : list ascii :=
  match l with
  | [] => []
  | c :: rest => if Ascii.eqb c dot then "\"%char :: c :: escaped rest
                 else c :: escaped rest
  end.

Definition elementPattern (name : string) : string :=
  "(^|/)" +:+ of_bytes (escaped (to_bytes name)) +:+ "($|/)".

(** The bytes [l] one after the other, then [rest]. *)
Fixpoint literal (l : list ascii) (rest : re) : re :=
  match l with
  | [] => rest
  | c :: l' => Cat (Chr c) (literal l' rest)
  end.

(** The expression that [re_parse] reads from [elementPattern name]. *)
Definition elementRe (name : string) : re :=
  Cat (Alt (Cat Bol Eps) (Cat (Chr slash) Eps))
    (literal (to_bytes name) (Cat (Alt (Cat Eol Eps) (Cat (Chr slash) Eps)) Eps)).

(** [name] is a whole element of the path [before ++ name ++ after]. *)
Definition wholeElement (before after : string) : Prop :=
  (before = "" \/ lastByte before = Some slash)
  /\ (after = "" \/ firstByte after = Some slash).

(** A tree with a directory [node_modules] beside the file [a.js]. *)
Definition modulesTree : DirEntry :=
  directory "root" [regularFile "a.js"; directory "node_modules" [regularFile "x.js"]].

Definition modulesOS : OS :=
  tableOS [("/root/a.js", "let a" +:+ nl); ("/root/node_modules/x.js", "let x" +:+ nl)]
    [] ["/root"; "/root/node_modules"].

Definition modulesResult : CollectionResult :=
  {| Files := [{| RelPath := "a.js"; Content := "let a" +:+ nl; Size := 6;
                  Language := "javascript" |}];
     TotalSize := 6;
     FileCount := 1 |}.

(** * Theorems *)

(** ** Strings *)

Lemma string_app_cons x (a b : string) : String x a +:+ b = String x (a +:+ b).
Proof. reflexivity. Qed.

Lemma to_bytes_app a b : to_bytes (a +:+ b) = (to_bytes a ++ to_bytes b)%list.
Proof.
  unfold to_bytes. induction a as [|c a IH]; [done|].
  rewrite string_app_cons. cbn. by f_equal.
Qed.

Lemma of_to_bytes s : of_bytes (to_bytes s) = s.
Proof. apply string_of_list_ascii_of_string. Qed.

Lemma to_of_bytes l : to_bytes (of_bytes l) = l.
Proof. apply list_ascii_of_string_of_list_ascii. Qed.

Lemma string_app_assoc (a b c : string) : (a +:+ b) +:+ c = a +:+ (b +:+ c).
Proof. induction a as [|x a IH]; [done|]. rewrite !string_app_cons. by f_equal. Qed.

Lemma string_app_nil_r (a : string) : a +:+ "" = a.
Proof. induction a as [|x a IH]; [done|]. rewrite !string_app_cons. by f_equal. Qed.

Lemma drop_list_prefix_app pre l : drop_list_prefix pre (pre ++ l) = Some l.
Proof. induction pre as [|a pre IH]; simpl; [done|]. by rewrite Ascii.eqb_refl. Qed.

Lemma drop_list_prefix_Some pre l r : drop_list_prefix pre l = Some r -> l = (pre ++ r)%list.
Proof.
  revert l. induction pre as [|a pre IH]; intros [|b l]; simpl; try congruence.
  destruct (Ascii.eqb_spec a b); [|done]. intros H. subst. f_equal. by apply IH.
Qed.

Lemma HasSuffix_app s suf : strings_HasSuffix (s +:+ suf) suf = true.
Proof.
  unfold strings_HasSuffix. rewrite to_bytes_app, rev_app_distr, drop_list_prefix_app.
  by apply bool_decide_eq_true.
Qed.

Lemma fencedContent_ends content : strings_HasSuffix (fencedContent content) nl = true.
Proof.
  unfold fencedContent. destruct (strings_HasSuffix content nl) eqn:E; [done|].
  apply HasSuffix_app.
Qed.

Lemma formatFiles_app files : forall i len sb,
  len = i + Z.of_nat (length files) ->
  formatFiles files i len sb = sb +:+ renderSpec files.
Proof.
  induction files as [|f rest IH]; intros i len sb Hlen.
  - simpl. by rewrite string_app_nil_r.
  - cbn [formatFiles]. rewrite IH by (cbn [length] in Hlen; lia).
    unfold renderSpec. cbn [map String.concat].
    assert (Hblock :
      (if negb (strings_HasSuffix (Content f) nl)
       then ((sb +:+ "File: ./" +:+ RelPath f +:+ nl +:+ nl)
             +:+ "```" +:+ Language f +:+ nl) +:+ Content f +:+ nl
       else ((sb +:+ "File: ./" +:+ RelPath f +:+ nl +:+ nl)
             +:+ "```" +:+ Language f +:+ nl) +:+ Content f)
      +:+ "```" +:+ nl = sb +:+ fileBlock f).
    { unfold fileBlock, fencedContent.
      destruct (strings_HasSuffix (Content f) nl); cbn [negb];
        rewrite ?string_app_assoc; reflexivity. }
    destruct rest as [|g rest].
    + replace (i <? len - 1) with false by (cbn [length] in Hlen; symmetry; apply Z.ltb_ge; lia).
      cbn [map String.concat]. 
      rewrite string_app_nil_r. 
      rewrite <- Hblock. rewrite ?string_app_assoc. reflexivity.
    + replace (i <? len - 1) with true by (cbn [length] in Hlen; symmetry; apply Z.ltb_lt; lia).
      cbn [map]. 
      rewrite <- (string_app_assoc sb (fileBlock f)). rewrite <- Hblock.
      rewrite ?string_app_assoc. reflexivity.
Qed.

(** C2: [FormatAsMarkdown] writes, for each record in order, the header
    line [File: ./<RelPath>] and a blank line, the fence with the language
    tag, the content, the closing fence, and the separator between two
    records but not after the last.  The content before the closing fence
    always ends with a line feed: one is added exactly when the stored
    content has none, and nothing is added otherwise. *)
Theorem FormatAsMarkdown_layout (r : CollectionResult) :
  FormatAsMarkdown r = renderSpec (Files r)
  /\ renderSpec [] = ""
  /\ (forall f, renderSpec [f] = fileBlock f)
  /\ (forall f g rest,
        renderSpec (f :: g :: rest)
        = fileBlock f +:+ separator +:+ renderSpec (g :: rest))
  /\ (forall content,
        strings_HasSuffix (fencedContent content) nl = true
        /\ fencedContent content
           = content +:+ (if strings_HasSuffix content nl then "" else nl)).
Proof.
  split; [|split; [|split; [|split]]]; try reflexivity.
  - unfold FormatAsMarkdown. rewrite (formatFiles_app (Files r) 0 _ "") by lia.
    reflexivity.
  - intros content. split; [apply fencedContent_ends|].
    unfold fencedContent. destruct (strings_HasSuffix content nl); [|done].
    by rewrite string_app_nil_r.
Qed.

(** ** The filter *)

Lemma excluded_by_pattern_Exists res p :
  excluded_by_pattern res p = true <-> Exists (fun re => MatchString re p = true) res.
Proof.
  induction res as [|re rest IH]; simpl.
  - split; [done|]. by intros ?%Exists_nil.
  - rewrite Exists_cons. destruct (MatchString re p); [tauto|].
    rewrite IH. split; [tauto|]. by intros [?|?].
Qed.

Lemma ignored_by_glob_Exists globs p :
  ignored_by_glob globs p = true <-> Exists (fun g => Match g p = true) globs.
Proof.
  induction globs as [|g rest IH]; simpl.
  - split; [done|]. by intros ?%Exists_nil.
  - rewrite Exists_cons. destruct (Match g p); [tauto|].
    rewrite IH. split; [tauto|]. by intros [?|?].
Qed.

Lemma commonNoExtFiles_names filename :
  map_true commonNoExtFiles filename = bool_decide (filename ∈ conventionalNames).
Proof.
  unfold map_true, commonNoExtFiles.
  destruct (list_to_map _ !! filename) as [b|] eqn:E.
  - apply elem_of_list_to_map_2 in E.
    assert (b = true /\ filename ∈ conventionalNames) as [-> Hin].
    { unfold conventionalNames.
      repeat (apply elem_of_cons in E as [E|E];
              [injection E as -> ->; split; [done|set_solver]|]).
      by apply elem_of_nil in E. }
    symmetry. by apply bool_decide_eq_true.
  - apply not_elem_of_list_to_map in E. simpl in E.
    symmetry. apply bool_decide_eq_false. exact E.
Qed.

Lemma compile_all_fragment compile (Hc : regexp_on_fragment compile) patterns s :
  Forall (fun p => is_Some (re_parse p)) patterns ->
  excluded_by_pattern (compile_all compile patterns) s
  = excluded_by_pattern (compile_all fragment_Compile patterns) s.
Proof.
  induction 1 as [|p ps [r Hr] _ IH]; [done|].
  simpl. unfold fragment_Compile at 1. rewrite Hr.
  destruct (Hc p r Hr) as (R & -> & HR). simpl. by rewrite HR, IH.
Qed.

Lemma alwaysExclude_in_fragment :
  Forall (fun p => is_Some (re_parse p)) (alwaysExclude ++ testPatterns).
Proof.
  apply Forall_forall. intros p Hp.
  assert (H : forallb (fun p => bool_decide (re_parse p ≠ None))
                (alwaysExclude ++ testPatterns) = true) by (vm_compute; reflexivity).
  rewrite forallb_forall in H. specialize (H p).
  rewrite <- list_elem_of_In in H. specialize (H Hp).
  apply bool_decide_eq_true in H. by destruct (re_parse p).
Qed.

Lemma fragment_Compile_on_fragment : regexp_on_fragment fragment_Compile.
Proof.
  intros pattern r Hr. unfold fragment_Compile. rewrite Hr. by eexists.
Qed.

(** C4: [ShouldInclude] goes through its stages in order and the first
    that applies decides: an exclusion pattern that matches excludes; then
    an active ignore glob that matches excludes; then a path without
    extension is included exactly when its file name is one of the
    conventional names; then an extension outside the allow-set excludes;
    anything else is included.  With the default filter [Dockerfile] is
    included and [notes] is not. *)
Theorem ShouldInclude_stages (compile : string -> option Regexp)
    (Hc : regexp_on_fragment compile) :
  (forall (f : Filter) (path : string),
     let p := filepath_ToSlash path in
     (patternMatches f p -> ShouldInclude f path = false)
     /\ (~ patternMatches f p -> globIgnores f p -> ShouldInclude f path = false)
     /\ (~ patternMatches f p -> ~ globIgnores f p -> filepath_Ext p = "" ->
         ShouldInclude f path = bool_decide (filepath_Base p ∈ conventionalNames))
     /\ (~ patternMatches f p -> ~ globIgnores f p -> filepath_Ext p <> "" ->
         ~ inAllowSet f (filepath_Ext p) -> ShouldInclude f path = false)
     /\ (~ patternMatches f p -> ~ globIgnores f p -> filepath_Ext p <> "" ->
         inAllowSet f (filepath_Ext p) -> ShouldInclude f path = true))
  /\ (forall respect : bool,
        ShouldInclude (NewFilter compile [] [] respect false) "Dockerfile" = true
        /\ ShouldInclude (NewFilter compile [] [] respect false) "notes" = false).
Proof.
  split.
  - intros f path p. unfold ShouldInclude. fold p.
    unfold patternMatches, globIgnores, inAllowSet.
    rewrite <- excluded_by_pattern_Exists, <- ignored_by_glob_Exists.
    destruct (excluded_by_pattern (excludePatterns f) p) eqn:E1.
    { repeat split; intros; done. }
    assert (Hglob : (respectGitignore f = true /\ ignored_by_glob (gitignoreGlobs f) p = true)
                    <-> respectGitignore f && ignored_by_glob (gitignoreGlobs f) p = true).
    { by rewrite andb_true_iff. }
    rewrite Hglob. clear Hglob.
    destruct (respectGitignore f && ignored_by_glob (gitignoreGlobs f) p).
    { repeat split; intros; done. }
    rewrite commonNoExtFiles_names. unfold map_true.
    split; [done|]. split; [done|]. split; [|split].
    + intros _ _ Hext. by rewrite Hext.
    + intros _ _ Hext Hallow. apply String.eqb_neq in Hext. rewrite Hext.
      destruct (allowedExts f !! filepath_Ext p) as [[]|]; done.
    + intros _ _ Hext Hallow. apply String.eqb_neq in Hext. rewrite Hext.
      by rewrite Hallow.
  - intros respect.
    assert (Hall : Forall (fun p => is_Some (re_parse p)) (alwaysExclude ++ [])).
    { rewrite app_nil_r. pose proof alwaysExclude_in_fragment as H.
      by apply Forall_app in H as [H _]. }
    unfold ShouldInclude, NewFilter.
    cbn [excludePatterns gitignoreGlobs respectGitignore allowedExts ignored_by_glob].
    rewrite !(compile_all_fragment compile Hc _ _ Hall).
    rewrite andb_false_r. split; vm_compute; reflexivity.
Qed.

Lemma ShouldInclude_stages_witness :
  regexp_on_fragment fragment_Compile
  /\ ShouldInclude (NewFilter fragment_Compile [] [] true false) "Dockerfile" = true
  /\ ShouldInclude (NewFilter fragment_Compile [] [] true false) "notes" = false.
Proof.
  split; [exact fragment_Compile_on_fragment|].
  exact (proj2 (ShouldInclude_stages fragment_Compile fragment_Compile_on_fragment) true).
Defined.

(** ** The ignore file *)

Lemma super_slash_needs_slash ts s :
  glob_match slash (GSuper :: GText slash :: ts) s = true -> slash ∈ s.
Proof.
  cbn [glob_match]. induction s as [|a s IH].
  - done.
  - intros H. apply orb_true_iff in H as [H|H].
    + apply andb_true_iff in H as [H _]. apply Ascii.eqb_eq in H. subst. set_solver.
    + apply elem_of_cons. right. apply IH. exact H.
Qed.

Lemma Count_zero_no_slash path :
  strings_Count path slash = 0 -> slash ∉ to_bytes path.
Proof.
  assert (Hnn : forall s, 0 <= strings_Count s slash).
  { induction s as [|a s IH]; simpl; [lia|]. destruct (Ascii.eqb a slash); lia. }
  induction path as [|a s IH]; simpl.
  - intros _. apply not_elem_of_nil.
  - destruct (Ascii.eqb_spec a slash) as [->|Hne].
    + specialize (Hnn s). lia.
    + intros H. unfold to_bytes. simpl. apply not_elem_of_cons. split; [done|].
      apply IH. lia.
Qed.

(** A pattern that [LoadGitignore] prefixes with [**/] never matches a
    path of the top level (one without separator). *)
Lemma prefixed_glob_misses_top_level pattern g path :
  wildcard_Compile ("**/" +:+ pattern) slash = Some g ->
  strings_Count path slash = 0 ->
  Match g path = false.
Proof.
  unfold wildcard_Compile. intros Hg Hcount.
  change (to_bytes ("**/" +:+ pattern))
    with ("*"%char :: "*"%char :: slash :: to_bytes pattern) in Hg.
  cbn [glob_lex] in Hg.
  change (Ascii.eqb "*" "*") with true in Hg. cbn iota in Hg.
  change (Ascii.eqb slash "*") with false in Hg. cbn iota in Hg.
  change (existsb (Ascii.eqb slash) (to_bytes "\[{?")) with false in Hg. cbn iota in Hg.
  destruct (glob_lex (to_bytes pattern)) as [ts|]; [|done].
  cbn [option_map] in Hg. injection Hg as <-. cbn [Match].
  destruct (glob_match slash (GSuper :: GText slash :: ts) (to_bytes path)) eqn:E;
    [|done].
  apply super_slash_needs_slash in E. by apply Count_zero_no_slash in Hcount.
Qed.

(** C6, on an ignore file with the lines [notes.txt] and [docs/]: the two
    lines become the globs [**/notes.txt] and [**/docs/**]; beneath a
    directory they exclude, but [notes.txt] and [docs/a.md] at the top
    level stay included. *)
Theorem gitignore_misses_top_level :
  omap gitignore_pattern (bufio_ScanLines ignoreFile) = ["**/notes.txt"; "**/docs/**"]
  /\ ShouldInclude ignoringFilter "sub/notes.txt" = false
  /\ ShouldInclude ignoringFilter "sub/docs/a.md" = false
  /\ ShouldInclude ignoringFilter "notes.txt" = true
  /\ ShouldInclude ignoringFilter "docs/a.md" = true
  /\ ShouldInclude defaultFilter "sub/notes.txt" = true.
Proof. vm_compute. repeat split. Qed.

(** ** The depth limit *)

Lemma walkDir_pruned (sys : OS) (rootPath : string) (filter : Filter)
    (maxDepth : Z) (path : string) (d : DirEntry) (st : walkState) (rel : string) :
  IsDir d = true ->
  filepath_Rel rootPath path = Some rel ->
  rel <> "." ->
  0 < maxDepth ->
  maxDepth < strings_Count rel slash + 1 ->
  walkDir (walkFn sys rootPath filter maxDepth) path d st
  = (with_dirVisit st path, None).
Proof.
  intros Hdir Hrel Hne Hpos Hdepth.
  destruct d as [n t dirs rderr]. unfold IsDir in Hdir. cbn [Type_] in Hdir.
  destruct t; try done.
  cbn [walkDir]. unfold walkFn, visitEntry, IsSymlink, IsDir. cbn [Type_].
  rewrite Hrel. apply String.eqb_neq in Hne. rewrite Hne. cbn [negb].
  replace (0 <? maxDepth) with true by (symmetry; apply Z.ltb_lt; lia).
  replace (maxDepth <? strings_Count rel slash + 1) with true
    by (symmetry; apply Z.ltb_lt; lia).
  reflexivity.
Qed.

(** C5, counterexample: with [maxDepth = 1] the walk of [root/a.txt],
    [root/sub/b.txt] emits a job for [sub/b.txt] too. *)
Lemma maxDepth_one_enumerates_sub :
  enumerated idleOS "/root" defaultFilter 1 twoLevelTree = ["a.txt"; "sub/b.txt"]
  /\ enumerated idleOS "/root" defaultFilter 1 twoLevelTree <> ["a.txt"].
Proof. vm_compute. split; [reflexivity|discriminate]. Qed.

(** C5, amended: a directory whose depth (separators of its relative path
    plus one) exceeds a positive [maxDepth] is pruned with its whole
    subtree: its walk adds no job.  The directory [sub] has depth 1, so
    with [maxDepth = 1] the walk of [root/a.txt], [root/sub/b.txt] emits
    both files, and it is [root/sub/deep/c.txt] that is left out. *)
Theorem depth_limit_prunes :
  (forall sys rootPath filter maxDepth path d st rel,
     IsDir d = true ->
     filepath_Rel rootPath path = Some rel ->
     rel <> "." ->
     0 < maxDepth ->
     maxDepth < strings_Count rel slash + 1 ->
     fileJobs (fst (walkDir (walkFn sys rootPath filter maxDepth) path d st))
     = fileJobs st
     /\ snd (walkDir (walkFn sys rootPath filter maxDepth) path d st) = None)
  /\ enumerated idleOS "/root" defaultFilter 1 twoLevelTree = ["a.txt"; "sub/b.txt"]
  /\ enumerated idleOS "/root" defaultFilter 1 threeLevelTree = ["a.txt"; "sub/b.txt"]
  /\ enumerated idleOS "/root" defaultFilter 0 threeLevelTree
     = ["a.txt"; "sub/b.txt"; "sub/deep/c.txt"].
Proof.
  split.
  - intros. by rewrite (walkDir_pruned _ _ _ _ _ _ _ rel).
  - vm_compute. repeat split.
Qed.

Lemma depth_limit_prunes_witness :
  fileJobs (fst (walkDir (walkFn idleOS "/root" defaultFilter 1) "/root/sub/deep"
                   (directory "deep" [regularFile "c.txt"]) (initialWalk)))
  = [].
Proof.
  refine (proj1 (proj1 depth_limit_prunes idleOS "/root" defaultFilter 1
                   "/root/sub/deep" (directory "deep" [regularFile "c.txt"])
                   initialWalk "sub/deep" _ _ _ _ _)).
  - reflexivity.
  - vm_compute. reflexivity.
  - discriminate.
  - lia.
  - vm_compute. reflexivity.
Defined.

(** ** The order of paths *)

Lemma ltb_negb_leb (a b : string) : String.ltb a b = negb (String.leb b a).
Proof.
  unfold String.ltb, String.leb. rewrite (String.compare_antisym b a).
  by destruct (String.compare a b).
Qed.

Lemma ltb_le (a b : string) : String.ltb a b = true <-> ¬ String.le b a.
Proof.
  rewrite ltb_negb_leb. unfold String.le.
  destruct (String.leb b a); simpl.
  - split; [done|]. intros H. exfalso. apply H. exact I.
  - split; [|done]. intros _ H. exact H.
Qed.

Lemma ltb_irrefl (a : string) : String.ltb a a = false.
Proof.
  destruct (String.ltb a a) eqn:E; [|done].
  apply ltb_le in E. exfalso. by apply E.
Qed.

Lemma ltb_asym (a b : string) : String.ltb a b = true -> String.ltb b a = false.
Proof.
  intros H%ltb_le. destruct (String.ltb b a) eqn:E; [|done].
  apply ltb_le in E. destruct (total String.le a b); tauto.
Qed.

Lemma ltb_trans (a b c : string) :
  String.ltb a b = true -> String.ltb b c = true -> String.ltb a c = true.
Proof.
  rewrite !ltb_le. intros Hab Hbc Hca.
  destruct (total String.le a b) as [H1|H1]; [|done].
  apply Hbc. by etrans.
Qed.

Lemma ltb_total (a b : string) :
  a <> b -> String.ltb b a = false -> String.ltb a b = true.
Proof.
  intros Hne Hba. apply ltb_le. intros Hle.
  destruct (total String.le a b) as [H1|H1].
  - apply Hne. by apply (anti_symm String.le).
  - assert (String.ltb b a = true); [|congruence].
    apply ltb_le. intros H2. apply Hne. by apply (anti_symm String.le).
Qed.

(** ** [sort.Slice] *)

Lemma sort_insert_perm {A} (less : A -> A -> bool) x l :
  sort_insert less x l ≡ₚ x :: l.
Proof.
  induction l as [|y l IH]; simpl; [done|].
  destruct (less x y); [done|]. rewrite IH. apply Permutation_swap.
Qed.

Lemma sort_Slice_perm {A} (less : A -> A -> bool) l : sort_Slice less l ≡ₚ l.
Proof.
  induction l as [|x l IH]; simpl; [done|]. by rewrite sort_insert_perm, IH.
Qed.

(** On records of distinct paths the outcome is strictly ascending. *)
Lemma sort_insert_ascending x l :
  RelPath x ∉ map RelPath l ->
  strictlyAscending l ->
  strictlyAscending (sort_insert lessRelPath x l).
Proof.
  unfold strictlyAscending. intros Hx Hl. induction Hl as [|y l Hl IH Hy]; simpl.
  - repeat constructor.
  - simpl in Hx. apply not_elem_of_cons in Hx as [Hxy Hx].
    unfold lessRelPath at 1. destruct (String.ltb (RelPath x) (RelPath y)) eqn:E.
    + constructor; [by constructor|]. constructor; [done|].
      eapply Forall_impl; [exact Hy|]. intros z Hz. unfold pathBefore in *.
      by eapply ltb_trans.
    + constructor; [by apply IH|].
      rewrite sort_insert_perm. constructor; [|done].
      unfold pathBefore. by apply ltb_total.
Qed.

Lemma sort_Slice_ascending l :
  NoDup (map RelPath l) -> strictlyAscending (sort_Slice lessRelPath l).
Proof.
  induction l as [|x l IH]; simpl; intros Hnd.
  - constructor.
  - apply NoDup_cons in Hnd as [Hx Hnd]. apply sort_insert_ascending; [|by apply IH].
    by rewrite (sort_Slice_perm lessRelPath l).
Qed.

Lemma strictlyAscending_NoDup l : strictlyAscending l -> NoDup (map RelPath l).
Proof.
  induction 1 as [|x l Hl IH Hx]; simpl; constructor; [|done].
  intros Hin. apply list_elem_of_fmap in Hin as (y & Heq & Hy).
  rewrite Forall_forall in Hx. specialize (Hx y Hy). unfold pathBefore in Hx.
  rewrite Heq, ltb_irrefl in Hx. done.
Qed.

Lemma strictlyAscending_unique l1 l2 :
  strictlyAscending l1 -> strictlyAscending l2 -> l1 ≡ₚ l2 -> l1 = l2.
Proof.
  apply StronglySorted_unique_strong. unfold pathBefore.
  intros x y _ _ H1 H2. apply ltb_asym in H1. congruence.
Qed.

(** ** The worker pool *)

Section PoolFacts.

Variable sys : OS.
Variable maxFileSizeMB : float.
Variable jobs : list fileJob.

Lemma initialPool_inv : poolInv sys maxFileSizeMB jobs (initialPool (length jobs)) [].
Proof.
  split; simpl; try done.
  - constructor.
  - intros i Hi. by apply elem_of_nil in Hi.
  - by rewrite length_replicate.
  - intros _ i Hi. apply lookup_replicate in Hi as [? _]. done.
Qed.

Lemma step_inv p finished ev :
  poolInv sys maxFileSizeMB jobs p finished ->
  exists finished',
    poolInv sys maxFileSizeMB jobs (step sys maxFileSizeMB jobs p ev) finished'.
Proof.
  intros Hp. pose proof Hp as [Hnd Hret Hchan Hlen Hall Herr Hctx].
  destruct ev as [deadline|i|i]; simpl.
  - destruct (ctxErr p) as [e|] eqn:Ectx.
    + by exists finished.
    + exists finished. split; simpl; try done.
      * intros e He. specialize (Herr e He). congruence.
      * intros e [= <-]. destruct deadline; auto.
  - destruct (workers p !! i) as [[| |]|] eqn:Ei;
      try (by exists finished).
    destruct (egCtx_Done p) eqn:Edone.
    + exists finished. split; simpl; try done.
      * intros j Hj. destruct (decide (i = j)) as [->|Hne].
        -- apply list_lookup_insert_eq. by eapply lookup_lt_Some.
        -- rewrite list_lookup_insert_ne by done. by apply Hret.
      * by rewrite length_insert.
      * by destruct (groupErr p).
      * intros e He. destruct (groupErr p) as [e'|] eqn:Eg.
        -- apply Herr. congruence.
        -- unfold egCtx_Done in Edone. rewrite Eg in Edone.
           unfold egCtx_Err in He. destruct (ctxErr p); [congruence|].
           exfalso. apply orb_true_iff in Edone as [H|H];
             apply bool_decide_eq_true in H; by apply H.
    + exists finished. split; simpl; try done.
      * intros j Hj. destruct (decide (i = j)) as [->|Hne].
        -- specialize (Hret j Hj). congruence.
        -- rewrite list_lookup_insert_ne by done. by apply Hret.
      * by rewrite length_insert.
      * intros Hg j Hj. destruct (decide (i = j)) as [->|Hne].
        -- rewrite list_lookup_insert_eq in Hj by (by eapply lookup_lt_Some). done.
        -- rewrite list_lookup_insert_ne in Hj by done. by apply Hall.
  - destruct (workers p !! i) as [[| |]|] eqn:Ei;
      try (by exists finished).
    destruct (jobs !! i) as [job|] eqn:Ej; [|by exists finished].
    assert (Hfresh : i ∉ finished).
    { intros Hi. specialize (Hret i Hi). congruence. }
    exists (finished ++ [i])%list. split; simpl.
    + apply NoDup_app. split; [done|]. split.
      * intros j Hj ->%list_elem_of_singleton. done.
      * apply NoDup_singleton.
    + intros j Hj. destruct (decide (i = j)) as [->|Hne].
      * apply list_lookup_insert_eq. by eapply lookup_lt_Some.
      * rewrite list_lookup_insert_ne by done. apply Hret.
        apply elem_of_app in Hj as [Hj|Hj]; [done|].
        apply list_elem_of_singleton in Hj. congruence.
    + rewrite bind_app. simpl. rewrite Ej, app_nil_r. simpl.
      unfold sent. rewrite Hchan.
      destruct (processJob sys maxFileSizeMB job); [done|by rewrite app_nil_r].
    + by rewrite length_insert.
    + intros Hg j Hj. destruct (decide (i = j)) as [->|Hne].
      * set_solver.
      * rewrite list_lookup_insert_ne in Hj by done. set_solver.
    + done.
    + done.
Qed.

Lemma foldl_step_inv sched : forall p finished,
  poolInv sys maxFileSizeMB jobs p finished ->
  exists finished',
    poolInv sys maxFileSizeMB jobs (foldl (step sys maxFileSizeMB jobs) p sched)
      finished'.
Proof.
  induction sched as [|ev sched IH]; intros p finished Hp; simpl.
  - by exists finished.
  - destruct (step_inv p finished ev Hp) as [finished' Hp']. by eapply IH.
Qed.

Lemma run_inv sched :
  exists finished,
    poolInv sys maxFileSizeMB jobs (run sys maxFileSizeMB jobs sched) finished.
Proof. eapply foldl_step_inv, initialPool_inv. Qed.

Lemma allReturned_lookup p i :
  allReturned p = true -> (i < length (workers p))%nat ->
  workers p !! i = Some Returned.
Proof.
  unfold allReturned. rewrite forallb_forall. intros Hall Hi.
  destruct (lookup_lt_is_Some_2 _ _ Hi) as [g Hg].
  specialize (Hall g). rewrite <- list_elem_of_In in Hall.
  rewrite Hg. f_equal.
  assert (Hin : g ∈ workers p) by (by eapply list_elem_of_lookup_2).
  specialize (Hall Hin). by destruct g.
Qed.

Lemma bind_seq_lookup {B} (f : fileJob -> list B) (l pre : list fileJob) :
  seq (length pre) (length l) ≫= (fun i => from_option f [] ((pre ++ l) !! i))
  = l ≫= f.
Proof.
  revert pre. induction l as [|x l IH]; intros pre; [done|].
  simpl. rewrite list_lookup_middle by done. simpl. f_equal.
  specialize (IH (pre ++ [x])%list).
  rewrite length_app, <- app_assoc in IH. simpl in IH.
  rewrite Nat.add_1_r in IH. exact IH.
Qed.

(** When every goroutine ran its body, the channel holds what the jobs
    send, in some order. *)
Lemma finished_all p finished :
  poolInv sys maxFileSizeMB jobs p finished -> allReturned p = true -> groupErr p = None ->
  resultsChan p ≡ₚ jobs ≫= sent sys maxFileSizeMB.
Proof.
  intros [Hnd Hret Hchan Hlen Hall Herr Hctx] Hdone Hg.
  assert (Hperm : finished ≡ₚ seq 0 (length jobs)).
  { apply NoDup_Permutation; [done|apply NoDup_seq|].
    intros i. rewrite elem_of_seq. split.
    - intros Hi%Hret%lookup_lt_Some. lia.
    - intros [_ Hi]. apply Hall; [done|]. apply allReturned_lookup; [done|lia]. }
  rewrite Hchan, Hperm. by rewrite <- (bind_seq_lookup _ jobs []).
Qed.




End PoolFacts.

(** ** Aggregation *)

Lemma add64_wrap64 (a b : Z) : add64 (wrap64 a) b = wrap64 (a + b).
Proof.
  unfold add64, wrap64. f_equal.
  replace ((a + 2 ^ 63) mod 2 ^ 64 - 2 ^ 63 + b + 2 ^ 63)
    with ((a + 2 ^ 63) mod 2 ^ 64 + b) by lia.
  rewrite Zplus_mod_idemp_l. f_equal. lia.
Qed.

Lemma wrap64_small (z : Z) : - 2 ^ 63 <= z < 2 ^ 63 -> wrap64 z = z.
Proof. intros H. unfold wrap64. rewrite Z.mod_small; lia. Qed.

Lemma okData_app ch1 ch2 : okData (ch1 ++ ch2) = (okData ch1 ++ okData ch2)%list.
Proof. unfold okData. apply omap_app. Qed.

Lemma sumSizes_app l1 l2 : sumSizes (l1 ++ l2) = sumSizes l1 + sumSizes l2.
Proof. unfold sumSizes. induction l1 as [|f l1 IH]; simpl; lia. Qed.

Lemma sumSizes_perm l1 l2 : l1 ≡ₚ l2 -> sumSizes l1 = sumSizes l2.
Proof. unfold sumSizes. induction 1; simpl; lia. Qed.

Lemma drain_spec ch : forall files t,
  drain ch files (wrap64 t)
  = ((files ++ okData ch)%list, wrap64 (t + sumSizes (okData ch))).
Proof.
  induction ch as [|res ch IH]; intros files t; simpl.
  - by rewrite app_nil_r, Z.add_0_r.
  - unfold okData. simpl. destruct (res_err res); simpl.
    + apply IH.
    + rewrite add64_wrap64, IH. unfold okData. rewrite <- app_assoc. simpl.
      do 2 f_equal. lia.
Qed.

(** ** What a worker sends *)

Lemma processJob_data sys maxFileSizeMB job res :
  processJob sys maxFileSizeMB job = Some res ->
  res_err res = None ->
  exists f buf rerr info content,
    os_Open sys (fullPath job) = Ok f
    /\ File_Read f bufSize = (buf, rerr)
    /\ (rerr = None \/ String.length buf <> 0%nat)
    /\ bytes_Contains buf NUL = false
    /\ os_Stat sys (fullPath job) = Ok info
    /\ tooLarge maxFileSizeMB (info_Size info) = false
    /\ os_ReadFile sys (fullPath job) = Ok content
    /\ res_data res
       = {| RelPath := relPath job; Content := content;
            Size := info_Size info; Language := getLanguage (relPath job) |}.
Proof.
  unfold processJob, isBinaryFile. intros Hres Herr.
  destruct (os_Open sys (fullPath job)) as [f|e] eqn:Eopen; [|done].
  destruct (File_Read f bufSize) as [buf rerr] eqn:Eread.
  destruct (bool_decide (rerr ≠ None) && (String.length buf =? 0)%nat) eqn:Eeof.
  { destruct rerr; [done|]. by rewrite bool_decide_eq_false_2 in Eeof by tauto. }
  simpl in Hres. destruct (bytes_Contains buf NUL) eqn:Enul; [done|].
  destruct (os_Stat sys (fullPath job)) as [info|e] eqn:Estat.
  2:{ injection Hres as <-. done. }
  destruct (tooLarge maxFileSizeMB (info_Size info)) eqn:Elarge; [done|].
  destruct (os_ReadFile sys (fullPath job)) as [content|e] eqn:Eread2.
  2:{ injection Hres as <-. done. }
  injection Hres as <-. exists f, buf, rerr, info, content.
  repeat split; try done.
  apply andb_false_iff in Eeof as [H|H].
  - left. apply bool_decide_eq_false in H. destruct rerr; [|done]. by destruct H.
  - right. by apply Nat.eqb_neq in H.
Qed.

Lemma okData_sent sys maxFileSizeMB job f :
  f ∈ okData (sent sys maxFileSizeMB job) ->
  processJob sys maxFileSizeMB job = Some {| res_data := f; res_err := None |}.
Proof.
  unfold sent. destruct (processJob sys maxFileSizeMB job) as [[d e]|]; simpl.
  - unfold okData. simpl. destruct e; simpl.
    + by intros ?%elem_of_nil.
    + by intros ->%list_elem_of_singleton.
  - by intros ?%elem_of_nil.
Qed.

Lemma produced_cons sys maxFileSizeMB job jobs :
  produced sys maxFileSizeMB (job :: jobs)
  = (okData (sent sys maxFileSizeMB job) ++ produced sys maxFileSizeMB jobs)%list.
Proof. unfold produced. simpl. apply okData_app. Qed.

Lemma produced_from sys maxFileSizeMB jobs f :
  f ∈ produced sys maxFileSizeMB jobs ->
  exists job, job ∈ jobs
    /\ processJob sys maxFileSizeMB job = Some {| res_data := f; res_err := None |}.
Proof.
  induction jobs as [|job jobs IH].
  - by intros ?%elem_of_nil.
  - rewrite produced_cons. intros [Hf|Hf]%elem_of_app.
    + exists job. split; [left|]. by apply okData_sent.
    + destruct (IH Hf) as (job' & Hin & Hjob). exists job'. split; [by right|done].
Qed.

Lemma produced_RelPath sys maxFileSizeMB job f :
  processJob sys maxFileSizeMB job = Some {| res_data := f; res_err := None |} ->
  RelPath f = relPath job.
Proof.
  intros H. destruct (processJob_data _ _ _ _ H eq_refl)
    as (? & ? & ? & ? & ? & _ & _ & _ & _ & _ & _ & _ & Hd).
  simpl in Hd. by rewrite Hd.
Qed.

Lemma produced_sublist sys maxFileSizeMB jobs :
  map RelPath (produced sys maxFileSizeMB jobs) `sublist_of` map relPath jobs.
Proof.
  induction jobs as [|job jobs IH]; [done|].
  rewrite produced_cons, map_app. simpl.
  pose proof (okData_sent sys maxFileSizeMB job) as Hs.
  destruct (okData (sent sys maxFileSizeMB job)) as [|f [|g rest]] eqn:E.
  - simpl. by apply sublist_cons.
  - simpl. rewrite (produced_RelPath sys maxFileSizeMB job f) by (apply Hs; set_solver).
    by apply sublist_skip.
  - exfalso. unfold sent in E.
    destruct (processJob sys maxFileSizeMB job) as [[d [e|]]|]; done.
Qed.

Lemma produced_NoDup sys maxFileSizeMB jobs :
  NoDup (map relPath jobs) -> NoDup (map RelPath (produced sys maxFileSizeMB jobs)).
Proof. intros H. eapply sublist_NoDup; [exact H|apply produced_sublist]. Qed.

(** ** The second part of [Collect] *)

Lemma gather_Ok sys sched maxFileSizeMB jobs r :
  gather sys sched maxFileSizeMB jobs = Some (Ok r) ->
  exists ch,
    ch ≡ₚ jobs ≫= sent sys maxFileSizeMB
    /\ Files r = sort_Slice lessRelPath (okData ch)
    /\ TotalSize r = wrap64 (sumSizes (okData ch))
    /\ FileCount r = Z.of_nat (length (Files r)).
Proof.
  unfold gather. intros H.
  destruct (allReturned (run sys maxFileSizeMB jobs sched)) eqn:Hdone; [|done].
  change 0 with (wrap64 0) in H. rewrite drain_spec in H.
  destruct (groupErr (run sys maxFileSizeMB jobs sched)) eqn:Hg; [done|].
  injection H as <-. simpl.
  destruct (run_inv sys maxFileSizeMB jobs sched) as [finished Hinv].
  exists (resultsChan (run sys maxFileSizeMB jobs sched)).
  split; [by eapply finished_all|]. done.
Qed.

Lemma gather_Files sys sched maxFileSizeMB jobs r :
  gather sys sched maxFileSizeMB jobs = Some (Ok r) ->
  Files r ≡ₚ produced sys maxFileSizeMB jobs.
Proof.
  intros (ch & Hch & -> & _)%gather_Ok. rewrite sort_Slice_perm.
  unfold produced, okData. by apply omap_Permutation.
Qed.


Lemma enumerate_no_error sys rootPath filter maxDepth lstat :
  snd (enumerate sys rootPath filter maxDepth lstat) = None.
Proof.
  unfold enumerate, filepath_WalkDir.
  destruct lstat as [d|e].
  - destruct (walkDir _ _ _ _) as [st [[]|]]; done.
  - destruct (walkFn _ _ _ _ _ _ _ _) as [st [[]|]]; done.
Qed.

Lemma Collect_gather sys sched rootPath lstat filter maxDepth maxFileSizeMB :
  Collect sys sched rootPath lstat filter maxDepth maxFileSizeMB
  = gather sys sched maxFileSizeMB
      (fileJobs (fst (enumerate sys rootPath filter maxDepth lstat))).
Proof.
  unfold Collect. pose proof (enumerate_no_error sys rootPath filter maxDepth lstat) as H.
  destruct (enumerate sys rootPath filter maxDepth lstat) as [walked err].
  simpl in H. by subst.
Qed.

(** ** Paths *)

Lemma to_bytes_inj a b : to_bytes a = to_bytes b -> a = b.
Proof. intros H. by rewrite <- (of_to_bytes a), <- (of_to_bytes b), H. Qed.

Lemma string_app_inv_head (a b c : string) : a +:+ b = a +:+ c -> b = c.
Proof. apply (inj (String.app a)). Qed.

Lemma validName_spec name :
  validName name = true ->
  name <> "" /\ name <> "." /\ slash ∉ to_bytes name.
Proof.
  unfold validName. rewrite !andb_true_iff, !negb_true_iff.
  intros [[H1 H2] H3]. apply String.eqb_neq in H1, H2. repeat split; try done.
  intros Hin. apply list_elem_of_In in Hin.
  assert (existsb (Ascii.eqb slash) (to_bytes name) = true); [|congruence].
  apply existsb_exists. exists slash. split; [done|apply Ascii.eqb_refl].
Qed.

(** Two texts that begin with a name and go on with a separator or end. *)
Lemma name_prefix_eq (a b ra rb : list ascii) :
  slash ∉ a -> slash ∉ b ->
  (ra = [] \/ exists r, ra = slash :: r) ->
  (rb = [] \/ exists r, rb = slash :: r) ->
  (a ++ ra = b ++ rb)%list -> a = b /\ ra = rb.
Proof.
  revert b. induction a as [|x a IH]; intros [|y b] Ha Hb Hra Hrb Heq; simpl in *.
  - done.
  - exfalso. destruct Hra as [->|[r ->]]; [done|].
    apply Hb. injection Heq as Hy _. rewrite <- Hy. left.
  - exfalso. destruct Hrb as [->|[r ->]]; [done|].
    apply Ha. injection Heq as Hx _. rewrite Hx. left.
  - injection Heq as -> Heq.
    apply not_elem_of_cons in Ha as [_ Ha]. apply not_elem_of_cons in Hb as [_ Hb].
    destruct (IH b Ha Hb Hra Hrb Heq) as [-> ->]. done.
Qed.

Lemma concat_cons2 (sep n m : string) (ns : list string) :
  String.concat sep (n :: m :: ns) = n +:+ sep +:+ String.concat sep (m :: ns).
Proof. reflexivity. Qed.

Lemma concat_first_byte n ns :
  validName n = true ->
  exists c rest, to_bytes (String.concat "/" (n :: ns)) = c :: rest /\ c <> slash.
Proof.
  intros (Hne & _ & Hslash)%validName_spec.
  destruct n as [|c n]; [done|]. exists c.
  destruct ns as [|m ns].
  - exists (to_bytes n). split; [done|]. intros ->. apply Hslash. left.
  - rewrite concat_cons2. rewrite string_app_cons.
    eexists. split; [reflexivity|]. intros ->. apply Hslash. left.
Qed.

Lemma concat_names_inj (ns ms : list string) :
  Forall (fun n => validName n = true) ns ->
  Forall (fun n => validName n = true) ms ->
  ns <> [] -> ms <> [] ->
  String.concat "/" ns = String.concat "/" ms -> ns = ms.
Proof.
  intros Hns. revert ms. induction Hns as [|n ns Hn Hns IH]; intros ms Hms Hne1 Hne2 Heq.
  { done. }
  destruct Hms as [|m ms Hm Hms]; [done|].
  pose proof (validName_spec _ Hn) as (_ & _ & Hsn).
  pose proof (validName_spec _ Hm) as (_ & _ & Hsm).
  assert (Hb : exists ra rb,
    to_bytes (String.concat "/" (n :: ns)) = (to_bytes n ++ ra)%list
    /\ to_bytes (String.concat "/" (m :: ms)) = (to_bytes m ++ rb)%list
    /\ (ra = [] \/ exists r, ra = slash :: r)
    /\ (rb = [] \/ exists r, rb = slash :: r)
    /\ (ra = [] <-> ns = [])
    /\ (rb = [] <-> ms = [])
    /\ (forall r, ra = slash :: r -> r = to_bytes (String.concat "/" ns))
    /\ (forall r, rb = slash :: r -> r = to_bytes (String.concat "/" ms))).
  { exists (match ns with [] => [] | _ => slash :: to_bytes (String.concat "/" ns) end),
           (match ms with [] => [] | _ => slash :: to_bytes (String.concat "/" ms) end).
    destruct ns as [|n' ns], ms as [|m' ms]; rewrite ?concat_cons2, ?to_bytes_app;
      simpl; rewrite ?app_nil_r;
      repeat split; try done; eauto; try (by intros ? [= <-]). }
  destruct Hb as (ra & rb & E1 & E2 & Hra & Hrb & Hra0 & Hrb0 & Hra1 & Hrb1).
  assert (Hbytes : (to_bytes n ++ ra = to_bytes m ++ rb)%list) by (by rewrite <- E1, <- E2, Heq).
  destruct (name_prefix_eq _ _ _ _ Hsn Hsm Hra Hrb Hbytes) as [Hnm Hr].
  apply to_bytes_inj in Hnm. subst m. f_equal.
  destruct Hra as [->|[r ->]].
  - assert (ns = []) by (by apply Hra0). symmetry in Hr.
    assert (ms = []) by (by apply Hrb0). by subst.
  - assert (ns <> []) by (intros Hnil; apply Hra0 in Hnil; done).
    assert (ms <> []) by (intros Hnil; apply Hrb0 in Hnil; congruence).
    apply IH; try done. apply to_bytes_inj.
    rewrite <- (Hra1 r eq_refl). apply Hrb1. by rewrite <- Hr.
Qed.

Lemma relOf_inj (ns ms : list string) :
  Forall (fun n => validName n = true) ns ->
  Forall (fun n => validName n = true) ms ->
  relOf ns = relOf ms -> ns = ms.
Proof.
  intros Hns Hms. unfold relOf.
  assert (Hdot : forall l, Forall (fun n => validName n = true) l -> l <> [] ->
                           String.concat "/" l <> ".").
  { intros [|n [|m l]] Hl Hne; [done| |].
    - simpl. apply Forall_cons in Hl as [Hn _].
      by apply validName_spec in Hn as (_ & ? & _).
    - rewrite concat_cons2. apply Forall_cons in Hl as [Hn _].
      apply validName_spec in Hn as (Hn & _ & _).
      destruct n as [|c n]; [done|]. rewrite string_app_cons.
      intros [= _ H]. destruct n; done. }
  destruct ns as [|n ns], ms as [|m ms]; try done.
  - intros H. symmetry in H. by apply Hdot in H.
  - intros H. by apply Hdot in H.
  - by apply concat_names_inj.
Qed.

Lemma to_bytes_nil s : to_bytes s = [] -> s = "".
Proof. by destruct s. Qed.

Lemma lastByte_app a b : b <> "" -> lastByte (a +:+ b) = lastByte b.
Proof.
  intros Hb. unfold lastByte. rewrite to_bytes_app, rev_app_distr.
  destruct (rev (to_bytes b)) as [|x l] eqn:E; [|done].
  exfalso. apply Hb, to_bytes_nil.
  by rewrite <- (rev_involutive (to_bytes b)), E.
Qed.

Lemma firstByte_app a b : a <> "" -> firstByte (a +:+ b) = firstByte a.
Proof. intros Ha. destruct a; done. Qed.

Lemma app_not_empty_r a b : b <> "" -> a +:+ b <> "".
Proof. destruct a, b; done. Qed.

Lemma app_not_empty_l a b : a <> "" -> a +:+ b <> "".
Proof. destruct a; done. Qed.

Lemma app_not_dot a b : a <> "" -> b <> "" -> a +:+ b <> ".".
Proof.
  destruct a as [|x a]; [done|]. intros _ Hb. rewrite string_app_cons.
  intros [= _ H]. destruct a; [|done]. by simpl in H.
Qed.

Lemma ends_with_slash_lastByte p :
  ends_with_slash p = true <-> lastByte p = Some slash.
Proof.
  unfold ends_with_slash, strings_HasSuffix, lastByte.
  change (rev (to_bytes "/")) with [slash].
  destruct (rev (to_bytes p)) as [|x l]; cbn [drop_list_prefix head].
  - split; intros H; [by apply bool_decide_eq_true in H|done].
  - destruct (Ascii.eqb slash x) eqn:E.
    + apply Ascii.eqb_eq in E as <-. split; [done|]. intros _.
      by apply bool_decide_eq_true.
    + apply Ascii.eqb_neq in E.
      split; [intros H; by apply bool_decide_eq_true in H|congruence].
Qed.

Lemma validName_relShaped n : validName n = true -> relShaped n.
Proof.
  intros (H1 & H2 & H3)%validName_spec. repeat split; try done.
  - unfold firstByte. destruct (to_bytes n) as [|x l] eqn:E; [done|].
    intros [= ->]. apply H3. left.
  - unfold lastByte. destruct (rev (to_bytes n)) as [|x l] eqn:E; [done|].
    intros [= ->]. apply H3. apply list_elem_of_In, in_rev. rewrite E. by left.
Qed.

Lemma relShaped_snoc c n :
  relShaped c -> validName n = true -> relShaped (c +:+ "/" +:+ n).
Proof.
  intros (H1 & H2 & H3 & H4) Hn. pose proof (validName_relShaped n Hn) as (N1 & N2 & N3 & N4).
  repeat split.
  - by apply app_not_empty_l.
  - by apply app_not_dot.
  - by rewrite firstByte_app.
  - rewrite <- string_app_assoc. by rewrite lastByte_app.
Qed.

Lemma concat_snoc (ns : list string) (n : string) :
  ns <> [] ->
  String.concat "/" (ns ++ [n]) = String.concat "/" ns +:+ "/" +:+ n.
Proof.
  induction ns as [|m [|m' l] IH]; intros Hne; [done|done|].
  change ((m :: m' :: l) ++ [n])%list with (m :: ((m' :: l) ++ [n]))%list.
  change ((m' :: l) ++ [n])%list with (m' :: (l ++ [n]))%list at 1.
  rewrite concat_cons2.
  change (m' :: (l ++ [n]))%list with ((m' :: l) ++ [n])%list.
  rewrite IH by done. rewrite concat_cons2. by rewrite !string_app_assoc.
Qed.

Lemma concat_relShaped (ns : list string) :
  Forall (fun n => validName n = true) ns -> ns <> [] ->
  relShaped (String.concat "/" ns).
Proof.
  induction ns as [|n ns IH] using rev_ind; [done|].
  intros [Hns Hn]%Forall_app _. rewrite Forall_singleton in Hn.
  destruct ns as [|m l].
  - change (String.concat "/" ([] ++ [n])) with n. by apply validName_relShaped.
  - rewrite concat_snoc by done. apply relShaped_snoc; [|done]. by apply IH.
Qed.

Lemma Join_relShaped root c n :
  relShaped c ->
  filepath_Join (prefixOf root +:+ c) n = prefixOf root +:+ (c +:+ "/" +:+ n).
Proof.
  intros (H1 & H2 & H3 & H4). unfold filepath_Join.
  assert (Hne : prefixOf root +:+ c <> "") by (by apply app_not_empty_r).
  assert (Hnd : prefixOf root +:+ c <> ".").
  { destruct (prefixOf root) eqn:E; [done|]. rewrite <- E. apply app_not_dot; [|done].
    by rewrite E. }
  apply String.eqb_neq in Hne, Hnd. rewrite Hne, Hnd. simpl.
  destruct (ends_with_slash (prefixOf root +:+ c)) eqn:E.
  - apply ends_with_slash_lastByte in E. by rewrite lastByte_app in E.
  - by rewrite string_app_assoc.
Qed.

Lemma Join_root root n :
  filepath_Join root n = prefixOf root +:+ n.
Proof.
  unfold filepath_Join, prefixOf.
  destruct (String.eqb root "" || String.eqb root "."); [done|].
  destruct (ends_with_slash root); [done|]. by rewrite string_app_assoc.
Qed.

Lemma pathOf_snoc root ns n :
  pathOf root (ns ++ [n]) = filepath_Join (pathOf root ns) n.
Proof. unfold pathOf. by rewrite foldl_snoc. Qed.

(** The path of an entry beneath the root. *)
Lemma pathOf_names root (ns : list string) :
  Forall (fun n => validName n = true) ns -> ns <> [] ->
  pathOf root ns = prefixOf root +:+ String.concat "/" ns.
Proof.
  induction ns as [|n ns IH] using rev_ind; [done|].
  intros [Hns Hn]%Forall_app _. rewrite Forall_singleton in Hn.
  rewrite pathOf_snoc. destruct ns as [|m l].
  - change (String.concat "/" ([] ++ [n])) with n. apply Join_root.
  - rewrite IH by done. rewrite concat_snoc by done.
    apply Join_relShaped. by apply concat_relShaped.
Qed.

Lemma strip_prefix_app pre s : strip_prefix pre (pre +:+ s) = Some s.
Proof.
  unfold strip_prefix. by rewrite to_bytes_app, drop_list_prefix_app; simpl; rewrite of_to_bytes.
Qed.

Lemma string_app_neq_self (a b : string) : b <> "" -> a +:+ b <> a.
Proof.
  intros Hb H. apply Hb, to_bytes_nil.
  apply (f_equal to_bytes) in H. rewrite to_bytes_app in H.
  apply (app_inv_head (to_bytes a)). by rewrite app_nil_r.
Qed.

(** [filepath.Rel] gives back the relative path of an entry beneath the root. *)
Lemma Rel_prefixOf root c :
  relShaped c -> filepath_Rel root (prefixOf root +:+ c) = Some c.
Proof.
  intros (H1 & H2 & H3 & H4). unfold filepath_Rel, prefixOf.
  destruct (String.eqb root "" || String.eqb root ".") eqn:E.
  - change ("" +:+ c) with c.
    apply orb_true_iff in E as [E|E]; apply String.eqb_eq in E; subst root.
    + by rewrite (proj2 (String.eqb_neq c "") H1).
    + by rewrite (proj2 (String.eqb_neq c ".") H2).
  - assert (Hstrip : strip_prefix "/" c = None).
    { unfold strip_prefix. change (to_bytes "/") with [slash]. unfold firstByte in H3.
      destruct (to_bytes c) as [|x l]; [done|]. cbn [drop_list_prefix].
      destruct (Ascii.eqb slash x) eqn:Ex; [|done].
      apply Ascii.eqb_eq in Ex as <-. done. }
    destruct (ends_with_slash root) eqn:E2.
    + rewrite (proj2 (String.eqb_neq _ _) (string_app_neq_self root c H1)).
      by rewrite strip_prefix_app, Hstrip.
    + rewrite string_app_assoc.
      rewrite (proj2 (String.eqb_neq _ _) (string_app_neq_self root ("/" +:+ c) ltac:(done))).
      rewrite strip_prefix_app. by rewrite (strip_prefix_app "/" c).
Qed.

Lemma Rel_pathOf root (ns : list string) :
  Forall (fun n => validName n = true) ns ->
  filepath_Rel root (pathOf root ns) = Some (relOf ns).
Proof.
  intros Hns. destruct ns as [|n l].
  - unfold filepath_Rel. simpl. by rewrite String.eqb_refl.
  - rewrite pathOf_names by done. apply Rel_prefixOf. by apply concat_relShaped.
Qed.

Lemma pathOf_inj root (ns ms : list string) :
  Forall (fun n => validName n = true) ns ->
  Forall (fun n => validName n = true) ms ->
  pathOf root ns = pathOf root ms -> ns = ms.
Proof.
  intros Hns Hms Heq. apply relOf_inj; try done.
  pose proof (Rel_pathOf root ns Hns) as H1. pose proof (Rel_pathOf root ms Hms) as H2.
  rewrite Heq in H1. congruence.
Qed.

(** ** The walk *)

Lemma wellFormed_spec n t dirs e :
  wellFormed (mkEntry n t dirs e) = true ->
  NoDup (map Name dirs)
  /\ Forall (fun d => validName (Name d) = true) dirs
  /\ Forall (fun d => wellFormed d = true) dirs.
Proof.
  cbn [wellFormed]. rewrite !andb_true_iff. intros [[H1 H2] H3].
  apply bool_decide_eq_true in H1. split; [done|]. split.
  - apply Forall_forall. intros d Hd. rewrite forallb_forall in H2.
    apply H2. by apply list_elem_of_In.
  - clear H1 H2. induction dirs as [|d dirs IH]; [constructor|].
    apply andb_true_iff in H3 as [Hd Hrest]. constructor; [done|by apply IH].
Qed.

Section WalkFacts.

Variable sys : OS.
Variable rootPath : string.
Variable filter : Filter.
Variable maxDepth : Z.

Lemma walkDir_unfold {St}
    (fn : string -> option DirEntry -> option error -> St -> St * option WalkErr)
    path n t dirs rderr st :
  walkDir fn path (mkEntry n t dirs rderr) st
  = let d := mkEntry n t dirs rderr in
    let '(st1, err) := fn path (Some d) None st in
    if bool_decide (err ≠ None) || negb (IsDir d) then
      (st1, match err with
            | Some SkipDir => if IsDir d then None else err
            | None => None
            end)
    else
      let '(st2, err2) :=
        match rderr with
        | Some e => fn path (Some d) (Some e) st1
        | None => (st1, None)
        end in
      match err2 with
      | Some SkipDir => (st2, None)
      | None => walkEntries fn path dirs st2
      end.
Proof.
  cbn [walkDir]. cbv zeta. destruct (fn path _ None st) as [st1 err].
  destruct (bool_decide (err ≠ None) || negb _); [done|].
  destruct (match rderr with Some e => _ | None => _ end) as [st2 [[]|]]; [done|].
  clear. revert st2. induction dirs as [|d1 rest IH]; intros st2; [done|].
  cbn [walkEntries]. destruct (walkDir fn _ d1 st2) as [st' [[]|]]; [done|]. apply IH.
Qed.

Lemma walkFn_error path d e st :
  walkFn sys rootPath filter maxDepth path d (Some e) st = (st, None).
Proof. done. Qed.

(** What one callback does to the jobs and to the log of visits. *)
Lemma walkFn_visit (ns : list string) (d : DirEntry) (st : walkState) :
  validNames ns ->
  exists js ds,
    extends rootPath st
      (fst (walkFn sys rootPath filter maxDepth (pathOf rootPath ns) (Some d) None st))
      js ds
    /\ (js = [] \/ js = [ns]) /\ (ds = [] \/ ds = [ns])
    /\ (IsDir d = true -> js = [] /\ ds = [ns])
    /\ (IsDir d = false -> ds = []).
Proof.
  intros Hns. unfold walkFn.
  assert (Hvisit : forall st0,
    fileJobs st0 = fileJobs st -> dirVisits st0 = dirVisits st ->
    exists js ds,
      extends rootPath st
        (fst (visitEntry rootPath filter maxDepth (pathOf rootPath ns) d st0)) js ds
      /\ (js = [] \/ js = [ns]) /\ (ds = [] \/ ds = [ns])
      /\ (IsDir d = true -> js = [] /\ ds = [ns])
      /\ (IsDir d = false -> ds = [])).
  { intros st0 Hj Hd. unfold visitEntry, extends. rewrite (Rel_pathOf rootPath ns Hns).
    destruct (IsDir d) eqn:Edir.
    - exists [], [ns].
      assert (Hst : forall r, fileJobs (fst (with_dirVisit st0 (pathOf rootPath ns), r : option WalkErr))
                      = (fileJobs st ++ map (jobOf rootPath) [])%list
                    /\ dirVisits (fst (with_dirVisit st0 (pathOf rootPath ns), r))
                      = (dirVisits st ++ map (pathOf rootPath) [ns])%list).
      { intros r. simpl. by rewrite app_nil_r, Hj, Hd. }
      split; [|repeat split; try done; auto].
      destruct (negb (String.eqb (relOf ns) ".")); [|apply Hst].
      destruct ((0 <? maxDepth) && (maxDepth <? strings_Count (relOf ns) slash + 1));
        [apply Hst|].
      destruct (negb (ShouldInclude filter (relOf ns +:+ "/dummy.go"))); apply Hst.
    - destruct (negb (ShouldInclude filter (relOf ns))).
      + exists [], []. simpl. rewrite !app_nil_r. repeat split; try done; auto.
      + exists [ns], []. simpl. rewrite !app_nil_r, Hj, Hd.
        repeat split; try done; auto. }
  destruct (IsSymlink d) eqn:Esym; [|by apply Hvisit].
  assert (Hnd : IsDir d = false).
  { unfold IsSymlink, IsDir in *. by destruct (Type_ d). }
  assert (Hsame : exists js ds,
    extends rootPath st st js ds
    /\ (js = [] \/ js = [ns]) /\ (ds = [] \/ ds = [ns])
    /\ (IsDir d = true -> js = [] /\ ds = [ns])
    /\ (IsDir d = false -> ds = [])).
  { exists [], []. unfold extends. simpl. rewrite !app_nil_r.
    rewrite Hnd. repeat split; try done; auto. }
  destruct (filepath_EvalSymlinks sys (pathOf rootPath ns)) as [realPath|e];
    [|exact Hsame].
  destruct (map_true (visitedDirs st) realPath); [exact Hsame|].
  apply Hvisit; by destruct (os_Stat sys realPath) as [[? []]|].
Qed.

Lemma extends_trans st st1 st2 js1 ds1 js2 ds2 :
  extends rootPath st st1 js1 ds1 -> extends rootPath st1 st2 js2 ds2 ->
  extends rootPath st st2 (js1 ++ js2) (ds1 ++ ds2).
Proof.
  unfold extends. intros [H1 H2] [H3 H4].
  rewrite H3, H4, H1, H2, !map_app, !app_assoc. done.
Qed.

Lemma beneath_snoc ns n ms names :
  beneath (ns ++ [n]) ms -> n ∈ names -> beneathOneOf ns names ms.
Proof.
  intros [Hv [rest ->]] Hn. split; [done|]. exists n, rest.
  split; [done|]. by rewrite <- app_assoc.
Qed.

Lemma beneathOneOf_beneath ns names ms : beneathOneOf ns names ms -> beneath ns ms.
Proof. intros [Hv (n & rest & _ & ->)]. split; [done|]. by eexists. Qed.

Lemma beneathOneOf_weaken ns n names ms :
  beneathOneOf ns names ms -> beneathOneOf ns (n :: names) ms.
Proof.
  intros [Hv (m & rest & Hm & ->)]. split; [done|]. exists m, rest.
  split; [by right|done].
Qed.

Lemma beneathOneOf_not_self ns names : ~ beneathOneOf ns names ns.
Proof.
  intros [_ (n & rest & _ & H)]. apply (f_equal length) in H.
  rewrite length_app in H. simpl in H. lia.
Qed.

Lemma walkEntries_trace (dirs : list DirEntry) :
  Forall (traced sys rootPath filter maxDepth) dirs ->
  NoDup (map Name dirs) ->
  Forall (fun d => validName (Name d) = true) dirs ->
  Forall (fun d => wellFormed d = true) dirs ->
  forall ns st, validNames ns ->
    exists js ds,
      extends rootPath st
        (fst (walkEntries (walkFn sys rootPath filter maxDepth) (pathOf rootPath ns) dirs st))
        js ds
      /\ NoDup js /\ NoDup ds
      /\ Forall (beneathOneOf ns (map Name dirs)) js
      /\ Forall (beneathOneOf ns (map Name dirs)) ds.
Proof.
  induction dirs as [|d1 rest IH]; intros Htr Hnd Hval Hwf ns st Hns.
  { exists [], []. unfold extends. simpl. rewrite !app_nil_r.
    repeat split; try done; constructor. }
  apply Forall_cons in Htr as [Htr1 Htr]. apply Forall_cons in Hval as [Hval1 Hval].
  apply Forall_cons in Hwf as [Hwf1 Hwf]. simpl in Hnd.
  apply NoDup_cons in Hnd as [Hfresh Hnd].
  assert (Hns1 : validNames (ns ++ [Name d1])).
  { apply Forall_app. split; [done|]. by apply Forall_singleton. }
  destruct (Htr1 Hwf1 (ns ++ [Name d1])%list st Hns1)
    as (js1 & ds1 & Hext1 & Hndj1 & Hndd1 & Hbj1 & Hbd1).
  rewrite pathOf_snoc in Hext1. cbn [walkEntries].
  assert (Hhead1 : forall l, Forall (beneath (ns ++ [Name d1])) l ->
                             Forall (beneathOneOf ns (map Name (d1 :: rest))) l).
  { intros l Hl. eapply Forall_impl; [exact Hl|]. intros ms Hms.
    apply (beneath_snoc ns (Name d1)); [done|]. simpl. left. }
  destruct (walkDir _ _ d1 st) as [st1 [[]|]]; simpl in Hext1.
  { exists js1, ds1. simpl. auto 10. }
  destruct (IH Htr Hnd Hval Hwf ns st1 Hns)
    as (js2 & ds2 & Hext2 & Hndj2 & Hndd2 & Hbj2 & Hbd2).
  assert (Hdisj : forall l1 l2 : list (list string),
    Forall (beneath (ns ++ [Name d1])) l1 ->
    Forall (beneathOneOf ns (map Name rest)) l2 ->
    forall ms, ms ∈ l1 -> ms ∈ l2 -> False).
  { intros l1 l2 H1 H2 ms Hm1 Hm2.
    rewrite Forall_forall in H1, H2.
    destruct (H1 ms Hm1) as [_ [r1 E1]]. destruct (H2 ms Hm2) as [_ (n & r2 & Hn & E2)].
    rewrite <- app_assoc in E1. rewrite E1 in E2. apply app_inv_head in E2.
    simpl in E2. injection E2 as <- _. done. }
  exists (js1 ++ js2)%list, (ds1 ++ ds2)%list.
  split; [by eapply extends_trans|].
  split.
  { apply NoDup_app. split; [done|]. split; [|done].
    intros ms Hm1 Hm2. by apply (Hdisj js1 js2 Hbj1 Hbj2 ms). }
  split.
  { apply NoDup_app. split; [done|]. split; [|done].
    intros ms Hm1 Hm2. by apply (Hdisj ds1 ds2 Hbd1 Hbd2 ms). }
  split; apply Forall_app; (split; [by apply Hhead1|]);
    (eapply Forall_impl; [eassumption|]); intros ms; apply beneathOneOf_weaken.
Qed.

Lemma walkDir_trace (d : DirEntry) : traced sys rootPath filter maxDepth d.
Proof.
  induction d as [n t dirs rderr IH] using DirEntry_ind.
  intros Hwf ns st Hns. apply wellFormed_spec in Hwf as (Hnd & Hval & Hwf).
  rewrite walkDir_unfold. cbv zeta.
  destruct (walkFn_visit ns (mkEntry n t dirs rderr) st Hns)
    as (js0 & ds0 & Hext0 & Hjs0 & Hds0 & Hdir & Hfile).
  assert (Hself : beneath ns ns).
  { split; [done|]. exists []. by rewrite app_nil_r. }
  assert (Hsmall : forall l : list (list string), l = [] \/ l = [ns] ->
                     NoDup l /\ Forall (beneath ns) l).
  { intros l [->| ->]; split; try constructor; try done;
      [apply not_elem_of_nil|constructor]. }
  destruct (walkFn sys rootPath filter maxDepth (pathOf rootPath ns) _ None st)
    as [st1 err]. simpl in Hext0.
  destruct (bool_decide (err ≠ None) || negb (IsDir (mkEntry n t dirs rderr))) eqn:Estop.
  { exists js0, ds0. simpl. destruct (Hsmall js0 Hjs0), (Hsmall ds0 Hds0). auto 10. }
  apply orb_false_iff in Estop as [_ Edir]. apply negb_false_iff in Edir.
  destruct (Hdir Edir) as [-> ->].
  assert (Hst2 : (match rderr with
                  | Some e => walkFn sys rootPath filter maxDepth (pathOf rootPath ns)
                                (Some (mkEntry n t dirs rderr)) (Some e) st1
                  | None => (st1, None)
                  end) = (st1, None)) by (by destruct rderr).
  rewrite Hst2.
  destruct (walkEntries_trace dirs IH Hnd Hval Hwf ns st1 Hns)
    as (js & ds & Hext & Hndj & Hndd & Hbj & Hbd).
  exists js, (ns :: ds). split.
  { apply (extends_trans st st1 _ [] [ns] js ds Hext0 Hext). }
  split; [done|]. split.
  { constructor; [|done]. intros Hin. rewrite Forall_forall in Hbd.
    by apply (beneathOneOf_not_self ns (map Name dirs)), Hbd. }
  split.
  - eapply Forall_impl; [exact Hbj|]. intros ms. apply beneathOneOf_beneath.
  - constructor; [done|]. eapply Forall_impl; [exact Hbd|]. intros ms.
    apply beneathOneOf_beneath.
Qed.

(** The jobs of a walk have pairwise distinct relative paths, and no
    directory is visited twice. *)
Lemma enumerate_distinct (d : DirEntry) :
  wellFormed d = true ->
  NoDup (map relPath (fileJobs (fst (enumerate sys rootPath filter maxDepth (Ok d)))))
  /\ NoDup (dirVisits (fst (enumerate sys rootPath filter maxDepth (Ok d)))).
Proof.
  intros Hwf.
  destruct (walkDir_trace d Hwf [] initialWalk ltac:(constructor))
    as (js & ds & [Hj Hd] & Hndj & Hndd & Hbj & Hbd).
  assert (Hfst : fst (enumerate sys rootPath filter maxDepth (Ok d))
                 = fst (walkDir (walkFn sys rootPath filter maxDepth) rootPath d initialWalk)).
  { unfold enumerate, filepath_WalkDir. by destruct (walkDir _ _ d _) as [st [[]|]]. }
  rewrite Hfst. change (pathOf rootPath []) with rootPath in Hj, Hd.
  rewrite Hj, Hd. simpl. split.
  - rewrite map_map. simpl. apply NoDup_fmap_2_strong; [|done].
    intros ms1 ms2 H1 H2. rewrite Forall_forall in Hbj.
    apply relOf_inj; [by apply Hbj|by apply Hbj].
  - apply NoDup_fmap_2_strong; [|done].
    intros ms1 ms2 H1 H2. rewrite Forall_forall in Hbd.
    apply pathOf_inj; [by apply Hbd|by apply Hbd].
Qed.

End WalkFacts.

(** ** The result of [Collect] *)

Lemma enumerate_root_distinct sys rootPath filter maxDepth lstat :
  wellFormedRoot lstat = true ->
  NoDup (map relPath (jobsOf sys rootPath filter maxDepth lstat))
  /\ NoDup (dirVisits (fst (enumerate sys rootPath filter maxDepth lstat))).
Proof.
  destruct lstat as [d|e]; simpl; intros Hwf.
  - by apply enumerate_distinct.
  - unfold jobsOf, enumerate, filepath_WalkDir. simpl. split; constructor.
Qed.

Lemma NoDup_relPath_inj (jobs : list fileJob) (j1 j2 : fileJob) :
  NoDup (map relPath jobs) -> j1 ∈ jobs -> j2 ∈ jobs ->
  relPath j1 = relPath j2 -> j1 = j2.
Proof.
  induction jobs as [|j jobs IH]; simpl; intros Hnd H1 H2 Heq.
  - by apply elem_of_nil in H1.
  - apply NoDup_cons in Hnd as [Hj Hnd].
    apply elem_of_cons in H1 as [->|H1]; apply elem_of_cons in H2 as [->|H2].
    + done.
    + exfalso. apply Hj. rewrite Heq. apply list_elem_of_fmap. by exists j2.
    + exfalso. apply Hj. rewrite <- Heq. apply list_elem_of_fmap. by exists j1.
    + by apply IH.
Qed.

Lemma gather_ascending sys sched maxFileSizeMB jobs r :
  NoDup (map relPath jobs) ->
  gather sys sched maxFileSizeMB jobs = Some (Ok r) ->
  strictlyAscending (Files r).
Proof.
  intros Hnd H. destruct (gather_Ok _ _ _ _ _ H) as (ch & Hch & HF & _).
  rewrite HF. apply sort_Slice_ascending.
  assert (Hperm : okData ch ≡ₚ produced sys maxFileSizeMB jobs).
  { unfold produced, okData. by apply omap_Permutation. }
  rewrite Hperm. by apply produced_NoDup.
Qed.

Lemma produced_perm sys maxFileSizeMB jobs jobs' :
  jobs' ≡ₚ jobs -> produced sys maxFileSizeMB jobs' ≡ₚ produced sys maxFileSizeMB jobs.
Proof.
  intros H. unfold produced, okData. apply omap_Permutation. by apply bind_Permutation.
Qed.

Lemma gather_unique sys maxFileSizeMB jobs jobs' sched sched' r r' :
  NoDup (map relPath jobs) -> jobs' ≡ₚ jobs ->
  gather sys sched maxFileSizeMB jobs = Some (Ok r) ->
  gather sys sched' maxFileSizeMB jobs' = Some (Ok r') ->
  r' = r.
Proof.
  intros Hnd Hperm H H'.
  assert (Hnd' : NoDup (map relPath jobs')) by (by rewrite Hperm).
  pose proof (gather_ascending _ _ _ _ _ Hnd H) as Hs.
  pose proof (gather_ascending _ _ _ _ _ Hnd' H') as Hs'.
  pose proof (gather_Files _ _ _ _ _ H) as Hf.
  pose proof (gather_Files _ _ _ _ _ H') as Hf'.
  assert (Hfiles : Files r' = Files r).
  { apply strictlyAscending_unique; [done|done|].
    rewrite Hf, Hf'. by apply produced_perm. }
  destruct (gather_Ok _ _ _ _ _ H) as (ch & _ & Hr1 & Hr2 & Hr3).
  destruct (gather_Ok _ _ _ _ _ H') as (ch' & _ & Hr1' & Hr2' & Hr3').
  destruct r as [files total count], r' as [files' total' count']. simpl in *.
  subst files'. f_equal.
  - rewrite Hr2, Hr2'. f_equal.
    rewrite <- (sumSizes_perm _ _ (sort_Slice_perm lessRelPath (okData ch))).
    rewrite <- (sumSizes_perm _ _ (sort_Slice_perm lessRelPath (okData ch'))).
    by rewrite <- Hr1, <- Hr1'.
  - by rewrite Hr3, Hr3'.
Qed.

(** C1: the files of a result that [Collect] returns are strictly
    ascending by the byte-wise order of their relative paths, so no two
    records share a path; and the result is the same for every run of the
    workers and for every order in which the jobs were enumerated. *)
Theorem Collect_sorted (sys : OS) (sched : list event) (rootPath : string)
    (lstat : result DirEntry) (filter : Filter) (maxDepth : Z)
    (maxFileSizeMB : float) (r : CollectionResult) :
  wellFormedRoot lstat = true ->
  Collect sys sched rootPath lstat filter maxDepth maxFileSizeMB = Some (Ok r) ->
  strictlyAscending (Files r)
  /\ NoDup (map RelPath (Files r))
  /\ (forall jobs' sched' r',
        jobs' ≡ₚ jobsOf sys rootPath filter maxDepth lstat ->
        gather sys sched' maxFileSizeMB jobs' = Some (Ok r') -> r' = r).
Proof.
  intros Hwf H. rewrite Collect_gather in H.
  destruct (enumerate_root_distinct sys rootPath filter maxDepth lstat Hwf) as [Hnd _].
  pose proof (gather_ascending _ _ _ _ _ Hnd H) as Hs.
  split; [done|]. split; [by apply strictlyAscending_NoDup|].
  intros jobs' sched' r' Hperm H'. by eapply gather_unique.
Qed.

Lemma Collect_sorted_witness :
  strictlyAscending (Files demoResult)
  /\ NoDup (map RelPath (Files demoResult))
  /\ (forall jobs' sched' r',
        jobs' ≡ₚ jobsOf demoOS "/root" defaultFilter 0 (Ok demoTree) ->
        gather demoOS sched' noLimit jobs' = Some (Ok r') -> r' = demoResult).
Proof.
  apply (Collect_sorted demoOS demoRun "/root" (Ok demoTree) defaultFilter 0 noLimit
           demoResult).
  - vm_compute. reflexivity.
  - vm_compute. reflexivity.
Defined.

(** C10: in a result that [Collect] returns, [FileCount] is the length of
    [Files] and [TotalSize] is the sum of the sizes of the records, in
    the arithmetic of [int64]; it is the exact sum when that fits. *)
Theorem Collect_counts (sys : OS) (sched : list event) (rootPath : string)
    (lstat : result DirEntry) (filter : Filter) (maxDepth : Z)
    (maxFileSizeMB : float) (r : CollectionResult) :
  Collect sys sched rootPath lstat filter maxDepth maxFileSizeMB = Some (Ok r) ->
  FileCount r = Z.of_nat (length (Files r))
  /\ TotalSize r = wrap64 (sumSizes (Files r))
  /\ (- 2 ^ 63 <= sumSizes (Files r) < 2 ^ 63 -> TotalSize r = sumSizes (Files r)).
Proof.
  intros H. rewrite Collect_gather in H.
  destruct (gather_Ok _ _ _ _ _ H) as (ch & _ & Hr1 & Hr2 & Hr3).
  assert (Hsum : TotalSize r = wrap64 (sumSizes (Files r))).
  { rewrite Hr2, Hr1. f_equal. symmetry. apply sumSizes_perm, sort_Slice_perm. }
  split; [done|]. split; [done|]. intros Hfit. rewrite Hsum. by apply wrap64_small.
Qed.

Lemma Collect_counts_witness :
  FileCount demoResult = 3 /\ TotalSize demoResult = 10 + (8 + (4 + 0)).
Proof.
  destruct (Collect_counts demoOS demoRun "/root" (Ok demoTree) defaultFilter 0
              noLimit demoResult) as (H1 & _ & H3).
  - vm_compute. reflexivity.
  - split; [exact H1|]. apply H3. vm_compute. split; [discriminate|reflexivity].
Defined.






Lemma Collect_file_from_job sys sched rootPath lstat filter maxDepth maxFileSizeMB r f :
  Collect sys sched rootPath lstat filter maxDepth maxFileSizeMB = Some (Ok r) ->
  f ∈ Files r ->
  exists job, job ∈ jobsOf sys rootPath filter maxDepth lstat
    /\ processJob sys maxFileSizeMB job = Some {| res_data := f; res_err := None |}.
Proof.
  intros H Hf. rewrite Collect_gather in H.
  apply gather_Files in H. rewrite H in Hf. by apply produced_from.
Qed.



(** C9: a file of zero bytes never appears in a result.  The one read of
    [isBinaryFile] returns no byte and the end-of-file error, the worker
    sends nothing for the job, and no record has its path. *)
Theorem Collect_skips_empty_files (sys : OS) (sched : list event) (rootPath : string)
    (lstat : result DirEntry) (filter : Filter) (maxDepth : Z)
    (maxFileSizeMB : float) (r : CollectionResult) (job : fileJob) :
  wellFormedRoot lstat = true ->
  Collect sys sched rootPath lstat filter maxDepth maxFileSizeMB = Some (Ok r) ->
  job ∈ jobsOf sys rootPath filter maxDepth lstat ->
  os_Open sys (fullPath job) = Ok (RegularFile "") ->
  isBinaryFile sys (fullPath job) = (false, Some io_EOF)
  /\ processJob sys maxFileSizeMB job = None
  /\ relPath job ∉ map RelPath (Files r).
Proof.
  intros Hwf H Hjob Hopen.
  assert (Hbin : isBinaryFile sys (fullPath job) = (false, Some io_EOF)).
  { unfold isBinaryFile. by rewrite Hopen. }
  assert (Hnone : processJob sys maxFileSizeMB job = None).
  { unfold processJob. by rewrite Hbin. }
  split; [done|]. split; [done|].
  intros Hin. apply list_elem_of_fmap in Hin as (f & Heq & Hf).
  destruct (Collect_file_from_job _ _ _ _ _ _ _ _ _ H Hf) as (job' & Hjob' & Hp).
  destruct (enumerate_root_distinct sys rootPath filter maxDepth lstat Hwf) as [Hnd _].
  assert (job' = job); [|congruence].
  eapply NoDup_relPath_inj; try done.
  rewrite Heq. symmetry. by eapply produced_RelPath.
Qed.

Lemma Collect_skips_empty_files_witness :
  isBinaryFile demoOS "/root/empty.txt" = (false, Some io_EOF)
  /\ processJob demoOS noLimit {| fullPath := "/root/empty.txt"; relPath := "empty.txt" |}
     = None
  /\ "empty.txt" ∉ map RelPath (Files demoResult).
Proof.
  apply (Collect_skips_empty_files demoOS demoRun "/root" (Ok demoTree) defaultFilter 0
           noLimit demoResult {| fullPath := "/root/empty.txt"; relPath := "empty.txt" |}).
  - vm_compute. reflexivity.
  - vm_compute. reflexivity.
  - vm_compute. do 3 right. left.
  - vm_compute. reflexivity.
Defined.

(** ** Cancellation *)

Lemma run_app sys maxFileSizeMB jobs s1 s2 :
  run sys maxFileSizeMB jobs (s1 ++ s2)
  = foldl (step sys maxFileSizeMB jobs) (run sys maxFileSizeMB jobs s1) s2.
Proof. unfold run. apply foldl_app. Qed.











(** ** The record of real directories *)

Lemma visitEntry_visitedDirs rootPath filter maxDepth path d st :
  visitedDirs (fst (visitEntry rootPath filter maxDepth path d st)) = visitedDirs st.
Proof.
  unfold visitEntry. destruct (filepath_Rel rootPath path) as [rel|]; [|done].
  destruct (IsDir d).
  - destruct (negb (String.eqb rel ".")); [|done].
    destruct ((0 <? maxDepth) && (maxDepth <? strings_Count rel slash + 1)); [done|].
    by destruct (negb (ShouldInclude filter (rel +:+ "/dummy.go"))).
  - by destruct (negb (ShouldInclude filter rel)).
Qed.

(** ** Every call can return *)

Lemma sequential_S (k : nat) :
  sequential (S k) = (sequential k ++ [evStart k; evFinish k])%list.
Proof. unfold sequential. by rewrite seq_S, bind_app. Qed.

(** The state of the pool after the first [k] jobs ran one after the other. *)
Lemma run_sequential sys maxFileSizeMB jobs (k : nat) :
  (k <= length jobs)%nat ->
  run sys maxFileSizeMB jobs (sequential k)
  = {| ctxErr := None; groupErr := None;
       workers := (replicate k Returned ++ replicate (length jobs - k) Pending)%list;
       resultsChan := take k jobs ≫= sent sys maxFileSizeMB |}.
Proof.
  induction k as [|k IH]; intros Hk.
  - unfold run, initialPool. simpl. by rewrite Nat.sub_0_r.
  - rewrite sequential_S, run_app, IH by lia. clear IH.
    destruct (lookup_lt_is_Some_2 jobs k ltac:(lia)) as [job Hjob].
    assert (Hrest : (length jobs - k = S (length jobs - S k))%nat) by lia.
    rewrite Hrest. cbn [foldl step workers].
    rewrite lookup_app_r by (by rewrite length_replicate).
    rewrite length_replicate, Nat.sub_diag. cbn [replicate lookup list_lookup].
    unfold egCtx_Done. cbn [ctxErr groupErr]. simpl bool_decide. cbn [orb].
    cbn [workers].
    rewrite insert_app_r_alt by (by rewrite length_replicate).
    rewrite length_replicate, Nat.sub_diag. cbn [insert list_insert].
    rewrite lookup_app_r by (by rewrite length_replicate).
    rewrite length_replicate, Nat.sub_diag. cbn [lookup list_lookup].
    rewrite Hjob. cbn [ctxErr groupErr workers resultsChan].
    rewrite insert_app_r_alt by (by rewrite length_replicate).
    rewrite length_replicate, Nat.sub_diag. cbn [insert list_insert].
    f_equal.
    + change (Returned :: replicate k Returned) with (replicate (S k) Returned).
      rewrite (replicate_S_end k), <- app_assoc. done.
    + rewrite (take_S_r jobs k job Hjob), bind_app. simpl. rewrite app_nil_r.
      unfold sent. destruct (processJob sys maxFileSizeMB job); [done|].
      by rewrite app_nil_r.
Qed.

(** X27: every call of [Collect] can return a result.  Whatever the
    tree, the files and the filter, the run in which the workers go one
    after the other with the context never done is complete, and
    [Collect] returns a result on it and no error. *)
Lemma sequential_returns sys rootPath lstat filter maxDepth maxFileSizeMB :
  exists r,
    Collect sys (sequential (length (jobsOf sys rootPath filter maxDepth lstat)))
      rootPath lstat filter maxDepth maxFileSizeMB = Some (Ok r).
Proof.
  rewrite Collect_gather. fold (jobsOf sys rootPath filter maxDepth lstat).
  set (jobs := jobsOf sys rootPath filter maxDepth lstat).
  unfold gather. rewrite run_sequential by lia. unfold allReturned. cbn [workers].
  rewrite Nat.sub_diag. simpl replicate at 2. rewrite app_nil_r.
  assert (Hall : forallb (fun g => match g with Returned => true | _ => false end)
                   (replicate (length jobs) Returned) = true).
  { apply forallb_forall. intros g Hg%list_elem_of_In.
    by apply elem_of_replicate in Hg as [-> _]. }
  rewrite Hall. cbn [resultsChan groupErr]. destruct (drain _ _ _). by eexists.
Qed.

(** ** A rendering *)

Example FormatAsMarkdown_two_files :
  FormatAsMarkdown twoFiles
  = "File: ./a.go" +:+ nl +:+ nl +:+ "```go" +:+ nl +:+ "package a" +:+ nl
    +:+ "```" +:+ nl +:+ nl +:+ "---" +:+ nl +:+ nl
    +:+ "File: ./b.py" +:+ nl +:+ nl +:+ "```python" +:+ nl +:+ "print(1)" +:+ nl
    +:+ "```" +:+ nl.
Proof. vm_compute. reflexivity. Qed.

(** ** The construction of the filter *)

Lemma foldl_insert_true (g : string -> string) (l : list string) :
  forall (m : gmap string bool) (e : string),
    map_true (foldl (fun m x => <[g x := true]> m) m l) e = true
    <-> map_true m e = true \/ exists x, x ∈ l /\ g x = e.
Proof.
  induction l as [|y l IH]; intros m e; simpl.
  - split; [by left|]. intros [H|(x & Hx & _)]; [done|]. by apply elem_of_nil in Hx.
  - rewrite IH. unfold map_true at 1. destruct (decide (g y = e)) as [<-|Hne].
    + rewrite lookup_insert_eq. simpl. split; [|by left].
      intros _. right. exists y. split; [left|done].
    + rewrite lookup_insert_ne by done. fold (map_true m e). split.
      * intros [H|(x & Hx & Hg)]; [by left|]. right. exists x. split; [by right|done].
      * intros [H|(x & Hx & Hg)]; [by left|].
        apply elem_of_cons in Hx as [->|Hx]; [done|]. right. by exists x.
Qed.

(** X1: the allow-set of a filter.  Without extensions of the caller it
    holds the default extensions; with them it holds exactly theirs, each
    with a leading dot put before it when it has none, and the defaults
    are gone. *)
Theorem NewFilter_allowedExts (compile : string -> option Regexp)
    (exts customExcludes : list string) (respect tests : bool) (e : string) :
  map_true (allowedExts (NewFilter compile exts customExcludes respect tests)) e = true
  <-> (exts = [] /\ e ∈ defaultExts)
      \/ (exists x, x ∈ exts /\ normalizeExt x = e).
Proof.
  unfold NewFilter. cbn [allowedExts]. destruct exts as [|x0 exts].
  - rewrite (foldl_insert_true (fun x => x)). unfold map_true at 1.
    rewrite lookup_empty. simpl. split.
    + intros [H|(x & Hx & <-)]; [done|]. by left.
    + intros [[_ H]|(x & Hx & _)].
      * right. by exists e.
      * by apply elem_of_nil in Hx.
  - rewrite (foldl_insert_true normalizeExt). unfold map_true at 1.
    rewrite lookup_empty. simpl. split.
    + intros [H|H]; [done|by right].
    + intros [[H _]|H]; [done|by right].
Qed.

Lemma compile_all_matches compile patterns path :
  excluded_by_pattern (compile_all compile patterns) path = true
  <-> exists pattern R,
        pattern ∈ patterns /\ compile pattern = Some R /\ MatchString R path = true.
Proof.
  induction patterns as [|p ps IH]; simpl.
  - split; [done|]. intros (p & R & Hp & _). by apply elem_of_nil in Hp.
  - destruct (compile p) as [R|] eqn:Ep; simpl.
    + destruct (MatchString R path) eqn:Em.
      * split; [|done]. intros _. exists p, R. split; [left|done].
      * rewrite IH. split.
        -- intros (q & Q & Hq & Hc & Hm). exists q, Q. split; [by right|done].
        -- intros (q & Q & Hq & Hc & Hm).
           apply elem_of_cons in Hq as [->|Hq]; [congruence|]. by exists q, Q.
    + rewrite IH. split.
      * intros (q & Q & Hq & Hc & Hm). exists q, Q. split; [by right|done].
      * intros (q & Q & Hq & Hc & Hm).
        apply elem_of_cons in Hq as [->|Hq]; [congruence|]. by exists q, Q.
Qed.

Lemma NewFilter_excludePatterns compile exts customExcludes respect tests :
  excludePatterns (NewFilter compile exts customExcludes respect tests)
  = compile_all compile (allPatternsOf customExcludes tests).
Proof.
  unfold NewFilter, allPatternsOf. cbn [excludePatterns].
  destruct tests; [by rewrite <- app_assoc|done].
Qed.

(** X2: the exclusion patterns of a filter.  A path is excluded by
    pattern exactly when one of the built-in patterns, of the test
    patterns if they were asked for, or of the patterns of the caller
    compiles and matches it; a pattern that does not compile is left out
    and the others still apply. *)
Theorem NewFilter_patterns (compile : string -> option Regexp)
    (exts customExcludes : list string) (respect tests : bool) (path : string) :
  patternMatches (NewFilter compile exts customExcludes respect tests) path
  <-> exists pattern R,
        pattern ∈ allPatternsOf customExcludes tests
        /\ compile pattern = Some R /\ MatchString R path = true.
Proof.
  unfold patternMatches. rewrite <- excluded_by_pattern_Exists.
  rewrite NewFilter_excludePatterns. apply compile_all_matches.
Qed.

Lemma ShouldInclude_true (f : Filter) (path : string) :
  ShouldInclude f path = true ->
  excluded_by_pattern (excludePatterns f) (filepath_ToSlash path) = false
  /\ (respectGitignore f
      && ignored_by_glob (gitignoreGlobs f) (filepath_ToSlash path)) = false.
Proof.
  unfold ShouldInclude.
  destruct (excluded_by_pattern _ _); [done|].
  by destruct (respectGitignore f && ignored_by_glob _ _).
Qed.

Lemma ShouldInclude_same (f f' : Filter) (path : string) :
  allowedExts f' = allowedExts f ->
  excluded_by_pattern (excludePatterns f') (filepath_ToSlash path) = false ->
  (respectGitignore f'
   && ignored_by_glob (gitignoreGlobs f') (filepath_ToSlash path)) = false ->
  ShouldInclude f path = true -> ShouldInclude f' path = true.
Proof.
  intros Hexts Hpat Hglob H. destruct (ShouldInclude_true f path H) as [H1 H2].
  unfold ShouldInclude in *. by rewrite H1, H2 in H; rewrite Hpat, Hglob, Hexts.
Qed.

(** X3: exclusions only take away.  A path that a filter with test
    exclusion or with patterns of the caller includes is included by the
    filter built without them. *)
Theorem NewFilter_excludes_only_restrict (compile : string -> option Regexp)
    (exts customExcludes : list string) (respect tests : bool) (path : string) :
  ShouldInclude (NewFilter compile exts customExcludes respect tests) path = true ->
  ShouldInclude (NewFilter compile exts [] respect false) path = true.
Proof.
  intros H.
  apply (ShouldInclude_same (NewFilter compile exts customExcludes respect tests)
           (NewFilter compile exts [] respect false) path); [done| | |exact H].
  - destruct (ShouldInclude_true _ _ H) as [H1 _].
    rewrite NewFilter_excludePatterns in *.
    destruct (excluded_by_pattern (compile_all compile (allPatternsOf [] false)) _) eqn:E;
      [|done].
    apply compile_all_matches in E as (p & R & Hp & Hc & Hm).
    assert (excluded_by_pattern
              (compile_all compile (allPatternsOf customExcludes tests))
              (filepath_ToSlash path) = true); [|congruence].
    apply compile_all_matches. exists p, R. split; [|done].
    unfold allPatternsOf in *. rewrite !elem_of_app in *.
    destruct Hp as [Hp|[Hp|Hp]]; [by left| |]; by apply elem_of_nil in Hp.
  - by rewrite andb_false_r.
Qed.

Lemma NewFilter_excludes_only_restrict_witness :
  ShouldInclude (NewFilter fragment_Compile [] [] true false) "pkg/main.go" = true.
Proof.
  apply (NewFilter_excludes_only_restrict fragment_Compile [] ["Pipfile$"] true true).
  vm_compute. reflexivity.
Defined.

(** ** The loading of the ignore file *)

Lemma load_lines_extends compile globs lines :
  exists more, load_lines compile globs lines = (globs ++ more)%list.
Proof.
  revert globs. induction lines as [|text lines IH]; intros globs; simpl.
  - exists []. by rewrite app_nil_r.
  - destruct (gitignore_pattern text) as [pattern|]; [|apply IH].
    destruct (compile pattern slash) as [g|]; [|apply IH].
    destruct (IH (globs ++ [g])%list) as [more ->]. exists (g :: more).
    by rewrite <- app_assoc.
Qed.

Lemma ignored_by_glob_app globs more path :
  ignored_by_glob (globs ++ more) path
  = ignored_by_glob globs path || ignored_by_glob more path.
Proof.
  induction globs as [|g globs IH]; simpl; [done|]. by destruct (Match g path).
Qed.

(** X4: the ignore file only takes away.  [LoadGitignore] leaves the
    allow-set and the exclusion patterns as they are and keeps the globs
    it finds; a filter that does not honour ignore files, or a file that
    cannot be opened, leaves the filter unchanged; and a path included
    after the loading was included before. *)
Theorem LoadGitignore_only_restricts (compile : string -> ascii -> option Glob)
    (f : Filter) (file : option (list string)) :
  allowedExts (LoadGitignore compile f file) = allowedExts f
  /\ excludePatterns (LoadGitignore compile f file) = excludePatterns f
  /\ respectGitignore (LoadGitignore compile f file) = respectGitignore f
  /\ (respectGitignore f = false -> LoadGitignore compile f file = f)
  /\ LoadGitignore compile f None = f
  /\ (forall path,
        ShouldInclude (LoadGitignore compile f file) path = true ->
        ShouldInclude f path = true).
Proof.
  assert (Hglobs : exists more,
    gitignoreGlobs (LoadGitignore compile f file) = (gitignoreGlobs f ++ more)%list).
  { unfold LoadGitignore. destruct (negb (respectGitignore f)).
    - exists []. by rewrite app_nil_r.
    - destruct file as [lines|]; [apply load_lines_extends|].
      exists []. by rewrite app_nil_r. }
  assert (Hfields :
    allowedExts (LoadGitignore compile f file) = allowedExts f
    /\ excludePatterns (LoadGitignore compile f file) = excludePatterns f
    /\ respectGitignore (LoadGitignore compile f file) = respectGitignore f).
  { unfold LoadGitignore. destruct (negb (respectGitignore f)); [done|].
    by destruct file. }
  destruct Hfields as (H1 & H2 & H3). repeat split; try done.
  - intros Hr. unfold LoadGitignore. by rewrite Hr.
  - unfold LoadGitignore. by destruct (negb (respectGitignore f)).
  - intros path H. destruct Hglobs as [more Hmore].
    destruct (ShouldInclude_true _ _ H) as [Hp Hg].
    apply (ShouldInclude_same (LoadGitignore compile f file) f path); try done.
    + by rewrite <- H2.
    + rewrite H3, Hmore, ignored_by_glob_app in Hg.
      destruct (respectGitignore f); [|done]. simpl in *.
      by apply orb_false_iff in Hg as [-> _].
Qed.

Lemma LoadGitignore_only_restricts_witness :
  ShouldInclude defaultFilter "sub/docs/a.md" = true.
Proof.
  pose proof (LoadGitignore_only_restricts wildcard_Compile defaultFilter
                (Some ["*.log"])) as (_ & _ & _ & _ & _ & H).
  apply H. vm_compute. reflexivity.
Defined.

Lemma load_lines_app compile lines1 : forall globs lines2,
  load_lines compile globs (lines1 ++ lines2)
  = load_lines compile (load_lines compile globs lines1) lines2.
Proof.
  induction lines1 as [|text lines1 IH]; intros globs lines2; simpl; [done|].
  destruct (gitignore_pattern text) as [pattern|]; [|apply IH].
  destruct (compile pattern slash); apply IH.
Qed.

(** X5: a line of the ignore file that is blank after trimming, or
    begins with [#] or with [!], can be taken out of the file, wherever it
    stands, without any change to the globs that are loaded. *)
Theorem load_lines_skips (compile : string -> ascii -> option Glob)
    (globs : list Glob) (before after : list string) (text : string) :
  strings_TrimSpace text = ""
  \/ strings_HasPrefix (strings_TrimSpace text) "#" = true
  \/ strings_HasPrefix (strings_TrimSpace text) "!" = true ->
  load_lines compile globs (before ++ text :: after)
  = load_lines compile globs (before ++ after).
Proof.
  intros Hskip. rewrite !load_lines_app. cbn [load_lines].
  assert (Hnone : gitignore_pattern text = None).
  { unfold gitignore_pattern. cbv zeta.
    destruct (String.eqb_spec (strings_TrimSpace text) "") as [?|Hne]; [done|].
    destruct (strings_HasPrefix (strings_TrimSpace text) "#"); [done|].
    destruct Hskip as [?|[?|H]]; [done|done|]. by rewrite H. }
  by rewrite Hnone.
Qed.

Lemma load_lines_skips_witness :
  load_lines wildcard_Compile [] (["*.log"] ++ "  # build output " :: ["tmp/"])
  = load_lines wildcard_Compile [] (["*.log"] ++ ["tmp/"]).
Proof.
  apply load_lines_skips. right. left. vm_compute. reflexivity.
Defined.

Lemma load_lines_compiled compile lines : forall globs,
  load_lines compile globs lines
  = (globs ++ omap (fun text => gitignore_pattern text
                                  ≫= fun pattern => compile pattern slash) lines)%list.
Proof.
  induction lines as [|text lines IH]; intros globs; simpl.
  - by rewrite app_nil_r.
  - destruct (gitignore_pattern text) as [pattern|]; simpl; [|apply IH].
    destruct (compile pattern slash) as [g|]; [|apply IH].
    rewrite IH. by rewrite <- app_assoc.
Qed.

(** X6: what [LoadGitignore] loads.  When the filter honours ignore
    files and the file opens, the globs held afterwards are the globs held
    before followed, in the order of the file, by the compiled pattern of
    every line that is not skipped and whose pattern compiles; a line
    whose pattern does not compile adds nothing, and the lines after it
    still load.  So a path is matched by the loaded globs exactly when it
    was matched before or the pattern of some line compiles and matches
    it. *)
Theorem LoadGitignore_globs (compile : string -> ascii -> option Glob)
    (f : Filter) (lines : list string) :
  respectGitignore f = true ->
  gitignoreGlobs (LoadGitignore compile f (Some lines))
  = (gitignoreGlobs f
     ++ omap (fun text => gitignore_pattern text
                            ≫= fun pattern => compile pattern slash) lines)%list
  /\ (forall path,
        ignored_by_glob (gitignoreGlobs (LoadGitignore compile f (Some lines))) path
        = true
        <-> ignored_by_glob (gitignoreGlobs f) path = true
            \/ exists text pattern g,
                 text ∈ lines
                 /\ gitignore_pattern text = Some pattern
                 /\ compile pattern slash = Some g
                 /\ Match g path = true).
Proof.
  intros Hrespect.
  assert (Hglobs : gitignoreGlobs (LoadGitignore compile f (Some lines))
                   = (gitignoreGlobs f
                      ++ omap (fun text => gitignore_pattern text
                                 ≫= fun pattern => compile pattern slash) lines)%list).
  { unfold LoadGitignore. rewrite Hrespect. cbn [negb gitignoreGlobs].
    apply load_lines_compiled. }
  split; [exact Hglobs|]. intros path.
  rewrite Hglobs, ignored_by_glob_app, orb_true_iff.
  rewrite (ignored_by_glob_Exists (omap _ lines)), Exists_exists.
  split; (intros [H|H]; [by left|right]).
  - destruct H as (g & Hin & Hm). apply list_elem_of_omap in Hin as (text & Hin & Hc).
    destruct (gitignore_pattern text) as [pattern|] eqn:Hp; [|done].
    cbn [mbind option_bind] in Hc. by exists text, pattern, g.
  - destruct H as (text & pattern & g & Hin & Hp & Hc & Hm). exists g.
    split; [|done]. apply list_elem_of_omap. exists text. split; [done|].
    rewrite Hp. by cbn [mbind option_bind].
Qed.

Lemma LoadGitignore_globs_witness :
  gitignoreGlobs (LoadGitignore wildcard_Compile defaultFilter
                    (Some ["*.log"; "["; "# build"; "tmp/"]))
  = gitignoreGlobs (LoadGitignore wildcard_Compile defaultFilter
                      (Some ["*.log"; "tmp/"])).
Proof.
  destruct (LoadGitignore_globs wildcard_Compile defaultFilter
              ["*.log"; "["; "# build"; "tmp/"]) as [H _].
  - vm_compute. reflexivity.
  - rewrite H. vm_compute. reflexivity.
Defined.

(** ** What the loaded globs match *)

Lemma glob_lex_literal (l : list ascii) :
  forallb (fun c => is_ascii c
                    && negb (existsb (Ascii.eqb c) (to_bytes "*\[{?"))) l = true ->
  glob_lex l = Some (map GText l).
Proof.
  induction l as [|c l IH]; [done|]. cbn [forallb]. intros H.
  apply andb_true_iff in H as [Hc Hl]. apply andb_true_iff in Hc as [Hascii Hop].
  apply negb_true_iff in Hop. cbn [glob_lex map].
  assert (Hstar : Ascii.eqb c "*" = false).
  { destruct (Ascii.eqb_spec c "*"%char) as [->|]; [|done]. by vm_compute in Hop. }
  rewrite Hstar.
  assert (Hrest : existsb (Ascii.eqb c) (to_bytes "\[{?") = false).
  { cbn [to_bytes list_ascii_of_string existsb] in *.
    rewrite Hstar in Hop. exact Hop. }
  rewrite Hrest, Hascii. cbn [negb orb]. by rewrite (IH Hl).
Qed.

Lemma glob_lex_app_literal (l : list ascii) (rest : list ascii) :
  forallb (fun c => is_ascii c
                    && negb (existsb (Ascii.eqb c) (to_bytes "*\[{?"))) l = true ->
  glob_lex (l ++ rest) = option_map (app (map GText l)) (glob_lex rest).
Proof.
  induction l as [|c l IH]; intros H.
  - simpl. by destruct (glob_lex rest).
  - cbn [forallb] in H. apply andb_true_iff in H as [Hc Hl].
    pose proof (glob_lex_literal [c]) as H1. cbn [forallb] in H1.
    rewrite Hc in H1. specialize (H1 eq_refl). cbn [glob_lex map] in H1.
    change ((c :: l) ++ rest)%list with (c :: (l ++ rest))%list. cbn [glob_lex].
    destruct (Ascii.eqb c "*"); [done|].
    destruct (existsb (Ascii.eqb c) (to_bytes "\[{?") || negb (is_ascii c)); [done|].
    rewrite (IH Hl). by destruct (glob_lex rest).
Qed.

Lemma glob_match_text sep (l : list ascii) (ts : list gtok) (s : list ascii) :
  glob_match sep (map GText l ++ ts) s = true
  <-> exists rest, s = (l ++ rest)%list /\ glob_match sep ts rest = true.
Proof.
  revert s. induction l as [|c l IH]; intros s.
  - simpl. split; [by exists s|]. by intros (rest & -> & H).
  - cbn [map app glob_match]. destruct s as [|a s].
    + split; [done|]. by intros (rest & ? & _).
    + rewrite andb_true_iff, IH. split.
      * intros [Hac (rest & -> & H)]. apply Ascii.eqb_eq in Hac as ->. by exists rest.
      * intros (rest & [= -> ->] & H). split; [apply Ascii.eqb_refl|by exists rest].
Qed.

Lemma glob_match_super sep (ts : list gtok) (s : list ascii) :
  glob_match sep (GSuper :: ts) s = true
  <-> exists before rest, s = (before ++ rest)%list /\ glob_match sep ts rest = true.
Proof.
  cbn [glob_match]. induction s as [|a s IH].
  - split.
    + intros H. exists [], []. split; [done|]. by rewrite orb_false_r in H.
    + intros (before & rest & Heq & H). symmetry in Heq.
      apply app_eq_nil in Heq as [-> ->]. by rewrite H.
  - rewrite orb_true_iff, IH. split.
    + intros [H|(before & rest & -> & H)].
      * by exists [], (a :: s).
      * by exists (a :: before), rest.
    + intros (before & rest & Heq & H). destruct before as [|b before].
      * left. simpl in Heq. by subst.
      * right. injection Heq as -> ->. by exists before, rest.
Qed.

Lemma glob_match_nil sep s : glob_match sep [] s = true <-> s = [].
Proof. by destruct s. Qed.

Lemma HasPrefix_firstByte (s : string) (c : ascii) :
  strings_HasPrefix s (String c "") = true <-> firstByte s = Some c.
Proof.
  unfold strings_HasPrefix, firstByte. change (to_bytes (String c "")) with [c].
  destruct (to_bytes s) as [|a l]; cbn [drop_list_prefix head].
  - split; intros H; [by apply bool_decide_eq_true in H|done].
  - destruct (Ascii.eqb c a) eqn:E.
    + apply Ascii.eqb_eq in E as ->. split; [done|]. intros _.
      by apply bool_decide_eq_true.
    + apply Ascii.eqb_neq in E.
      split; [intros H; by apply bool_decide_eq_true in H|congruence].
Qed.

Lemma HasPrefix_firstByte_false (s : string) (c : ascii) :
  firstByte s <> Some c -> strings_HasPrefix s (String c "") = false.
Proof.
  intros H. destruct (strings_HasPrefix s (String c "")) eqn:E; [|done].
  by apply HasPrefix_firstByte in E.
Qed.

Lemma HasSuffix_slash_app (a b : string) :
  b <> "" -> strings_HasSuffix (a +:+ b) "/" = strings_HasSuffix b "/".
Proof.
  intros Hb. pose proof (ends_with_slash_lastByte (a +:+ b)) as H1.
  pose proof (ends_with_slash_lastByte b) as H2. unfold ends_with_slash in *.
  rewrite lastByte_app in H1 by done.
  destruct (strings_HasSuffix (a +:+ b) "/"), (strings_HasSuffix b "/"); try done.
  - symmetry. apply H2, H1. done.
  - apply H1, H2. done.
Qed.

Lemma ignored_by_single compile line pattern g path :
  gitignore_pattern line = Some pattern ->
  compile pattern slash = Some g ->
  ignored_by_glob (globsOfLine compile line) path = Match g path.
Proof.
  intros Hp Hc. unfold globsOfLine. cbn [load_lines]. rewrite Hp, Hc. simpl.
  by destruct (Match g path).
Qed.

Lemma literalText_app (a b : string) :
  literalText a = true -> literalText b = true -> literalText (a +:+ b) = true.
Proof.
  unfold literalText. rewrite to_bytes_app, forallb_app. by intros -> ->.
Qed.

(** X7: a line with a leading slash and nothing but literal text after
    it becomes the glob of that text, which matches the one path equal to
    the text.  So [/build] ignores a file named [build] in the walked root,
    and no path beneath a directory [build]. *)
Theorem rooted_line_matches_exactly (line t : string) :
  strings_TrimSpace line = "/" +:+ t ->
  t <> "" ->
  strings_HasSuffix t "/" = false ->
  literalText t = true ->
  forall path,
    ignored_by_glob (globsOfLine wildcard_Compile line) path = true <-> path = t.
Proof.
  intros Htrim Hne Hsuf Hlit path.
  assert (Hp : gitignore_pattern line = Some t).
  { unfold gitignore_pattern. rewrite Htrim. cbv zeta.
    rewrite (proj2 (String.eqb_neq _ _)) by (by apply app_not_empty_r).
    rewrite (HasPrefix_firstByte_false _ "#") by done.
    rewrite (HasPrefix_firstByte_false _ "!") by done.
    rewrite HasSuffix_slash_app, Hsuf by done.
    rewrite (proj2 (HasPrefix_firstByte ("/" +:+ t) "/")) by done.
    unfold strings_TrimPrefix. by rewrite (strip_prefix_app "/" t). }
  assert (Hc : wildcard_Compile t slash
               = Some {| Match := fun s => glob_match slash (map GText (to_bytes t))
                                             (to_bytes s) |}).
  { unfold wildcard_Compile. by rewrite (glob_lex_literal _ Hlit). }
  rewrite (ignored_by_single _ _ _ _ _ Hp Hc). cbn [Match].
  rewrite <- (app_nil_r (map GText (to_bytes t))), glob_match_text. split.
  - intros (rest & Heq & ->%glob_match_nil). rewrite app_nil_r in Heq.
    by apply to_bytes_inj.
  - intros ->. exists []. by rewrite app_nil_r.
Qed.

Lemma rooted_line_matches_exactly_witness :
  ignored_by_glob (globsOfLine wildcard_Compile " /build") "build" = true
  <-> "build" = "build".
Proof.
  apply (rooted_line_matches_exactly " /build" "build").
  - vm_compute. reflexivity.
  - discriminate.
  - vm_compute. reflexivity.
  - vm_compute. reflexivity.
Defined.

Lemma unrooted_pattern (t : string) :
  t <> "" ->
  firstByte t <> Some "#"%char -> firstByte t <> Some "!"%char ->
  firstByte t <> Some slash ->
  strings_HasSuffix t "/" = false ->
  forall line, strings_TrimSpace line = t ->
    gitignore_pattern line = Some ("**/" +:+ t).
Proof.
  intros Hne H1 H2 H3 Hsuf line Htrim. unfold gitignore_pattern. rewrite Htrim.
  cbv zeta. rewrite (proj2 (String.eqb_neq _ _) Hne).
  rewrite (HasPrefix_firstByte_false _ "#") by done.
  rewrite (HasPrefix_firstByte_false _ "!") by done.
  rewrite Hsuf. by rewrite (HasPrefix_firstByte_false _ "/") by done.
Qed.

(** X8: a line of literal text without leading or trailing slash becomes
    the glob of [**/] and the text, which matches exactly the paths that
    end with a slash and the text: the entry of that name in any directory
    beneath the walked root, and not the entry of that name in the root
    itself. *)
Theorem unrooted_line_matches_beneath (line t : string) :
  strings_TrimSpace line = t ->
  t <> "" ->
  firstByte t <> Some "#"%char -> firstByte t <> Some "!"%char ->
  firstByte t <> Some slash ->
  strings_HasSuffix t "/" = false ->
  literalText t = true ->
  forall path,
    ignored_by_glob (globsOfLine wildcard_Compile line) path = true
    <-> exists dir, path = dir +:+ "/" +:+ t.
Proof.
  intros Htrim Hne H1 H2 H3 Hsuf Hlit path.
  pose proof (unrooted_pattern t Hne H1 H2 H3 Hsuf line Htrim) as Hp.
  assert (Hc : wildcard_Compile ("**/" +:+ t) slash
               = Some {| Match := fun s =>
                           glob_match slash (GSuper :: map GText (to_bytes ("/" +:+ t)))
                             (to_bytes s) |}).
  { unfold wildcard_Compile.
    change (to_bytes ("**/" +:+ t))
      with ("*"%char :: "*"%char :: to_bytes ("/" +:+ t)).
    change (glob_lex ("*"%char :: "*"%char :: to_bytes ("/" +:+ t)))
      with (option_map (cons GSuper) (glob_lex (to_bytes ("/" +:+ t)))).
    rewrite glob_lex_literal; [done|]. by apply (literalText_app "/" t). }
  rewrite (ignored_by_single _ _ _ _ _ Hp Hc). cbn [Match].
  rewrite glob_match_super. split.
  - intros (before & rest & Heq & Hm).
    rewrite <- (app_nil_r (map GText _)), glob_match_text in Hm.
    destruct Hm as (rest' & -> & ->%glob_match_nil). rewrite app_nil_r in Heq.
    exists (of_bytes before). apply to_bytes_inj.
    by rewrite to_bytes_app, to_of_bytes.
  - intros [dir ->]. exists (to_bytes dir), (to_bytes ("/" +:+ t)).
    split; [by rewrite to_bytes_app|].
    rewrite <- (app_nil_r (map GText _)), glob_match_text. exists [].
    by rewrite app_nil_r.
Qed.

Lemma unrooted_line_matches_beneath_witness :
  ignored_by_glob (globsOfLine wildcard_Compile "notes.txt") "sub/notes.txt" = true
  <-> exists dir, "sub/notes.txt" = dir +:+ "/" +:+ "notes.txt".
Proof.
  apply (unrooted_line_matches_beneath "notes.txt" "notes.txt");
    try discriminate; vm_compute; reflexivity.
Defined.

(** X9: a line of literal text with a trailing slash and no leading one
    becomes the glob of [**/], the text and [/**], which matches exactly
    the paths that hold the text as a whole element with something before
    and a slash after it: what lies in a directory of that name, when the
    directory is not in the walked root itself. *)
Theorem directory_line_matches_within (line t : string) :
  strings_TrimSpace line = t +:+ "/" ->
  t <> "" ->
  firstByte t <> Some "#"%char -> firstByte t <> Some "!"%char ->
  firstByte t <> Some slash ->
  literalText t = true ->
  forall path,
    ignored_by_glob (globsOfLine wildcard_Compile line) path = true
    <-> exists before after, path = before +:+ "/" +:+ t +:+ "/" +:+ after.
Proof.
  intros Htrim Hne H1 H2 H3 Hlit path.
  assert (Hp : gitignore_pattern line = Some ("**/" +:+ (t +:+ "/") +:+ "**")).
  { unfold gitignore_pattern. rewrite Htrim. cbv zeta.
    rewrite (proj2 (String.eqb_neq _ _)) by (by apply app_not_empty_l).
    rewrite (HasPrefix_firstByte_false _ "#") by (by rewrite firstByte_app).
    rewrite (HasPrefix_firstByte_false _ "!") by (by rewrite firstByte_app).
    rewrite (HasSuffix_app t "/").
    rewrite (HasPrefix_firstByte_false _ "/");
      [done|by rewrite string_app_assoc, firstByte_app]. }
  assert (Hc : wildcard_Compile ("**/" +:+ (t +:+ "/") +:+ "**") slash
               = Some {| Match := fun s =>
                           glob_match slash
                             (GSuper :: map GText (to_bytes ("/" +:+ t +:+ "/"))
                              ++ [GSuper]) (to_bytes s) |}).
  { unfold wildcard_Compile.
    change (to_bytes ("**/" +:+ (t +:+ "/") +:+ "**"))
      with ("*"%char :: "*"%char :: to_bytes ("/" +:+ (t +:+ "/") +:+ "**")).
    change (glob_lex ("*"%char :: "*"%char :: to_bytes ("/" +:+ (t +:+ "/") +:+ "**")))
      with (option_map (cons GSuper)
              (glob_lex (to_bytes ("/" +:+ (t +:+ "/") +:+ "**")))).
    replace ("/" +:+ (t +:+ "/") +:+ "**") with (("/" +:+ t +:+ "/") +:+ "**")
      by (by rewrite !string_app_assoc).
    rewrite to_bytes_app, glob_lex_app_literal; [done|].
    apply (literalText_app "/" (t +:+ "/")); [done|]. by apply literalText_app. }
  rewrite (ignored_by_single _ _ _ _ _ Hp Hc). cbn [Match].
  rewrite glob_match_super. split.
  - intros (before & rest & Heq & Hm). rewrite glob_match_text in Hm.
    destruct Hm as (rest' & -> & _). exists (of_bytes before), (of_bytes rest').
    apply to_bytes_inj.
    rewrite Heq, !to_bytes_app, !to_of_bytes, <- !app_assoc. done.
  - intros (before & after & ->). exists (to_bytes before),
      (to_bytes ("/" +:+ t +:+ "/") ++ to_bytes after)%list. split.
    + rewrite !to_bytes_app, <- !app_assoc. done.
    + rewrite glob_match_text. exists (to_bytes after). split; [done|].
      apply glob_match_super. exists (to_bytes after), []. by rewrite app_nil_r.
Qed.

Lemma directory_line_matches_within_witness :
  ignored_by_glob (globsOfLine wildcard_Compile "docs/") "sub/docs/a.md" = true
  <-> exists before after, "sub/docs/a.md" = before +:+ "/" +:+ "docs" +:+ "/" +:+ after.
Proof.
  apply (directory_line_matches_within "docs/" "docs");
    try discriminate; vm_compute; reflexivity.
Defined.

(** ** What the walk admits *)

Lemma walkEntries_invariant {St}
    (fn : string -> option DirEntry -> option error -> St -> St * option WalkErr)
    (I : St -> Prop) (dirs : list DirEntry) :
  Forall (fun d => forall path st, I st -> I (fst (walkDir fn path d st))) dirs ->
  forall path st, I st -> I (fst (walkEntries fn path dirs st)).
Proof.
  induction dirs as [|d1 rest IH]; intros Hall path st Hst; [done|].
  apply Forall_cons in Hall as [H1 Hall]. cbn [walkEntries].
  specialize (H1 (filepath_Join path (Name d1)) st Hst).
  destruct (walkDir fn _ d1 st) as [st' [[]|]]; simpl in H1; [done|].
  by apply IH.
Qed.

(** What every call of the callback keeps, the walk keeps. *)
Lemma walkDir_invariant {St}
    (fn : string -> option DirEntry -> option error -> St -> St * option WalkErr)
    (I : St -> Prop) :
  (forall path d err st, I st -> I (fst (fn path d err st))) ->
  forall d path st, I st -> I (fst (walkDir fn path d st)).
Proof.
  intros Hfn. induction d as [n t dirs rderr IH] using DirEntry_ind.
  intros path st Hst. rewrite walkDir_unfold. cbv zeta.
  pose proof (Hfn path (Some (mkEntry n t dirs rderr)) None st Hst) as H1.
  destruct (fn path _ None st) as [st1 err]. simpl in H1.
  destruct (bool_decide (err ≠ None) || negb _); [done|].
  assert (H2 : I (fst (match rderr with
                       | Some e => fn path (Some (mkEntry n t dirs rderr)) (Some e) st1
                       | None => (st1, None)
                       end))).
  { destruct rderr; [by apply Hfn|done]. }
  destruct (match rderr with Some e => _ | None => _ end) as [st2 [[]|]];
    simpl in H2; [done|].
  by apply walkEntries_invariant.
Qed.

(** One call of the callback leaves the jobs as they are or appends the
    job of its path, which the filter includes. *)
Lemma walkFn_jobs sys rootPath filter maxDepth path d err st :
  fileJobs (fst (walkFn sys rootPath filter maxDepth path d err st)) = fileJobs st
  \/ exists rel,
       filepath_Rel rootPath path = Some rel
       /\ ShouldInclude filter rel = true
       /\ fileJobs (fst (walkFn sys rootPath filter maxDepth path d err st))
          = (fileJobs st ++ [{| fullPath := path; relPath := rel |}])%list.
Proof.
  assert (Hvisit : forall e st0, fileJobs st0 = fileJobs st ->
    fileJobs (fst (visitEntry rootPath filter maxDepth path e st0)) = fileJobs st
    \/ exists rel,
         filepath_Rel rootPath path = Some rel
         /\ ShouldInclude filter rel = true
         /\ fileJobs (fst (visitEntry rootPath filter maxDepth path e st0))
            = (fileJobs st ++ [{| fullPath := path; relPath := rel |}])%list).
  { intros e st0 Hst0. unfold visitEntry.
    destruct (filepath_Rel rootPath path) as [rel|]; [|by left].
    destruct (IsDir e).
    - left. destruct (negb (String.eqb rel ".")); [|done].
      destruct ((0 <? maxDepth) && (maxDepth <? strings_Count rel slash + 1)); [done|].
      by destruct (negb (ShouldInclude filter (rel +:+ "/dummy.go"))).
    - destruct (ShouldInclude filter rel) eqn:E; [|by left].
      right. exists rel. simpl. by rewrite Hst0. }
  unfold walkFn. destruct err as [e|]; [by left|]. destruct d as [d|]; [|by left].
  destruct (IsSymlink d); [|by apply Hvisit].
  destruct (filepath_EvalSymlinks sys path) as [realPath|e]; [|by left].
  destruct (map_true (visitedDirs st) realPath); [by left|].
  apply Hvisit. by destruct (os_Stat sys realPath) as [[? []]|].
Qed.

Lemma enumerate_admitted sys rootPath filter maxDepth lstat :
  Forall (admitted rootPath filter) (jobsOf sys rootPath filter maxDepth lstat).
Proof.
  set (I := fun st : walkState => Forall (admitted rootPath filter) (fileJobs st)).
  assert (Hfn : forall path d err st,
    I st -> I (fst (walkFn sys rootPath filter maxDepth path d err st))).
  { intros path d err st Hst. unfold I in *.
    destruct (walkFn_jobs sys rootPath filter maxDepth path d err st)
      as [->|(rel & Hrel & Hinc & ->)]; [done|].
    apply Forall_app. split; [done|]. apply Forall_singleton. by split. }
  assert (H0 : I initialWalk) by constructor.
  unfold jobsOf, enumerate, filepath_WalkDir. destruct lstat as [d|e].
  - pose proof (walkDir_invariant _ I Hfn d rootPath initialWalk H0) as H.
    by destruct (walkDir _ rootPath d initialWalk) as [st [[]|]].
  - pose proof (Hfn rootPath None (Some e) initialWalk H0) as H.
    by destruct (walkFn _ _ _ _ rootPath None (Some e) initialWalk) as [st [[]|]].
Qed.

(** X10: every record of a result is a file that the filter includes.
    It comes from a job of the walk whose relative path is what
    [filepath.Rel] gives for the path walked; its content is what
    [os.ReadFile] read there, and its language is [getLanguage] of its
    relative path. *)
Theorem Collect_records_admitted (sys : OS) (sched : list event) (rootPath : string)
    (lstat : result DirEntry) (filter : Filter) (maxDepth : Z)
    (maxFileSizeMB : float) (r : CollectionResult) (f : FileData) :
  Collect sys sched rootPath lstat filter maxDepth maxFileSizeMB = Some (Ok r) ->
  f ∈ Files r ->
  ShouldInclude filter (RelPath f) = true
  /\ Language f = getLanguage (RelPath f)
  /\ exists job,
       job ∈ jobsOf sys rootPath filter maxDepth lstat
       /\ filepath_Rel rootPath (fullPath job) = Some (RelPath f)
       /\ os_ReadFile sys (fullPath job) = Ok (Content f).
Proof.
  intros H Hf.
  destruct (Collect_file_from_job _ _ _ _ _ _ _ _ _ H Hf) as (job & Hjob & Hp).
  destruct (processJob_data _ _ _ _ Hp eq_refl)
    as (file & buf & rerr & info & content & _ & _ & _ & _ & _ & _ & Hread & Hd).
  simpl in Hd. subst f. cbn [RelPath Language Content].
  pose proof (enumerate_admitted sys rootPath filter maxDepth lstat) as Hall.
  rewrite Forall_forall in Hall. destruct (Hall job Hjob) as [Hrel Hinc].
  split; [done|]. split; [done|]. by exists job.
Qed.

Lemma Collect_records_admitted_witness :
  ShouldInclude defaultFilter "sub/c.md" = true
  /\ "markdown" = getLanguage "sub/c.md"
  /\ exists job,
       job ∈ jobsOf demoOS "/root" defaultFilter 0 (Ok demoTree)
       /\ filepath_Rel "/root" (fullPath job) = Some "sub/c.md"
       /\ os_ReadFile demoOS (fullPath job) = Ok ("# c" +:+ nl).
Proof.
  apply (Collect_records_admitted demoOS demoRun "/root" (Ok demoTree) defaultFilter 0
           noLimit demoResult
           {| RelPath := "sub/c.md"; Content := "# c" +:+ nl; Size := 4;
              Language := "markdown" |}).
  - vm_compute. reflexivity.
  - vm_compute. do 2 right. left.
Defined.

(** ** What a result holds *)

Lemma produced_to sys maxFileSizeMB jobs job f :
  job ∈ jobs -> yields sys maxFileSizeMB job f -> f ∈ produced sys maxFileSizeMB jobs.
Proof.
  unfold yields. induction jobs as [|j jobs IH]; [by intros ?%elem_of_nil|].
  rewrite produced_cons. intros [->|Hin]%elem_of_cons Hp; apply elem_of_app.
  - left. unfold sent. rewrite Hp. unfold okData. simpl. left.
  - right. by apply IH.
Qed.

(** X11: a result holds exactly the records that the workers send.  For a
    job of the walk, the record with its relative path is in the result
    when the worker of the job sends it, and no record has that path when
    the worker sends nothing or an error: a file that cannot be opened,
    read or measured is left out, and the call succeeds without it. *)
Theorem Collect_exact (sys : OS) (sched : list event) (rootPath : string)
    (lstat : result DirEntry) (filter : Filter) (maxDepth : Z)
    (maxFileSizeMB : float) (r : CollectionResult) (job : fileJob) :
  wellFormedRoot lstat = true ->
  Collect sys sched rootPath lstat filter maxDepth maxFileSizeMB = Some (Ok r) ->
  job ∈ jobsOf sys rootPath filter maxDepth lstat ->
  forall f, f ∈ Files r /\ RelPath f = relPath job <-> yields sys maxFileSizeMB job f.
Proof.
  intros Hwf H Hjob f. split.
  - intros [Hf Heq].
    destruct (Collect_file_from_job _ _ _ _ _ _ _ _ _ H Hf) as (job' & Hjob' & Hp).
    destruct (enumerate_root_distinct sys rootPath filter maxDepth lstat Hwf) as [Hnd _].
    assert (job' = job) as <-; [|done].
    eapply NoDup_relPath_inj; try done.
    rewrite <- Heq. symmetry. by eapply produced_RelPath.
  - intros Hp. split; [|by eapply produced_RelPath].
    rewrite Collect_gather in H. apply gather_Files in H. rewrite H.
    by eapply produced_to.
Qed.

Lemma Collect_exact_witness :
  {| RelPath := "b.py"; Content := "print(1)"; Size := 8; Language := "python" |}
    ∈ Files demoResult
  /\ "b.py" = "b.py"
  <-> yields demoOS noLimit {| fullPath := "/root/b.py"; relPath := "b.py" |}
        {| RelPath := "b.py"; Content := "print(1)"; Size := 8; Language := "python" |}.
Proof.
  apply (Collect_exact demoOS demoRun "/root" (Ok demoTree) defaultFilter 0 noLimit
           demoResult {| fullPath := "/root/b.py"; relPath := "b.py" |}).
  - vm_compute. reflexivity.
  - vm_compute. reflexivity.
  - vm_compute. right. left.
Defined.

(** ** A walk without jobs *)

Lemma run_no_jobs sys maxFileSizeMB sched : forall p,
  workers p = [] -> groupErr p = None -> resultsChan p = [] ->
  workers (foldl (step sys maxFileSizeMB []) p sched) = []
  /\ groupErr (foldl (step sys maxFileSizeMB []) p sched) = None
  /\ resultsChan (foldl (step sys maxFileSizeMB []) p sched) = [].
Proof.
  induction sched as [|ev sched IH]; intros p Hw Hg Hc; [done|].
  cbn [foldl]. apply IH; destruct ev as [deadline|i|i]; cbn [step];
    rewrite ?Hw; try done; by destruct (ctxErr p).
Qed.

Lemma gather_no_jobs sys sched maxFileSizeMB :
  gather sys sched maxFileSizeMB [] = Some (Ok emptyResult).
Proof.
  unfold gather, run.
  destruct (run_no_jobs sys maxFileSizeMB sched (initialPool (length (@nil fileJob))))
    as (Hw & Hg & Hc); try done.
  unfold allReturned. by rewrite Hw, Hg, Hc.
Qed.

(** X12: when the walk finds no file to collect, [Collect] returns the
    empty result on every run, also when the context of the caller is
    done from the start: no worker is there to look at it. *)
Theorem Collect_without_jobs (sys : OS) (rootPath : string)
    (lstat : result DirEntry) (filter : Filter) (maxDepth : Z)
    (maxFileSizeMB : float) :
  jobsOf sys rootPath filter maxDepth lstat = [] ->
  forall sched,
    Collect sys sched rootPath lstat filter maxDepth maxFileSizeMB
    = Some (Ok emptyResult).
Proof.
  intros Hjobs sched. rewrite Collect_gather. unfold jobsOf in Hjobs.
  rewrite Hjobs. apply gather_no_jobs.
Qed.

Lemma Collect_without_jobs_witness :
  Collect demoOS earlyCancel "/root" (Ok (directory "root" [regularFile "a.bin"]))
    defaultFilter 0 noLimit
  = Some (Ok emptyResult).
Proof.
  apply (Collect_without_jobs demoOS "/root" (Ok (directory "root" [regularFile "a.bin"]))
           defaultFilter 0 noLimit).
  vm_compute. reflexivity.
Defined.

(** X13: a root that [os.Lstat] cannot find is no error of [Collect].
    The callback answers the failure with [nil], the walk ends without a
    job, and the call returns the empty result. *)
Theorem Collect_unreadable_root (sys : OS) (sched : list event) (rootPath : string)
    (e : error) (filter : Filter) (maxDepth : Z) (maxFileSizeMB : float) :
  Collect sys sched rootPath (Err e) filter maxDepth maxFileSizeMB
  = Some (Ok emptyResult).
Proof. rewrite Collect_gather. apply gather_no_jobs. Qed.

(** ** Links that meet *)

Lemma symlink_not_dir d : IsSymlink d = true -> IsDir d = false.
Proof. unfold IsSymlink, IsDir. by destruct (Type_ d). Qed.

Lemma visitEntry_file rootPath filter maxDepth path d st :
  IsDir d = false ->
  snd (visitEntry rootPath filter maxDepth path d st) = None.
Proof.
  intros Hd. unfold visitEntry. rewrite Hd.
  destruct (filepath_Rel rootPath path) as [rel|]; [|done].
  by destruct (negb (ShouldInclude filter rel)).
Qed.

Lemma walkDir_file {St}
    (fn : string -> option DirEntry -> option error -> St -> St * option WalkErr)
    path d st :
  IsDir d = false ->
  walkDir fn path d st = fn path (Some d) None st.
Proof.
  intros Hd. destruct d as [n t dirs rderr]. rewrite walkDir_unfold. cbv zeta.
  destruct (fn path _ None st) as [st1 err]. rewrite Hd, orb_true_r.
  by destruct err as [[]|].
Qed.

(** A record of a real directory is never taken back. *)
Lemma walkFn_keeps_visited sys rootPath filter maxDepth (realPath : string)
    path d err st :
  map_true (visitedDirs st) realPath = true ->
  map_true (visitedDirs (fst (walkFn sys rootPath filter maxDepth path d err st)))
    realPath = true.
Proof.
  intros Hv. unfold walkFn. destruct err as [e|]; [done|]. destruct d as [d|]; [|done].
  destruct (IsSymlink d); [|by rewrite visitEntry_visitedDirs].
  destruct (filepath_EvalSymlinks sys path) as [real|e]; [|done].
  destruct (map_true (visitedDirs st) real); [done|].
  rewrite visitEntry_visitedDirs.
  destruct (os_Stat sys real) as [[size []]|e]; try done.
  cbn [info_IsDir with_visited visitedDirs]. unfold map_true in *.
  destruct (decide (real = realPath)) as [->|Hne].
  - by rewrite lookup_insert_eq.
  - by rewrite lookup_insert_ne.
Qed.

Lemma walkDir_keeps_visited sys rootPath filter maxDepth (realPath : string) path d st :
  map_true (visitedDirs st) realPath = true ->
  map_true (visitedDirs (fst (walkDir (walkFn sys rootPath filter maxDepth) path d st)))
    realPath = true.
Proof.
  apply (walkDir_invariant _ (fun st => map_true (visitedDirs st) realPath = true)).
  intros p e err st0. apply walkFn_keeps_visited.
Qed.

(** A link whose real path is recorded: the callback asks to skip, and
    the walk hands the request on, a link being no directory. *)
Lemma link_repeated sys rootPath filter maxDepth path b st (realPath : string) :
  IsSymlink b = true ->
  filepath_EvalSymlinks sys path = Ok realPath ->
  map_true (visitedDirs st) realPath = true ->
  walkDir (walkFn sys rootPath filter maxDepth) path b st = (st, Some SkipDir).
Proof.
  intros Hb Hreal Hseen. rewrite walkDir_file by (by apply symlink_not_dir).
  unfold walkFn. by rewrite Hb, Hreal, Hseen.
Qed.


(** A link to a real directory that is not recorded records it; the link
    is not visited as a directory, and the walk goes on. *)
Lemma link_recorded sys rootPath filter maxDepth path a st (realPath : string)
    (info : FileInfo) :
  IsSymlink a = true ->
  filepath_EvalSymlinks sys path = Ok realPath ->
  map_true (visitedDirs st) realPath = false ->
  os_Stat sys realPath = Ok info ->
  info_IsDir info = true ->
  exists st1,
    walkDir (walkFn sys rootPath filter maxDepth) path a st = (st1, None)
    /\ map_true (visitedDirs st1) realPath = true
    /\ dirVisits st1 = dirVisits st.
Proof.
  intros Ha Hreal Hseen Hstat Hdir. pose proof (symlink_not_dir a Ha) as Hna.
  rewrite walkDir_file by done. unfold walkFn. rewrite Ha, Hreal, Hseen, Hstat, Hdir.
  pose proof (visitEntry_file rootPath filter maxDepth path a
                (with_visited st realPath) Hna) as Hnone.
  pose proof (visitEntry_visitedDirs rootPath filter maxDepth path a
                (with_visited st realPath)) as Hvis.
  assert (Hlog : dirVisits (fst (visitEntry rootPath filter maxDepth path a
                                   (with_visited st realPath))) = dirVisits st).
  { unfold visitEntry. rewrite Hna.
    destruct (filepath_Rel rootPath path) as [rel|]; [|done].
    by destruct (negb (ShouldInclude filter rel)). }
  destruct (visitEntry rootPath filter maxDepth path a _) as [st1 err].
  simpl in Hnone, Hvis, Hlog. subst err. exists st1. split; [done|]. split; [|done].
  unfold map_true. rewrite Hvis. cbn [with_visited visitedDirs].
  by rewrite lookup_insert_eq.
Qed.

(** Once a real directory is recorded, a link to it further down the
    listing ends the walk of the listing. *)
Lemma later_link_ends_listing sys rootPath filter maxDepth path
    (mid : list DirEntry) (b : DirEntry) (rest : list DirEntry) (realPath : string) :
  IsSymlink b = true ->
  filepath_EvalSymlinks sys (filepath_Join path (Name b)) = Ok realPath ->
  forall st, map_true (visitedDirs st) realPath = true ->
    walkEntries (walkFn sys rootPath filter maxDepth) path (mid ++ b :: rest) st
    = walkEntries (walkFn sys rootPath filter maxDepth) path (mid ++ [b]) st.
Proof.
  intros Hb Hreal. induction mid as [|d mid IH]; intros st Hseen.
  - cbn [app walkEntries]. by rewrite (link_repeated _ _ _ _ _ b st realPath).
  - cbn [app walkEntries].
    pose proof (walkDir_keeps_visited sys rootPath filter maxDepth realPath
                  (filepath_Join path (Name d)) d st Hseen) as Hkept.
    destruct (walkDir _ _ d st) as [st' [[]|]]; [done|]. by apply IH.
Qed.

(** X14: two links of one directory that resolve to the same real
    directory end the walk of that directory, wherever the two stand in
    the listing and whatever is listed before and between them.  The first
    records the real directory, the record is kept while the entries
    between the two are walked, the callback answers the second with
    [SkipDir], and [filepath.WalkDir] takes [SkipDir] on an entry that is
    no directory as the order to skip what is left of the parent: the
    entries listed after the second link are never visited. *)
Theorem second_link_ends_listing (sys : OS) (rootPath : string) (filter : Filter)
    (maxDepth : Z) (path : string) (pre : list DirEntry) (a : DirEntry)
    (mid : list DirEntry) (b : DirEntry) (rest : list DirEntry)
    (st : walkState) (realPath : string) (info : FileInfo) :
  IsSymlink a = true ->
  IsSymlink b = true ->
  filepath_EvalSymlinks sys (filepath_Join path (Name a)) = Ok realPath ->
  filepath_EvalSymlinks sys (filepath_Join path (Name b)) = Ok realPath ->
  os_Stat sys realPath = Ok info ->
  info_IsDir info = true ->
  walkEntries (walkFn sys rootPath filter maxDepth) path
    (pre ++ a :: mid ++ b :: rest) st
  = walkEntries (walkFn sys rootPath filter maxDepth) path
      (pre ++ a :: mid ++ [b]) st.
Proof.
  intros Ha Hb Hra Hrb Hstat Hdir. revert st.
  induction pre as [|d pre IH]; intros st.
  - cbn [app walkEntries].
    destruct (map_true (visitedDirs st) realPath) eqn:Hseen.
    + by rewrite (link_repeated _ _ _ _ _ a st realPath).
    + destruct (link_recorded sys rootPath filter maxDepth (filepath_Join path (Name a))
                  a st realPath info Ha Hra Hseen Hstat Hdir) as (st1 & -> & Hrec & _).
      by apply (later_link_ends_listing _ _ _ _ _ mid b rest realPath).
  - cbn [app walkEntries].
    destruct (walkDir _ _ d st) as [st' [[]|]]; [done|]. apply IH.
Qed.

Lemma second_link_ends_listing_witness :
  walkEntries (walkFn demoOS "/root" defaultFilter 0) "/root/sub" linkedListing
    initialWalk
  = walkEntries (walkFn demoOS "/root" defaultFilter 0) "/root/sub"
      [symlink "again"; regularFile "c.md"; symlink "loop"] initialWalk.
Proof.
  apply (second_link_ends_listing demoOS "/root" defaultFilter 0 "/root/sub"
           [] (symlink "again") [regularFile "c.md"] (symlink "loop")
           [regularFile "z.md"] initialWalk "/root"
           {| info_Size := 4096; info_IsDir := true |}); vm_compute; reflexivity.
Defined.

(** ** The probe of a directory *)

Lemma Ext_dummy (rel : string) : filepath_Ext (rel +:+ "/dummy.go") = ".go".
Proof.
  unfold filepath_Ext. rewrite to_bytes_app, rev_app_distr.
  change (rev (to_bytes "/dummy.go"))
    with ["o"; "g"; "."; "y"; "m"; "m"; "u"; "d"; "/"]%char.
  reflexivity.
Qed.

(** The probe [relPath + "/dummy.go"] is refused by a filter that does
    not allow the extension [.go]. *)
Lemma ShouldInclude_dummy (filter : Filter) (rel : string) :
  map_true (allowedExts filter) ".go" = false ->
  ShouldInclude filter (rel +:+ "/dummy.go") = false.
Proof.
  intros Hgo. unfold ShouldInclude, filepath_ToSlash. cbv zeta.
  destruct (excluded_by_pattern _ _); [done|].
  destruct (respectGitignore filter && ignored_by_glob _ _); [done|].
  rewrite Ext_dummy. change (String.eqb ".go" "") with false. cbv iota.
  by rewrite Hgo.
Qed.

Lemma walkDir_refused (sys : OS) (rootPath : string) (filter : Filter)
    (maxDepth : Z) (path : string) (d : DirEntry) (st : walkState) (rel : string) :
  IsDir d = true ->
  filepath_Rel rootPath path = Some rel ->
  rel <> "." ->
  ShouldInclude filter (rel +:+ "/dummy.go") = false ->
  fileJobs (fst (walkDir (walkFn sys rootPath filter maxDepth) path d st))
  = fileJobs st.
Proof.
  intros Hdir Hrel Hne Hno.
  destruct d as [n t dirs rderr]. unfold IsDir in Hdir. cbn [Type_] in Hdir.
  destruct t; try done.
  cbn [walkDir]. unfold walkFn, visitEntry, IsSymlink, IsDir. cbn [Type_].
  rewrite Hrel. apply String.eqb_neq in Hne. rewrite Hne, Hno. cbn [negb].
  by destruct ((0 <? maxDepth) && (maxDepth <? strings_Count rel slash + 1)).
Qed.

Lemma no_slash_Count (s : string) : slash ∉ to_bytes s -> strings_Count s slash = 0.
Proof.
  induction s as [|a s IH]; [done|]. unfold to_bytes. simpl.
  intros [Ha Hs]%not_elem_of_cons. destruct (Ascii.eqb_spec a slash); [done|].
  by apply IH.
Qed.

Lemma validName_topLevel (n : string) : validName n = true -> topLevel n.
Proof. intros (_ & _ & H)%validName_spec. by apply no_slash_Count. Qed.

Lemma walkFn_topLevel sys rootPath filter maxDepth path rel d err st :
  filepath_Rel rootPath path = Some rel -> topLevel rel ->
  Forall (fun j => topLevel (relPath j)) (fileJobs st) ->
  Forall (fun j => topLevel (relPath j))
    (fileJobs (fst (walkFn sys rootPath filter maxDepth path d err st))).
Proof.
  intros Hrel Htop Hst.
  destruct (walkFn_jobs sys rootPath filter maxDepth path d err st)
    as [->|(rel' & Hrel' & _ & ->)]; [done|].
  apply Forall_app. split; [done|]. apply Forall_singleton. simpl. congruence.
Qed.

Lemma enumerate_topLevel sys rootPath filter maxDepth lstat :
  map_true (allowedExts filter) ".go" = false ->
  wellFormedRoot lstat = true ->
  Forall (fun j => topLevel (relPath j)) (jobsOf sys rootPath filter maxDepth lstat).
Proof.
  intros Hgo Hwf. unfold jobsOf, enumerate, filepath_WalkDir.
  destruct lstat as [d|e]; [|constructor].
  assert (Hroot : filepath_Rel rootPath rootPath = Some ".").
  { apply (Rel_pathOf rootPath []). constructor. }
  assert (H : Forall (fun j => topLevel (relPath j))
                (fileJobs (fst (walkDir (walkFn sys rootPath filter maxDepth) rootPath d
                                  initialWalk)))).
  { destruct d as [n t dirs rderr]. cbn [wellFormedRoot] in Hwf.
    apply (wellFormed_spec n t dirs rderr) in Hwf as (_ & Hval & _).
    rewrite walkDir_unfold. cbv zeta.
    pose proof (walkFn_topLevel sys rootPath filter maxDepth rootPath "."
                  (Some (mkEntry n t dirs rderr)) None initialWalk Hroot eq_refl
                  ltac:(constructor)) as H1.
    destruct (walkFn sys rootPath filter maxDepth rootPath _ None initialWalk)
      as [st1 err]. simpl in H1.
    destruct (bool_decide (err ≠ None) || negb _); [done|].
    assert (Hst2 : (match rderr with
                    | Some e => walkFn sys rootPath filter maxDepth rootPath
                                  (Some (mkEntry n t dirs rderr)) (Some e) st1
                    | None => (st1, None)
                    end) = (st1, None)) by (by destruct rderr).
    rewrite Hst2. clear Hst2. revert st1 H1.
    induction dirs as [|d1 rest IH]; intros st1 H1; [done|].
    apply Forall_cons in Hval as [Hv1 Hval]. cbn [walkEntries].
    assert (Hrel1 : filepath_Rel rootPath (filepath_Join rootPath (Name d1))
                    = Some (Name d1)).
    { apply (Rel_pathOf rootPath [Name d1]). by apply Forall_singleton. }
    assert (H2 : Forall (fun j => topLevel (relPath j))
                   (fileJobs (fst (walkDir (walkFn sys rootPath filter maxDepth)
                                     (filepath_Join rootPath (Name d1)) d1 st1)))).
    { destruct (IsDir d1) eqn:Ed1.
      - rewrite (walkDir_refused sys rootPath filter maxDepth _ d1 st1 (Name d1));
          try done.
        + by apply validName_spec in Hv1 as (_ & ? & _).
        + by apply ShouldInclude_dummy.
      - rewrite walkDir_file by done.
        apply (walkFn_topLevel _ _ _ _ _ (Name d1)); try done.
        by apply validName_topLevel. }
    destruct (walkDir _ _ d1 st1) as [st' [[]|]]; simpl in H2; [done|].
    by apply IH. }
  by destruct (walkDir _ rootPath d initialWalk) as [st [[]|]].
Qed.

(** X15: every directory beneath the root is probed with the path
    [relPath + "/dummy.go"].  A filter whose extensions do not hold [.go]
    refuses the probe, so every such directory is skipped: the records of
    a result are files of the root directory itself. *)
Theorem without_go_only_top_level (sys : OS) (sched : list event) (rootPath : string)
    (lstat : result DirEntry) (filter : Filter) (maxDepth : Z)
    (maxFileSizeMB : float) (r : CollectionResult) :
  map_true (allowedExts filter) ".go" = false ->
  wellFormedRoot lstat = true ->
  Collect sys sched rootPath lstat filter maxDepth maxFileSizeMB = Some (Ok r) ->
  forall f, f ∈ Files r -> topLevel (RelPath f).
Proof.
  intros Hgo Hwf H f Hf.
  destruct (Collect_file_from_job _ _ _ _ _ _ _ _ _ H Hf) as (job & Hjob & Hp).
  rewrite (produced_RelPath _ _ _ _ Hp).
  pose proof (enumerate_topLevel sys rootPath filter maxDepth lstat Hgo Hwf) as Hall.
  rewrite Forall_forall in Hall. by apply Hall.
Qed.

Lemma without_go_only_top_level_witness :
  Collect pythonOS (sequential 1) "/root" (Ok pythonTree) pythonFilter 0 noLimit
  = Some (Ok pythonResult)
  /\ forall f, f ∈ Files pythonResult -> topLevel (RelPath f).
Proof.
  assert (H : Collect pythonOS (sequential 1) "/root" (Ok pythonTree) pythonFilter 0
                noLimit = Some (Ok pythonResult)) by (vm_compute; reflexivity).
  split; [exact H|].
  apply (without_go_only_top_level pythonOS (sequential 1) "/root" (Ok pythonTree)
           pythonFilter 0 noLimit pythonResult).
  - vm_compute. reflexivity.
  - vm_compute. reflexivity.
  - exact H.
Defined.

(** ** The language of an included file *)

(** X16: a path that a filter with the default extensions includes has a
    language: each default extension is a key of the language table, and
    each conventional name without extension is a key of the table of
    names.  The fence of such a file is never without its tag. *)
Theorem default_included_has_language (compile : string -> option Regexp)
    (customExcludes : list string) (respect tests : bool) (path : string) :
  ShouldInclude (NewFilter compile [] customExcludes respect tests) path = true ->
  getLanguage path <> "".
Proof.
  set (f := NewFilter compile [] customExcludes respect tests).
  unfold ShouldInclude, getLanguage, filepath_ToSlash. cbv zeta.
  destruct (excluded_by_pattern (excludePatterns f) path); [done|].
  destruct (respectGitignore f && ignored_by_glob (gitignoreGlobs f) path); [done|].
  destruct (String.eqb (filepath_Ext path) "").
  - rewrite commonNoExtFiles_names. intros Hin%bool_decide_eq_true.
    unfold conventionalNames in Hin.
    repeat (apply elem_of_cons in Hin as [->|Hin]; [by vm_compute|]).
    by apply elem_of_nil in Hin.
  - destruct (map_true (allowedExts f) (filepath_Ext path)) eqn:Hext; [|done].
    intros _. unfold f, NewFilter in Hext. cbn [allowedExts] in Hext.
    apply (foldl_insert_true (fun x => x) defaultExts ∅ (filepath_Ext path)) in Hext.
    destruct Hext as [Hext|(x & Hin & <-)]; [done|].
    unfold defaultExts in Hin.
    repeat (apply elem_of_cons in Hin as [->|Hin]; [by vm_compute|]).
    by apply elem_of_nil in Hin.
Qed.

Lemma default_included_has_language_witness : getLanguage "cmd/main.go" <> "".
Proof.
  apply (default_included_has_language fragment_Compile [] true false "cmd/main.go").
  vm_compute. reflexivity.
Defined.

Lemma ext_scan_stops (l r acc : list ascii) :
  slash ∉ l -> ext_scan (l ++ slash :: r) acc = ext_scan l acc.
Proof.
  revert acc. induction l as [|c l IH]; intros acc Hl.
  - cbn [app ext_scan]. by rewrite Ascii.eqb_refl.
  - apply not_elem_of_cons in Hl as [Hc Hl]. cbn [app ext_scan].
    destruct (Ascii.eqb c slash); [done|]. destruct (Ascii.eqb c dot); [done|].
    by apply IH.
Qed.

Lemma until_slash_stops (l r : list ascii) :
  slash ∉ l -> until_slash (l ++ slash :: r) = l.
Proof.
  induction l as [|c l IH]; intros Hl.
  - cbn [app until_slash]. by rewrite Ascii.eqb_refl.
  - apply not_elem_of_cons in Hl as [Hc Hl]. cbn [app until_slash].
    destruct (Ascii.eqb_spec c slash) as [->|_]; [done|]. by rewrite IH.
Qed.

Lemma until_slash_none (l : list ascii) : slash ∉ l -> until_slash l = l.
Proof.
  induction l as [|c l IH]; intros Hl; [done|].
  apply not_elem_of_cons in Hl as [Hc Hl]. cbn [until_slash].
  destruct (Ascii.eqb_spec c slash) as [->|_]; [done|]. by rewrite IH.
Qed.

Lemma drop_slashes_none (l : list ascii) : slash ∉ l -> drop_slashes l = l.
Proof.
  destruct l as [|c l]; [done|]. intros [Hc _]%not_elem_of_cons. cbn [drop_slashes].
  by destruct (Ascii.eqb_spec c slash) as [->|_].
Qed.

Lemma not_elem_of_rev (c : ascii) (l : list ascii) : c ∉ l -> c ∉ rev l.
Proof.
  intros H Hin. apply H. apply list_elem_of_In, in_rev. by apply list_elem_of_In.
Qed.

Lemma Ext_of_name (dir name : string) :
  validName name = true ->
  filepath_Ext (dir +:+ "/" +:+ name) = filepath_Ext name.
Proof.
  intros (_ & _ & Hns)%validName_spec. unfold filepath_Ext.
  rewrite !to_bytes_app, !rev_app_distr. change (rev (to_bytes "/")) with [slash].
  rewrite <- app_assoc. cbn [app]. rewrite ext_scan_stops; [done|].
  by apply not_elem_of_rev.
Qed.

Lemma Base_name (name : string) : validName name = true -> filepath_Base name = name.
Proof.
  intros (Hne & _ & Hns)%validName_spec. unfold filepath_Base.
  destruct name as [|c s] eqn:E; [done|]. rewrite <- E in *.
  assert (Hrev : slash ∉ rev (to_bytes name)) by (by apply not_elem_of_rev).
  rewrite drop_slashes_none, until_slash_none by done.
  destruct (rev (to_bytes name)) as [|x l] eqn:Er.
  - apply (f_equal (@rev ascii)) in Er. rewrite rev_involutive in Er.
    by apply to_bytes_nil in Er.
  - rewrite <- Er, rev_involutive. apply of_to_bytes.
Qed.

Lemma Base_of_name (dir name : string) :
  validName name = true -> filepath_Base (dir +:+ "/" +:+ name) = name.
Proof.
  intros Hv. pose proof Hv as (Hne & _ & Hns)%validName_spec. unfold filepath_Base.
  destruct (dir +:+ "/" +:+ name) as [|c s] eqn:E.
  { exfalso. by apply (app_not_empty_r dir ("/" +:+ name)). }
  rewrite <- E. clear E c s.
  assert (Hrev : slash ∉ rev (to_bytes name)) by (by apply not_elem_of_rev).
  rewrite !to_bytes_app, !rev_app_distr. change (rev (to_bytes "/")) with [slash].
  rewrite <- app_assoc. cbn [app].
  destruct (rev (to_bytes name)) as [|x l] eqn:Er.
  { apply (f_equal (@rev ascii)) in Er. rewrite rev_involutive in Er.
    by apply to_bytes_nil in Er. }
  assert (Hx : x <> slash).
  { intros ->. apply Hrev. left. }
  cbn [app drop_slashes]. destruct (Ascii.eqb_spec x slash) as [->|_]; [done|].
  change (x :: (l ++ slash :: rev (to_bytes dir)))%list
    with ((x :: l) ++ slash :: rev (to_bytes dir))%list.
  rewrite until_slash_stops by done. rewrite <- Er, rev_involutive. apply of_to_bytes.
Qed.

(** X17: the language of a record depends on the name of the file alone.
    For a file [name] in any directory, [filepath.Base] gives [name],
    [filepath.Ext] gives the extension of [name], and [getLanguage]
    answers as it does for [name]. *)
Theorem getLanguage_of_name (dir name : string) :
  validName name = true ->
  getLanguage (dir +:+ "/" +:+ name) = getLanguage name
  /\ filepath_Base (dir +:+ "/" +:+ name) = name
  /\ filepath_Ext (dir +:+ "/" +:+ name) = filepath_Ext name.
Proof.
  intros Hv. unfold getLanguage. cbv zeta.
  rewrite Ext_of_name, Base_of_name, Base_name by done. done.
Qed.

Lemma getLanguage_of_name_witness :
  getLanguage ("src/pkg" +:+ "/" +:+ "Makefile") = getLanguage "Makefile"
  /\ filepath_Base ("src/pkg" +:+ "/" +:+ "Makefile") = "Makefile"
  /\ filepath_Ext ("src/pkg" +:+ "/" +:+ "Makefile") = filepath_Ext "Makefile".
Proof. apply (getLanguage_of_name "src/pkg" "Makefile"). vm_compute. reflexivity. Defined.

(** ** The count of lines *)

Lemma Count_app (a b : string) (c : ascii) :
  strings_Count (a +:+ b) c = strings_Count a c + strings_Count b c.
Proof.
  induction a as [|x a IH]; [done|]. rewrite string_app_cons. simpl.
  rewrite IH. destruct (Ascii.eqb x c); lia.
Qed.

Lemma length_zero_empty (s : string) : (0 <? String.length s)%nat = false -> s = "".
Proof. destruct s; [done|]. simpl. discriminate. Qed.

Lemma countLoop_ending (last : string) (e : error) (cs : list string) :
  forall (c0 : Z) (firstChunk : bool),
    (firstChunk = true ->
     bytes_Contains (firstBytes (readsEnding cs last e)) NUL = false) ->
    countLoop (readsEnding cs last e) (wrap64 c0) firstChunk
    = Some (wrap64 (c0 + strings_Count (delivered (readsEnding cs last e)) LF),
            reported e).
Proof.
  unfold readsEnding.
  induction cs as [|c cs IH]; intros c0 firstChunk Hnul.
  - cbn [map app countLoop delivered foldr fst]. cbv zeta.
    rewrite string_app_nil_r.
    destruct (0 <? String.length last)%nat eqn:Hlen.
    + assert (Hno : firstChunk && bytes_Contains last NUL = false).
      { destruct firstChunk; [|done]. specialize (Hnul eq_refl).
        unfold firstBytes in Hnul. cbn [map app List.filter fst] in Hnul.
        by rewrite Hlen in Hnul. }
      cbn [andb]. rewrite Hno, add64_wrap64. by destruct e.
    + apply length_zero_empty in Hlen as ->. cbn [andb strings_Count].
      rewrite Z.add_0_r. by destruct e.
  - cbn [map app countLoop delivered foldr fst]. cbv zeta.
    fold (delivered (map (fun chunk => (chunk, None)) cs ++ [(last, Some e)])).
    rewrite Count_app.
    destruct (0 <? String.length c)%nat eqn:Hlen.
    + assert (Hno : firstChunk && bytes_Contains c NUL = false).
      { destruct firstChunk; [|done]. specialize (Hnul eq_refl).
        unfold firstBytes in Hnul. cbn [map app List.filter fst] in Hnul.
        by rewrite Hlen in Hnul. }
      cbn [andb]. rewrite Hno, add64_wrap64, IH by done. by rewrite Z.add_assoc.
    + pose proof (length_zero_empty c Hlen) as ->. cbn [andb strings_Count].
      rewrite IH; [done|]. intros Hf. specialize (Hnul Hf).
      unfold firstBytes in *. cbn [map app List.filter fst] in Hnul.
      by rewrite Hlen in Hnul.
Qed.

(** X18: [CountLines] counts the line feeds of what the reads deliver,
    however the reads cut the file into pieces.  When the first read that
    delivers a byte delivers no NUL byte, and the reads succeed up to one
    that reports the end of the file or fails, the count is the number of
    line feeds of all the bytes, that last read included, in the
    arithmetic of [int]; the end of the file is no error, a failure is
    returned with the count.  A NUL byte in a later read changes nothing,
    and a last line without line feed is not counted. *)
Theorem countLoop_counts (chunks : list string) (last : string) (e : error) :
  bytes_Contains (firstBytes (readsEnding chunks last e)) NUL = false ->
  countLoop (readsEnding chunks last e) 0 true
  = Some (wrap64 (strings_Count (delivered (readsEnding chunks last e)) LF),
          reported e).
Proof.
  intros Hnul. change 0 with (wrap64 0) at 1.
  by rewrite (countLoop_ending last e chunks 0 true).
Qed.

Lemma countLoop_counts_witness :
  countLoop (readsEnding ["a" +:+ nl +:+ "b"; String NUL nl] "c" io_EOF) 0 true
  = Some (wrap64 (strings_Count
                    (delivered (readsEnding ["a" +:+ nl +:+ "b"; String NUL nl] "c" io_EOF))
                    LF),
          reported io_EOF).
Proof.
  apply (countLoop_counts ["a" +:+ nl +:+ "b"; String NUL nl] "c" io_EOF).
  vm_compute. reflexivity.
Defined.

Lemma first_bytes_take (n : nat) (s : string) :
  first_bytes n s = of_bytes (take n (to_bytes s)).
Proof.
  unfold first_bytes. revert s. induction n as [|n IH]; intros [|c s]; try done.
  simpl. by rewrite IH.
Qed.

Lemma of_bytes_app (l1 l2 : list ascii) :
  of_bytes (l1 ++ l2) = of_bytes l1 +:+ of_bytes l2.
Proof.
  apply to_bytes_inj. by rewrite to_bytes_app, !to_of_bytes.
Qed.

Lemma chunks_delivered (n : nat) (Hn : (0 < n)%nat) (fuel : nat) :
  forall l : list ascii, (length l <= fuel)%nat ->
    foldr (fun chunk text => chunk +:+ text) "" (chunks fuel n l) = of_bytes l.
Proof.
  induction fuel as [|fuel IH]; intros l Hl.
  - destruct l; [done|]. simpl in Hl. lia.
  - destruct l as [|c l]; [done|]. cbn [chunks foldr].
    rewrite IH.
    + by rewrite <- of_bytes_app, take_drop.
    + rewrite length_drop. simpl in *. lia.
Qed.

Lemma delivered_readsEnding (cs : list string) (last : string) (e : error) :
  delivered (readsEnding cs last e)
  = foldr (fun chunk text => chunk +:+ text) "" cs +:+ last.
Proof.
  unfold delivered, readsEnding. induction cs as [|c cs IH].
  - simpl. by rewrite string_app_nil_r.
  - cbn [map app foldr fst]. by rewrite IH, string_app_assoc.
Qed.

Lemma length_to_bytes (s : string) : length (to_bytes s) = String.length s.
Proof. induction s as [|c s IH]; [done|]. unfold to_bytes in *. simpl. by rewrite IH. Qed.

Lemma length_of_bytes (l : list ascii) : String.length (of_bytes l) = length l.
Proof. by rewrite <- length_to_bytes, to_of_bytes. Qed.

Lemma bufferSize_pos : (0 < bufferSize)%nat.
Proof. unfold bufferSize. lia. Qed.

(** The first read of a regular file that is not empty. *)
Lemma regular_first_read (n : nat) (s : string) :
  (0 < n)%nat -> s <> "" ->
  (0 <? String.length (first_bytes n s))%nat = true
  /\ exists rest,
       chunks (String.length s) n (to_bytes s) = first_bytes n s :: rest.
Proof.
  intros Hn Hs. destruct s as [|c data]; [done|]. destruct n as [|n]; [lia|].
  rewrite first_bytes_take. split.
  - by rewrite length_of_bytes.
  - cbn [String.length chunks]. change (to_bytes (String c data)) with (c :: to_bytes data).
    by eexists.
Qed.

(** X19: [CountLines] on a regular file.  When the first 32768 bytes hold
    a NUL byte the answer is zero lines and no error; otherwise it is the
    number of line feeds of the whole file, in the arithmetic of [int],
    and no error.  A NUL byte after the first 32768 bytes is not seen. *)
Theorem CountLines_regular (sys : OS) (filePath : string) (data : string) :
  os_Open sys filePath = Ok (RegularFile data) ->
  CountLines sys filePath
  = Some (if bytes_Contains (first_bytes bufferSize data) NUL then 0
          else wrap64 (strings_Count data LF),
          None).
Proof.
  intros Hopen. unfold CountLines. rewrite Hopen. cbn [File_reads].
  pose proof bufferSize_pos as Hpos. generalize dependent bufferSize. intros n Hn.
  fold (readsEnding (chunks (String.length data) n (to_bytes data)) "" io_EOF).
  destruct (decide (data = "")) as [->|Hne].
  { by destruct n. }
  destruct (regular_first_read n data Hn Hne) as [Hlen [rest Hrest]].
  destruct (bytes_Contains (first_bytes n data) NUL) eqn:Hnul.
  - rewrite Hrest. unfold readsEnding. cbn [map app countLoop]. cbv zeta.
    by rewrite Hlen, Hnul.
  - change 0 with (wrap64 0) at 1. rewrite countLoop_ending.
    + rewrite delivered_readsEnding, string_app_nil_r.
      rewrite chunks_delivered; [|done|by rewrite length_to_bytes].
      by rewrite of_to_bytes.
    + intros _. rewrite Hrest. unfold firstBytes, readsEnding.
      cbn [map app List.filter fst]. by rewrite Hlen.
Qed.

Lemma CountLines_regular_witness :
  CountLines demoOS "/root/sub/c.md"
  = Some (if bytes_Contains (first_bytes bufferSize ("# c" +:+ nl)) NUL then 0
          else wrap64 (strings_Count ("# c" +:+ nl) LF),
          None).
Proof.
  apply (CountLines_regular demoOS "/root/sub/c.md" ("# c" +:+ nl)).
  vm_compute. reflexivity.
Defined.

Lemma Contains_take (n : nat) (s : string) (c : ascii) :
  bytes_Contains s c = false -> bytes_Contains (first_bytes n s) c = false.
Proof.
  rewrite first_bytes_take. unfold bytes_Contains. rewrite to_of_bytes.
  intros H. destruct (existsb (Ascii.eqb c) (take n (to_bytes s))) eqn:E; [|done].
  apply existsb_exists in E as (x & Hin & Hx).
  assert (existsb (Ascii.eqb c) (to_bytes s) = true); [|congruence].
  apply existsb_exists. exists x. split; [|done].
  apply list_elem_of_In. apply list_elem_of_In in Hin.
  rewrite <- (take_drop n (to_bytes s)). apply elem_of_app. by left.
Qed.

(** X20: the two tests for binary content look at different lengths.  A
    regular file whose first NUL byte lies after the first 8192 bytes and
    within the first 32768 is text for [isBinaryFile], so [Collect] keeps
    it, and binary for [CountLines], which reports zero lines. *)
Theorem binary_tests_disagree (sys : OS) (filePath : string) (a b : string) :
  os_Open sys filePath = Ok (RegularFile (a +:+ String NUL b)) ->
  bytes_Contains a NUL = false ->
  (bufSize <= String.length a < bufferSize)%nat ->
  isBinaryFile sys filePath = (false, None)
  /\ CountLines sys filePath = Some (0, None).
Proof.
  intros Hopen Hnul [Hlo Hhi].
  assert (Hsmall : (0 < bufSize)%nat) by (unfold bufSize; lia).
  pose proof bufferSize_pos as Hbig.
  set (s := a +:+ String NUL b) in *.
  assert (Hne : s <> "") by (unfold s; by destruct a).
  split.
  - unfold isBinaryFile. rewrite Hopen.
    assert (Hread : File_Read (RegularFile s) bufSize = (first_bytes bufSize a, None)).
    { destruct s as [|c data] eqn:Es; [done|]. cbn [File_Read]. f_equal.
      rewrite <- Es. unfold s. rewrite !first_bytes_take, to_bytes_app.
      by rewrite take_app_le by (rewrite length_to_bytes; lia). }
    rewrite Hread. rewrite bool_decide_eq_false_2 by (by intros []).
    cbn [andb]. f_equal. by apply Contains_take.
  - unfold CountLines. rewrite Hopen. cbn [File_reads].
    destruct (regular_first_read bufferSize s Hbig Hne) as [Hlen [rest ->]].
    cbn [map app countLoop]. cbv zeta.
    assert (Hin : bytes_Contains (first_bytes bufferSize s) NUL = true).
    { rewrite first_bytes_take. unfold bytes_Contains, s.
      rewrite to_of_bytes, to_bytes_app.
      rewrite take_app_ge by (rewrite length_to_bytes; lia).
      rewrite existsb_app. apply orb_true_iff. right.
      rewrite length_to_bytes.
      destruct (bufferSize - String.length a)%nat as [|k] eqn:Ek; [lia|].
      change (to_bytes (String NUL b)) with (NUL :: to_bytes b).
      cbn [take existsb]. by rewrite Ascii.eqb_refl. }
    by rewrite Hlen, Hin.
Qed.

Lemma binary_tests_disagree_witness :
  isBinaryFile lateNulOS "/late.txt" = (false, None)
  /\ CountLines lateNulOS "/late.txt" = Some (0, None).
Proof.
  apply (binary_tests_disagree lateNulOS "/late.txt" (repeated bufSize "a") ("b" +:+ nl)).
  - vm_compute. reflexivity.
  - vm_compute. reflexivity.
  - split; [apply Nat.leb_le|apply Nat.ltb_lt]; vm_compute; reflexivity.
Defined.

(** ** [filepath.Clean] and [filepath.Dir] on examples *)

Example Clean_examples :
  map filepath_Clean ["a//b/./c/.."; "/../a"; ""; "abc/"; "../../a"; "/"; "a/../..";
                      "//"; "./"; "/a/b/../../.."; "a/b/../../../c"; "/usr/"]
  = ["a/b"; "/a"; "."; "abc"; "../../a"; "/"; ".."; "/"; "."; "/"; "../c"; "/usr"].
Proof. vm_compute. reflexivity. Qed.

Example Dir_examples :
  map filepath_Dir ["/a/b"; "/a"; "a"; "/a/b/"; ""; "/"; "a/b"; "/home/alice"]
  = ["/a"; "/"; "."; "/a/b"; "."; "/"; "a"; "/home"].
Proof. vm_compute. reflexivity. Qed.

(** ** Clean absolute paths *)

Lemma cleanName_spec (n : string) :
  cleanName n = true ->
  n <> "" /\ n <> "." /\ n <> ".." /\ slash ∉ to_bytes n.
Proof.
  unfold cleanName. intros [Hv Hd]%andb_true_iff.
  apply validName_spec in Hv as (H1 & H2 & H3).
  apply negb_true_iff, String.eqb_neq in Hd. done.
Qed.

Lemma cleanNames_noSlash (es : list string) :
  cleanNames es -> Forall (fun n => slash ∉ to_bytes n) es.
Proof.
  intros H. eapply Forall_impl; [exact H|]. intros n Hn.
  by apply cleanName_spec in Hn as (_ & _ & _ & ?).
Qed.

Lemma split_slash_name (n l rcur : list ascii) :
  slash ∉ n -> split_slash (n ++ l) rcur = split_slash l (rev n ++ rcur).
Proof.
  revert rcur. induction n as [|a n IH]; intros rcur Hn; [done|].
  apply not_elem_of_cons in Hn as [Ha Hn]. cbn [app split_slash].
  destruct (Ascii.eqb_spec a slash) as [->|_]; [done|].
  rewrite IH by done. cbn [rev]. by rewrite <- app_assoc.
Qed.

Lemma split_slash_one (n : string) :
  slash ∉ to_bytes n -> split_slash (to_bytes n) [] = [n].
Proof.
  intros Hn. rewrite <- (app_nil_r (to_bytes n)), split_slash_name by done.
  cbn [split_slash]. by rewrite app_nil_r, rev_involutive, of_to_bytes.
Qed.

(** The elements of the names joined by separators are the names. *)
Lemma split_slash_concat (es : list string) :
  Forall (fun n => slash ∉ to_bytes n) es -> es <> [] ->
  split_slash (to_bytes (String.concat "/" es)) [] = es.
Proof.
  induction es as [|n [|m es] IH]; intros Hall Hne; [done| |].
  - rewrite Forall_singleton in Hall. by apply split_slash_one.
  - apply Forall_cons in Hall as [Hn Hall].
    rewrite concat_cons2, !to_bytes_app, split_slash_name by done.
    change (to_bytes "/") with [slash]. cbn [app split_slash].
    rewrite Ascii.eqb_refl, app_nil_r, rev_involutive, of_to_bytes.
    f_equal. by apply IH.
Qed.

Lemma clean_step_name (rooted : bool) (out : list string) (n : string) :
  cleanName n = true -> clean_step rooted out n = n :: out.
Proof.
  intros (H1 & H2 & H3 & _)%cleanName_spec. unfold clean_step.
  apply String.eqb_neq in H1, H2, H3. by rewrite H1, H2, H3.
Qed.

Lemma clean_names_written (rooted : bool) (es : list string) :
  cleanNames es ->
  forall out, foldl (clean_step rooted) out es = (rev es ++ out)%list.
Proof.
  induction 1 as [|n es Hn Hes IH]; intros out; [done|].
  cbn [foldl rev]. rewrite clean_step_name, IH, <- app_assoc by done. done.
Qed.

Lemma clean_step_empty (rooted : bool) (out : list string) (l : list string) :
  foldl (clean_step rooted) out ("" :: l) = foldl (clean_step rooted) out l.
Proof. reflexivity. Qed.

Lemma absOf_rooted (es : list string) : strings_HasPrefix (absOf es) "/" = true.
Proof. by apply HasPrefix_firstByte. Qed.

Lemma absOf_elements (es : list string) :
  cleanNames es ->
  split_slash (to_bytes (absOf es)) []
  = "" :: match es with [] => [""] | _ => es end.
Proof.
  intros Hes. unfold absOf. rewrite to_bytes_app. change (to_bytes "/") with [slash].
  cbn [app split_slash]. rewrite Ascii.eqb_refl. cbn [rev of_bytes]. f_equal.
  destruct es as [|n es]; [done|].
  apply split_slash_concat; [by apply cleanNames_noSlash|done].
Qed.

(** A clean absolute path is a fixed point of [Clean]. *)
Lemma Clean_absOf (es : list string) :
  cleanNames es -> filepath_Clean (absOf es) = absOf es.
Proof.
  intros Hes. unfold filepath_Clean. rewrite absOf_rooted, absOf_elements by done.
  change (String.eqb (absOf es) "") with false. cbv iota zeta.
  destruct es as [|n es]; [done|].
  by rewrite clean_step_empty, clean_names_written, app_nil_r, rev_involutive.
Qed.

Lemma absOf_snoc (es : list string) (n : string) :
  absOf (es ++ [n])
  = (match es with [] => "/" | _ => absOf es +:+ "/" end) +:+ n.
Proof.
  unfold absOf. destruct es as [|m es]; [done|].
  rewrite concat_snoc by done. by rewrite !string_app_assoc.
Qed.

Lemma Clean_absOf_slash (es : list string) :
  cleanNames es -> es <> [] -> filepath_Clean (absOf es +:+ "/") = absOf es.
Proof.
  intros Hes Hne. unfold filepath_Clean.
  assert (Heq : absOf es +:+ "/" = "/" +:+ String.concat "/" (es ++ [""])).
  { unfold absOf. rewrite concat_snoc by done. by rewrite !string_app_assoc. }
  rewrite Heq.
  change (String.eqb ("/" +:+ String.concat "/" (es ++ [""])) "") with false.
  rewrite (proj2 (HasPrefix_firstByte ("/" +:+ String.concat "/" (es ++ [""])) "/"))
    by done.
  cbv iota zeta. rewrite to_bytes_app. change (to_bytes "/") with [slash].
  cbn [app split_slash]. rewrite Ascii.eqb_refl. cbn [rev of_bytes].
  rewrite split_slash_concat.
  - change (of_bytes []) with "".
    rewrite clean_step_empty, foldl_app, (clean_names_written true es Hes), app_nil_r.
    change (foldl (clean_step true) (rev es) [""]) with (rev es).
    by rewrite rev_involutive.
  - apply Forall_app. split; [by apply cleanNames_noSlash|].
    apply Forall_singleton. apply not_elem_of_nil.
  - by destruct es.
Qed.

Lemma from_last_slash_name (n r : list ascii) :
  slash ∉ n -> from_last_slash (n ++ slash :: r) = slash :: r.
Proof.
  induction n as [|a n IH]; intros Hn.
  - cbn [app from_last_slash]. by rewrite Ascii.eqb_refl.
  - apply not_elem_of_cons in Hn as [Ha Hn]. cbn [app from_last_slash].
    destruct (Ascii.eqb_spec a slash) as [->|_]; [done|]. by apply IH.
Qed.

(** The parent of a clean absolute path: the path of the elements but the
    last. *)
Lemma Dir_absOf_snoc (es : list string) (n : string) :
  cleanNames (es ++ [n]) -> filepath_Dir (absOf (es ++ [n])) = absOf es.
Proof.
  intros [Hes Hn]%Forall_app. rewrite Forall_singleton in Hn.
  pose proof Hn as (_ & _ & _ & Hns)%cleanName_spec.
  unfold filepath_Dir. rewrite absOf_snoc.
  set (P := match es with [] => "/" | _ => absOf es +:+ "/" end).
  assert (HP : exists Q, P = Q +:+ "/").
  { unfold P. destruct es; [by exists ""|by eexists]. }
  destruct HP as [Q HP].
  rewrite to_bytes_app, rev_app_distr, HP, to_bytes_app, rev_app_distr.
  change (rev (to_bytes "/")) with [slash]. cbn [app].
  rewrite from_last_slash_name by (by apply not_elem_of_rev).
  change (slash :: rev (to_bytes Q)) with (rev (to_bytes "/") ++ rev (to_bytes Q))%list.
  rewrite <- rev_app_distr, <- to_bytes_app, rev_involutive, of_to_bytes, <- HP.
  unfold P. destruct es as [|m es]; [done|]. by apply Clean_absOf_slash.
Qed.

Lemma Dir_root : filepath_Dir "/" = "/".
Proof. reflexivity. Qed.

Lemma Count_concat (es : list string) :
  Forall (fun n => slash ∉ to_bytes n) es ->
  strings_Count (String.concat "/" es) slash = Z.of_nat (length es - 1).
Proof.
  induction es as [|n [|m es] IH]; intros Hall; [done| |].
  - rewrite Forall_singleton in Hall. by apply no_slash_Count.
  - apply Forall_cons in Hall as [Hn Hall].
    rewrite concat_cons2, !Count_app, IH, (no_slash_Count n) by done.
    change (strings_Count "/" slash) with 1. cbn [length]. lia.
Qed.

Lemma Count_absOf (es : list string) :
  cleanNames es ->
  strings_Count (absOf es) slash = Z.of_nat (Nat.max 1 (length es)).
Proof.
  intros Hes. unfold absOf. rewrite Count_app, Count_concat
    by (by apply cleanNames_noSlash).
  change (strings_Count "/" slash) with 1. destruct es; cbn [length]; lia.
Qed.

Lemma absOf_inj (es hs : list string) :
  cleanNames es -> cleanNames hs -> absOf es = absOf hs -> es = hs.
Proof.
  intros Hes Hhs Heq.
  pose proof (absOf_elements es Hes) as H1. pose proof (absOf_elements hs Hhs) as H2.
  rewrite Heq, H2 in H1. injection H1 as H1.
  destruct es as [|n es], hs as [|m hs]; try done.
  - injection H1 as -> _. apply Forall_cons in Hhs as [Hm _].
    by apply cleanName_spec in Hm as (? & _).
  - injection H1 as <- _. apply Forall_cons in Hes as [Hn _].
    by apply cleanName_spec in Hn as (? & _).
Qed.

(** ** What [ValidatePath] refuses *)

Lemma eqb_absOf (es hs : list string) :
  cleanNames es -> cleanNames hs ->
  String.eqb (absOf es) (absOf hs) = bool_decide (es = hs).
Proof.
  intros Hes Hhs. destruct (decide (es = hs)) as [->|Hne].
  - by rewrite String.eqb_refl, bool_decide_eq_true_2.
  - rewrite bool_decide_eq_false_2 by done. apply String.eqb_neq.
    intros Heq. by apply Hne, absOf_inj.
Qed.

Lemma dangerous_depth (p : string) :
  existsb (fun dangerousDir => String.eqb p (filepath_Clean dangerousDir)) dangerousDirs
  = true ->
  strings_Count p slash = 1.
Proof.
  intros (d & Hin & Heq)%existsb_exists. apply String.eqb_eq in Heq as ->.
  assert (Hall : List.Forall (fun d => strings_Count (filepath_Clean d) slash = 1)
                   dangerousDirs).
  { unfold dangerousDirs. repeat constructor. }
  rewrite List.Forall_forall in Hall. by apply Hall.
Qed.

Lemma dangerous_deeper (es : list string) :
  cleanNames es -> (2 <= length es)%nat ->
  existsb (fun dangerousDir => String.eqb (absOf es) (filepath_Clean dangerousDir))
    dangerousDirs = false.
Proof.
  intros Hes Hlen.
  destruct (existsb _ dangerousDirs) eqn:E; [|done].
  apply dangerous_depth in E. rewrite Count_absOf in E by done. lia.
Qed.

Lemma first_level_refused (n : string) (home : result string) :
  cleanName n = true ->
  ValidatePath (Ok (absOf [n])) home <> None.
Proof.
  intros Hn. assert (Hes : cleanNames [n]) by (by apply Forall_singleton).
  unfold ValidatePath. rewrite Clean_absOf by done. cbv zeta.
  change "/" with (absOf []) at 1. rewrite eqb_absOf by (done || constructor).
  rewrite bool_decide_eq_false_2 by done.
  destruct (match home with Ok h => _ | Err _ => false end); [done|].
  destruct (existsb _ dangerousDirs); [done|].
  rewrite Count_absOf by done. cbn [length Nat.max].
  change (Z.of_nat 1 <=? 2) with true.
  change (absOf [n]) with (absOf ([] ++ [n])).
  rewrite Dir_absOf_snoc by done.
  change (String.eqb (absOf []) "/") with true.
  change (String.eqb (absOf ([] ++ [n])) "/") with (String.eqb (absOf [n]) (absOf [])).
  rewrite eqb_absOf by (done || constructor).
  by rewrite bool_decide_eq_false_2 by done.
Qed.

(** X21: every directory of the first level is refused, whatever the
    home directory: a clean path [/name] counts one separator and its
    parent is the root.  The list of protected system directories, all of
    the first level, decides the wording of the refusal and nothing
    else. *)
Theorem ValidatePath_refuses_first_level (n : string) (home : result string) :
  cleanName n = true ->
  ValidatePath (Ok ("/" +:+ n)) home <> None.
Proof. apply first_level_refused. Qed.

Lemma ValidatePath_refuses_first_level_witness :
  ValidatePath (Ok ("/" +:+ "data")) (Ok "/home/alice") <> None.
Proof.
  apply (ValidatePath_refuses_first_level "data" (Ok "/home/alice")).
  vm_compute. reflexivity.
Defined.

Lemma deep_accepted (es : list string) (home : result string) :
  cleanNames es -> (3 <= length es)%nat ->
  ValidatePath (Ok (absOf es)) home
  = if match home with
       | Ok h => String.eqb (absOf es) (filepath_Clean h)
       | Err _ => false
       end
    then Some HomeDirectory else None.
Proof.
  intros Hes Hlen. unfold ValidatePath. rewrite Clean_absOf by done. cbv zeta.
  change "/" with (absOf []) at 1. rewrite eqb_absOf by (done || constructor).
  rewrite bool_decide_eq_false_2 by (intros ->; simpl in Hlen; lia).
  destruct (match home with Ok h => _ | Err _ => false end); [done|].
  rewrite dangerous_deeper by (done || lia).
  rewrite Count_absOf by done.
  replace (Z.of_nat (Nat.max 1 (length es)) <=? 2) with false; [done|].
  symmetry. apply Z.leb_gt. lia.
Qed.

Lemma second_level (a b : string) (home : result string) :
  cleanNames [a; b] ->
  ValidatePath (Ok (absOf [a; b])) home
  = if match home with
       | Ok h => String.eqb (absOf [a; b]) (filepath_Clean h)
       | Err _ => false
       end
    then Some HomeDirectory
    else if negb (String.eqb (match home with Ok h => h | Err _ => "" end) "")
            && String.eqb (absOf [a])
                 (filepath_Dir (match home with Ok h => h | Err _ => "" end))
    then Some TooBroad else None.
Proof.
  intros Hes. unfold ValidatePath. rewrite Clean_absOf by done. cbv zeta.
  change "/" with (absOf []) at 1. rewrite eqb_absOf by (done || constructor).
  rewrite bool_decide_eq_false_2 by done.
  destruct (match home with Ok h => String.eqb _ _ | Err _ => false end); [done|].
  rewrite dangerous_deeper by (done || simpl; lia).
  rewrite Count_absOf by done. cbn [length Nat.max].
  change (Z.of_nat 2 <=? 2) with true.
  change (String.eqb (absOf [a; b]) "/") with (String.eqb (absOf [a; b]) (absOf [])).
  rewrite eqb_absOf by (done || constructor).
  rewrite bool_decide_eq_false_2 by done. cbn [negb andb].
  change (absOf [a; b]) with (absOf ([a] ++ [b])).
  rewrite Dir_absOf_snoc by done.
  change "/" with (absOf []) at 1.
  rewrite eqb_absOf; [|by apply Forall_cons in Hes as [? _]; apply Forall_singleton
                      |constructor].
  by rewrite bool_decide_eq_false_2 by done.
Qed.

(** X22: the paths that [ValidatePath] accepts.  With the home directory
    known, a clean absolute path is accepted when it has two elements or
    more, is not the home directory, and is not a path of two elements
    beside a home directory of two elements, such as [/home/bob] beside
    [/home/alice].  Without a home directory, two elements are enough. *)
Theorem ValidatePath_accepts (es hs : list string) :
  cleanNames es -> cleanNames hs ->
  (ValidatePath (Ok (absOf es)) (Ok (absOf hs)) = None
   <-> (2 <= length es)%nat /\ es <> hs
       /\ ~ (length es = 2%nat /\ length hs = 2%nat /\ head es = head hs))
  /\ (forall e, ValidatePath (Ok (absOf es)) (Err e) = None <-> (2 <= length es)%nat).
Proof.
  intros Hes Hhs.
  destruct es as [|a [|b [|c es]]].
  - split; [|intros e]; (split; [intros H; by vm_compute in H|]); simpl; lia.
  - assert (Ha : cleanName a = true) by (by apply Forall_cons in Hes as [? _]).
    split; [|intros e]; (split; [by intros ?%first_level_refused|]); simpl; lia.
  - split.
    + rewrite second_level, Clean_absOf, eqb_absOf by done.
      destruct (decide ([a; b] = hs)) as [<-|Hne].
      { rewrite bool_decide_eq_true_2 by done. split; [done|]. by intros (_ & ? & _). }
      rewrite bool_decide_eq_false_2 by done.
      change (String.eqb (absOf hs) "") with false. cbn [negb andb].
      assert (Hparent : String.eqb (absOf [a]) (filepath_Dir (absOf hs))
                        = bool_decide (length hs = 2%nat /\ head hs = Some a)).
      { destruct hs as [|h hs' _] using rev_ind.
        - change (filepath_Dir (absOf [])) with (absOf []).
          rewrite eqb_absOf; [|by apply Forall_cons in Hes as [? _]; apply Forall_singleton
                              |constructor].
          rewrite !bool_decide_eq_false_2; [done|by intros [? _]|done].
        - rewrite Dir_absOf_snoc by done.
          apply Forall_app in Hhs as [Hhs' _].
          rewrite eqb_absOf; [|by apply Forall_cons in Hes as [? _]; apply Forall_singleton
                              |done].
          apply bool_decide_ext. rewrite length_app. simpl. split.
          + intros <-. split; [done|]. done.
          + intros [Hlen Hhead]. destruct hs' as [|x [|y l]]; simpl in *;
              try lia. by injection Hhead as ->. }
      rewrite Hparent. simpl.
      destruct (decide (length hs = 2%nat /\ head hs = Some a)) as [Hsib|Hsib].
      * rewrite bool_decide_eq_true_2 by done. split; [done|].
        intros (_ & _ & Hno). exfalso. apply Hno. destruct Hsib. by repeat split.
      * rewrite bool_decide_eq_false_2 by done. split; [|done]. intros _.
        split; [lia|]. split; [done|]. intros (_ & Hlen & Hhead). apply Hsib.
        split; [done|]. by rewrite <- Hhead.
    + intros e. rewrite second_level by done. simpl. split; [lia|done].
  - assert (Hlen : (3 <= length (a :: b :: c :: es))%nat) by (simpl; lia).
    split.
    + rewrite deep_accepted, Clean_absOf, eqb_absOf by done.
      destruct (decide (a :: b :: c :: es = hs)) as [<-|Hne].
      * rewrite bool_decide_eq_true_2 by done. split; [done|]. by intros (_ & ? & _).
      * rewrite bool_decide_eq_false_2 by done. split; [|done]. intros _.
        split; [lia|]. split; [done|]. simpl. lia.
    + intros e. rewrite deep_accepted by done. split; [lia|done].
Qed.

Lemma ValidatePath_accepts_witness :
  (ValidatePath (Ok (absOf ["home"; "alice"; "proj"])) (Ok (absOf ["home"; "alice"])) = None
   <-> (2 <= length ["home"; "alice"; "proj"])%nat
       /\ ["home"; "alice"; "proj"] <> ["home"; "alice"]
       /\ ~ (length ["home"; "alice"; "proj"] = 2%nat
             /\ length ["home"; "alice"] = 2%nat
             /\ head ["home"; "alice"; "proj"] = head ["home"; "alice"]))
  /\ (forall e, ValidatePath (Ok (absOf ["home"; "alice"; "proj"])) (Err e) = None
                <-> (2 <= length ["home"; "alice"; "proj"])%nat).
Proof.
  apply (ValidatePath_accepts ["home"; "alice"; "proj"] ["home"; "alice"]);
    repeat constructor.
Defined.

(** ** The repository of a path *)

Lemma length_app_string (a b : string) :
  String.length (a +:+ b) = (String.length a + String.length b)%nat.
Proof. by rewrite <- !length_to_bytes, to_bytes_app, length_app. Qed.

Lemma length_concat_names (es : list string) :
  cleanNames es -> (length es <= String.length (String.concat "/" es))%nat.
Proof.
  induction es as [|n [|m es] IH]; intros Hes; [done| |].
  - apply Forall_cons in Hes as [Hn _].
    apply cleanName_spec in Hn as (Hne & _). destruct n; [done|]. simpl. lia.
  - apply Forall_cons in Hes as [Hn Hes]. specialize (IH Hes).
    rewrite concat_cons2, !length_app_string. cbn [length] in *.
    change (String.length "/") with 1%nat. lia.
Qed.

Lemma absOf_snoc_neq (es : list string) (n : string) :
  cleanNames (es ++ [n]) -> absOf es <> absOf (es ++ [n]).
Proof.
  intros Hall Heq. pose proof Hall as [Hes _]%Forall_app.
  apply absOf_inj in Heq; [|done|done].
  apply (f_equal length) in Heq. rewrite length_app in Heq. simpl in Heq. lia.
Qed.

(** The loop climbs from a clean absolute path to the nearest path with
    a repository, or to the root. *)
Lemma findLoop_absOf (os_StatMode : string -> result FileMode)
    (git_PlainOpen : string -> bool) (es : list string) :
  cleanNames es ->
  forall fuel, (length es < fuel)%nat ->
    exists k, (k <= length es)%nat
      /\ (forall j, (k < j <= length es)%nat ->
            repositoryAt os_StatMode git_PlainOpen (absOf (take j es)) = false)
      /\ ((repositoryAt os_StatMode git_PlainOpen (absOf (take k es)) = true
           /\ findLoop os_StatMode git_PlainOpen fuel (absOf es)
              = Some (inl (absOf (take k es))))
          \/ (k = 0%nat
              /\ repositoryAt os_StatMode git_PlainOpen "/" = false
              /\ findLoop os_StatMode git_PlainOpen fuel (absOf es)
                 = Some (inr os_ErrNotExist))).
Proof.
  induction es as [|n es IH] using rev_ind; intros Hes fuel Hfuel.
  - destruct fuel as [|fuel]; [lia|]. exists 0%nat. split; [done|].
    split; [intros j Hj; simpl in Hj; lia|]. cbn [findLoop take].
    change (absOf []) with "/".
    destruct (repositoryAt os_StatMode git_PlainOpen "/") eqn:E; [by left|].
    right. by rewrite Dir_root.
  - destruct fuel as [|fuel]; [lia|]. rewrite length_app in Hfuel. simpl in Hfuel.
    pose proof Hes as [Hes' _]%Forall_app. cbn [findLoop].
    destruct (repositoryAt os_StatMode git_PlainOpen (absOf (es ++ [n]))) eqn:E.
    + exists (length (es ++ [n])). split; [done|]. split; [intros j Hj; lia|].
      left. by rewrite firstn_all.
    + cbv zeta. rewrite Dir_absOf_snoc by done.
      rewrite (proj2 (String.eqb_neq _ _) (absOf_snoc_neq es n Hes)).
      destruct (IH Hes' fuel ltac:(lia)) as (k & Hk & Hnone & Hres).
      exists k. rewrite length_app. simpl. split; [lia|]. split.
      * intros j Hj. destruct (decide (j = S (length es))) as [->|Hne].
        -- rewrite take_ge by (rewrite length_app; simpl; lia). done.
        -- rewrite take_app_le by lia. apply Hnone. lia.
      * rewrite take_app_le by lia. done.
Qed.

(** X23: [findGitRoot] returns, and returns the nearest repository: the
    path itself or its closest ancestor at which [.git] is a directory or
    a regular file and the library opens a repository.  It answers
    [os.ErrNotExist] exactly when no path from the start up to the root is
    one. *)
Theorem findGitRoot_nearest (os_StatMode : string -> result FileMode)
    (git_PlainOpen : string -> bool) (es : list string) :
  cleanNames es ->
  exists k, (k <= length es)%nat
    /\ (forall j, (k < j <= length es)%nat ->
          repositoryAt os_StatMode git_PlainOpen (absOf (take j es)) = false)
    /\ ((repositoryAt os_StatMode git_PlainOpen (absOf (take k es)) = true
         /\ findGitRoot os_StatMode git_PlainOpen (Ok (absOf es))
            = Some (inl (absOf (take k es))))
        \/ (k = 0%nat
            /\ repositoryAt os_StatMode git_PlainOpen "/" = false
            /\ findGitRoot os_StatMode git_PlainOpen (Ok (absOf es))
               = Some (inr os_ErrNotExist))).
Proof.
  intros Hes. unfold findGitRoot. apply findLoop_absOf; [done|].
  pose proof (length_concat_names es Hes) as Hlen.
  unfold absOf. rewrite length_app_string. simpl String.length. lia.
Qed.

Lemma findGitRoot_nearest_witness :
  exists k, (k <= 4)%nat
    /\ (forall j, (k < j <= 4)%nat ->
          repositoryAt oneRepository (fun _ => true)
            (absOf (take j ["home"; "alice"; "proj"; "cmd"])) = false)
    /\ ((repositoryAt oneRepository (fun _ => true)
           (absOf (take k ["home"; "alice"; "proj"; "cmd"])) = true
         /\ findGitRoot oneRepository (fun _ => true)
              (Ok (absOf ["home"; "alice"; "proj"; "cmd"]))
            = Some (inl (absOf (take k ["home"; "alice"; "proj"; "cmd"]))))
        \/ (k = 0%nat
            /\ repositoryAt oneRepository (fun _ => true) "/" = false
            /\ findGitRoot oneRepository (fun _ => true)
                 (Ok (absOf ["home"; "alice"; "proj"; "cmd"]))
               = Some (inr os_ErrNotExist))).
Proof.
  apply (findGitRoot_nearest oneRepository (fun _ => true)
           ["home"; "alice"; "proj"; "cmd"]).
  repeat constructor.
Defined.

Example findGitRoot_example :
  findGitRoot oneRepository (fun _ => true) (Ok "/home/alice/proj/cmd/tool")
  = Some (inl "/home/alice/proj")
  /\ findGitRoot oneRepository (fun _ => true) (Ok "/home/bob/proj")
     = Some (inr os_ErrNotExist).
Proof. vm_compute. split; reflexivity. Qed.

(** ** [filepath.Rel] on examples *)

Example Rel_examples :
  map (fun p => rooted_Rel (fst p) (snd p))
    [("/a", "/a/b/c"); ("/a/b", "/a"); ("/home/al", "/home/alice"); ("/", "/x");
     ("/a/b/c", "/a/d"); ("/a/", "/a//b"); ("", "/a"); ("/a", "/a")]
  = [Some (Some "b/c"); Some (Some ".."); Some (Some "../alice"); Some (Some "x");
     Some (Some "../../d"); Some (Some "b"); Some None; Some (Some ".")].
Proof. vm_compute. reflexivity. Qed.

(** ** The warning about a large directory *)

Lemma names_of_absOf (es : list string) : cleanNames es -> names_of (absOf es) = es.
Proof.
  intros Hes. unfold names_of. change "/" with (absOf []) at 1.
  rewrite eqb_absOf by (done || constructor).
  destruct es as [|n es]; [done|].
  rewrite bool_decide_eq_false_2 by done. by rewrite absOf_elements.
Qed.

Lemma drop_common_spec (b t : list string) :
  exists c b' t',
    drop_common b t = (b', t') /\ b = (c ++ b')%list /\ t = (c ++ t')%list
    /\ (b' = [] \/ t' = [] \/ head b' <> head t').
Proof.
  revert t. induction b as [|x b IH]; intros t.
  - exists [], [], t. simpl. repeat split; auto.
  - destruct t as [|y t].
    + exists [], (x :: b), []. simpl. repeat split; auto.
    + cbn [drop_common]. destruct (String.eqb_spec x y) as [->|Hne].
      * destruct (IH t) as (c & b' & t' & Hd & -> & -> & Hor).
        exists (y :: c), b', t'. repeat split; auto.
      * exists [], (x :: b), (y :: t). simpl. repeat split; try done.
        right. right. congruence.
Qed.

Lemma Contains_app (a b : string) (c : ascii) :
  bytes_Contains (a +:+ b) c = bytes_Contains a c || bytes_Contains b c.
Proof. unfold bytes_Contains. by rewrite to_bytes_app, existsb_app. Qed.

Lemma Contains_none (s : string) (c : ascii) :
  c ∉ to_bytes s -> bytes_Contains s c = false.
Proof.
  intros Hs. unfold bytes_Contains.
  destruct (existsb (Ascii.eqb c) (to_bytes s)) eqn:E; [|done].
  apply existsb_exists in E as (x & Hin & ->%Ascii.eqb_eq).
  by apply list_elem_of_In in Hin.
Qed.

(** The names joined hold a separator when there are two of them or more. *)
Lemma Contains_concat (l : list string) :
  Forall (fun n => slash ∉ to_bytes n) l ->
  bytes_Contains (String.concat "/" l) slash = bool_decide (2 <= length l)%nat.
Proof.
  destruct l as [|n [|m l]]; intros Hl.
  - by rewrite bool_decide_eq_false_2 by (simpl; lia).
  - rewrite Forall_singleton in Hl. rewrite bool_decide_eq_false_2 by (simpl; lia).
    by apply Contains_none.
  - rewrite concat_cons2, !Contains_app.
    rewrite bool_decide_eq_true_2 by (simpl; lia).
    by rewrite orb_true_r.
Qed.

Lemma HasPrefix_app (a b : string) : strings_HasPrefix (a +:+ b) a = true.
Proof.
  unfold strings_HasPrefix. rewrite to_bytes_app, drop_list_prefix_app.
  by apply bool_decide_eq_true.
Qed.

Lemma HasPrefix_length (s pre : string) :
  strings_HasPrefix s pre = true -> (String.length pre <= String.length s)%nat.
Proof.
  unfold strings_HasPrefix. intros H%bool_decide_eq_true.
  destruct (drop_list_prefix (to_bytes pre) (to_bytes s)) as [r|] eqn:E; [|done].
  apply drop_list_prefix_Some in E. rewrite <- !length_to_bytes, E, length_app. lia.
Qed.

Lemma absOf_app (hs rest : list string) :
  exists tail, absOf (hs ++ rest) = absOf hs +:+ tail.
Proof.
  induction rest as [|n rest IH] using rev_ind.
  - exists "". by rewrite app_nil_r, string_app_nil_r.
  - destruct IH as [tail IH]. rewrite app_assoc, absOf_snoc.
    destruct (hs ++ rest)%list as [|m l] eqn:E.
    + apply app_eq_nil in E as [-> ->]. exists n. done.
    + rewrite IH. eexists. by rewrite !string_app_assoc.
Qed.

Lemma absOf_longer (es : list string) (x : string) :
  cleanNames (es ++ [x]) ->
  (String.length (absOf es) < String.length (absOf (es ++ [x])))%nat.
Proof.
  intros [_ Hx]%Forall_app. rewrite Forall_singleton in Hx.
  apply cleanName_spec in Hx as (Hne & _).
  rewrite absOf_snoc. destruct x as [|c x]; [done|].
  destruct es as [|m l]; rewrite ?length_app_string; simpl; lia.
Qed.

(** X24: the warning is raised for the home directory itself and for the
    directories directly in it, and for no other path: [abs] is the home
    directory followed by at most one element.  A path that only begins
    with the text of the home directory, as [/home/alice] does beside the
    home [/home/al], raises none. *)
Theorem ShouldWarnLargeDirectory_first_level (es hs : list string) :
  cleanNames es -> cleanNames hs ->
  exists warn : bool,
    ShouldWarnLargeDirectory (Ok (absOf es)) (Ok (absOf hs))
    = Some (warn, if warn then largeDirectoryWarning (filepath_Base (absOf es)) else "")
    /\ (warn = true
        <-> exists rest, es = (hs ++ rest)%list /\ (length rest <= 1)%nat).
Proof.
  intros Hes Hhs. unfold ShouldWarnLargeDirectory.
  destruct (strings_HasPrefix (absOf es) (absOf hs)) eqn:Hpre.
  2:{ exists false. split; [done|]. split; [done|]. intros (rest & -> & _).
      destruct (absOf_app hs rest) as [tail Ht]. by rewrite Ht, HasPrefix_app in Hpre. }
  unfold rooted_Rel. rewrite !Clean_absOf, eqb_absOf by done. cbv zeta.
  destruct (decide (es = hs)) as [->|Hne].
  { rewrite bool_decide_eq_true_2 by done. cbn [negb].
    change (bytes_Contains "." slash) with false. cbn [negb].
    exists true. split; [done|]. split; [|done]. intros _.
    exists []. rewrite app_nil_r. split; [done|]. simpl. lia. }
  rewrite bool_decide_eq_false_2 by done. rewrite !absOf_rooted. cbn [Bool.eqb negb].
  rewrite !names_of_absOf by done.
  destruct (drop_common_spec hs es) as (c & b & t & -> & Hb & Ht & Hdiff).
  assert (Hparts : Forall (fun n => slash ∉ to_bytes n) (map (fun _ => "..") b ++ t)).
  { apply Forall_app. split.
    - apply Forall_forall. intros n (x & -> & _)%list_elem_of_fmap.
      vm_compute. intros Hin. repeat (apply elem_of_cons in Hin as [Hin|Hin]; [done|]).
      by apply elem_of_nil in Hin.
    - subst es. apply Forall_app in Hes as [_ Hes]. by apply cleanNames_noSlash. }
  rewrite (Contains_concat _ Hparts), length_app, length_map.
  destruct (decide (2 <= length b + length t)%nat) as [Hmany|Hfew].
  - rewrite bool_decide_eq_true_2 by done. cbn [negb].
    exists false. split; [done|]. split; [done|]. intros (rest & Heq & Hrest).
    exfalso. subst hs es. rewrite <- app_assoc in Heq. apply app_inv_head in Heq.
    subst t. destruct b as [|x b].
    + simpl in *. lia.
    + destruct Hdiff as [?|[Hnil|Hhead]]; [done| |by apply Hhead].
      by apply app_eq_nil in Hnil as [? _].
  - rewrite bool_decide_eq_false_2 by done. cbn [negb].
    exists true. split; [done|]. split; [|done]. intros _.
    destruct b as [|x [|y b]]; [| |simpl in Hfew; lia].
    + exists t. rewrite app_nil_r in Hb. subst. split; [done|]. simpl in Hfew. lia.
    + destruct t as [|z t]; [|simpl in Hfew; lia].
      exfalso. rewrite app_nil_r in Ht. subst. apply HasPrefix_length in Hpre.
      pose proof (absOf_longer c x Hhs). lia.
Qed.

Lemma ShouldWarnLargeDirectory_first_level_witness :
  exists warn : bool,
    ShouldWarnLargeDirectory (Ok (absOf ["home"; "alice"; "proj"]))
      (Ok (absOf ["home"; "alice"]))
    = Some (warn,
            if warn
            then largeDirectoryWarning (filepath_Base (absOf ["home"; "alice"; "proj"]))
            else "")
    /\ (warn = true
        <-> exists rest,
              ["home"; "alice"; "proj"] = (["home"; "alice"] ++ rest)%list
              /\ (length rest <= 1)%nat).
Proof.
  apply (ShouldWarnLargeDirectory_first_level ["home"; "alice"; "proj"] ["home"; "alice"]);
    repeat constructor.
Defined.

Example ShouldWarnLargeDirectory_examples :
  map (fun p => option_map fst (ShouldWarnLargeDirectory (Ok (fst p)) (Ok (snd p))))
    [("/home/alice/proj", "/home/alice"); ("/home/alice", "/home/alice");
     ("/home/alice/a/b", "/home/alice"); ("/home/alice", "/home/al");
     ("/srv/www", "/home/alice")]
  = [Some true; Some true; Some false; Some false; Some false].
Proof. vm_compute. reflexivity. Qed.

(** ** The depth of a record *)

Lemma validNames_noSlash (ns : list string) :
  validNames ns -> Forall (fun n => slash ∉ to_bytes n) ns.
Proof.
  intros H. eapply Forall_impl; [exact H|]. intros n Hn.
  by apply validName_spec in Hn as (_ & _ & ?).
Qed.

Lemma Count_relOf (ns : list string) :
  validNames ns -> strings_Count (relOf ns) slash = Z.of_nat (length ns - 1).
Proof.
  intros Hns. destruct ns as [|n ns]; [done|].
  unfold relOf. by apply Count_concat, validNames_noSlash.
Qed.

Lemma relOf_not_dot (ns : list string) : validNames ns -> ns <> [] -> relOf ns <> ".".
Proof.
  intros Hns Hne. destruct ns as [|n ns]; [done|].
  by destruct (concat_relShaped (n :: ns) Hns Hne) as (_ & ? & _).
Qed.

Lemma dir_not_symlink d : IsDir d = true -> IsSymlink d = false.
Proof. unfold IsSymlink, IsDir. by destruct (Type_ d). Qed.

(** The callback on a directory beneath the root. *)
Lemma walkFn_directory sys rootPath filter maxDepth (ns : list string) d st :
  IsDir d = true -> validNames ns -> ns <> [] ->
  walkFn sys rootPath filter maxDepth (pathOf rootPath ns) (Some d) None st
  = (with_dirVisit st (pathOf rootPath ns),
     if entered filter maxDepth (relOf ns) then None else Some SkipDir).
Proof.
  intros Hd Hns Hne. unfold walkFn, visitEntry, entered.
  rewrite (dir_not_symlink d Hd), (Rel_pathOf rootPath ns Hns), Hd.
  rewrite (proj2 (String.eqb_neq _ _) (relOf_not_dot ns Hns Hne)). cbn [negb].
  destruct ((0 <? maxDepth) && (maxDepth <? strings_Count (relOf ns) slash + 1)); [done|].
  by destruct (ShouldInclude filter (relOf ns +:+ "/dummy.go")).
Qed.

Lemma walkFn_root_directory sys rootPath filter maxDepth d st :
  IsDir d = true ->
  walkFn sys rootPath filter maxDepth rootPath (Some d) None st
  = (with_dirVisit st rootPath, None).
Proof.
  intros Hd. unfold walkFn, visitEntry.
  pose proof (Rel_pathOf rootPath [] ltac:(constructor)) as Hrel.
  change (pathOf rootPath []) with rootPath in Hrel.
  by rewrite (dir_not_symlink d Hd), Hrel, Hd.
Qed.

Lemma walkDir_withinDepth sys rootPath filter maxDepth (d : DirEntry) :
  0 < maxDepth ->
  wellFormed d = true ->
  forall ns st, validNames ns -> Z.of_nat (length ns) <= maxDepth + 1 ->
    withinDepth maxDepth st ->
    withinDepth maxDepth
      (fst (walkDir (walkFn sys rootPath filter maxDepth) (pathOf rootPath ns) d st)).
Proof.
  intros Hpos. induction d as [n t dirs rderr IH] using DirEntry_ind.
  intros Hwf ns st Hns Hlen Hst.
  apply wellFormed_spec in Hwf as (_ & Hval & Hwf).
  assert (Hfn : forall e err st0, withinDepth maxDepth st0 ->
    withinDepth maxDepth
      (fst (walkFn sys rootPath filter maxDepth (pathOf rootPath ns) e err st0))).
  { intros e err st0 H0. unfold withinDepth in *.
    destruct (walkFn_jobs sys rootPath filter maxDepth (pathOf rootPath ns) e err st0)
      as [->|(rel & Hrel & _ & ->)]; [done|].
    apply Forall_app. split; [done|]. apply Forall_singleton. cbn [relPath].
    rewrite (Rel_pathOf rootPath ns Hns) in Hrel. injection Hrel as <-.
    rewrite Count_relOf by done. lia. }
  rewrite walkDir_unfold. cbv zeta.
  pose proof (Hfn (Some (mkEntry n t dirs rderr)) None st Hst) as H1.
  destruct (IsDir (mkEntry n t dirs rderr)) eqn:Hdir.
  2:{ destruct (walkFn _ _ _ _ _ _ None st) as [st1 err]. by rewrite orb_true_r. }
  assert (Hcall : exists err,
    walkFn sys rootPath filter maxDepth (pathOf rootPath ns)
      (Some (mkEntry n t dirs rderr)) None st
    = (with_dirVisit st (pathOf rootPath ns), err)
    /\ (err = None -> Z.of_nat (length ns) <= maxDepth)).
  { destruct ns as [|m ms].
    - exists None. split; [by apply walkFn_root_directory|]. intros _. simpl. lia.
    - rewrite walkFn_directory by done. eexists. split; [done|].
      unfold entered. rewrite Count_relOf by done.
      destruct (maxDepth <? Z.of_nat (length (m :: ms) - 1) + 1) eqn:E.
      + replace (0 <? maxDepth) with true by (symmetry; by apply Z.ltb_lt). done.
      + intros _. apply Z.ltb_ge in E. cbn [length] in *. lia. }
  destruct Hcall as (err & Hcall & Herr). rewrite Hcall in *. cbn [fst] in H1.
  destruct err as [[]|]; [done|]. cbn [orb negb bool_decide].
  rewrite bool_decide_eq_false_2 by (by intros []). cbn [orb].
  specialize (Herr eq_refl).
  assert (H2 : withinDepth maxDepth
                 (fst (match rderr with
                       | Some e => walkFn sys rootPath filter maxDepth (pathOf rootPath ns)
                                     (Some (mkEntry n t dirs rderr)) (Some e)
                                     (with_dirVisit st (pathOf rootPath ns))
                       | None => (with_dirVisit st (pathOf rootPath ns), None)
                       end))).
  { destruct rderr; [by apply Hfn|done]. }
  destruct (match rderr with Some e => _ | None => _ end) as [st2 [[]|]];
    cbn [fst] in H2; [done|].
  clear Hcall H1 Hst Hfn. revert st2 H2.
  induction dirs as [|d1 rest IHrest]; intros st2 H2; [done|].
  apply Forall_cons in IH as [IH1 IH]. apply Forall_cons in Hval as [Hv1 Hval].
  apply Forall_cons in Hwf as [Hwf1 Hwf]. cbn [walkEntries].
  assert (Hns1 : validNames (ns ++ [Name d1])).
  { apply Forall_app. split; [done|]. by apply Forall_singleton. }
  specialize (IH1 Hwf1 (ns ++ [Name d1])%list st2 Hns1).
  rewrite pathOf_snoc, length_app in IH1. cbn [length] in IH1.
  specialize (IH1 ltac:(lia) H2).
  destruct (walkDir _ _ d1 st2) as [st' [[]|]]; cbn [fst] in IH1; [done|].
  by apply IHrest.
Qed.

(** X25: with a positive [maxDepth] no record lies deeper than
    [maxDepth] directories beneath the root: its relative path counts at
    most [maxDepth] separators.  The limit bounds the directories that
    are entered, so the files of a directory at depth [maxDepth] are
    collected; with [maxDepth = 1] those are the files of the root and of
    its subdirectories. *)
Theorem Collect_depth_bound (sys : OS) (sched : list event) (rootPath : string)
    (lstat : result DirEntry) (filter : Filter) (maxDepth : Z)
    (maxFileSizeMB : float) (r : CollectionResult) :
  0 < maxDepth ->
  wellFormedRoot lstat = true ->
  Collect sys sched rootPath lstat filter maxDepth maxFileSizeMB = Some (Ok r) ->
  forall f, f ∈ Files r -> strings_Count (RelPath f) slash <= maxDepth.
Proof.
  intros Hpos Hwf H f Hf.
  destruct (Collect_file_from_job _ _ _ _ _ _ _ _ _ H Hf) as (job & Hjob & Hp).
  rewrite (produced_RelPath _ _ _ _ Hp).
  assert (Hall : withinDepth maxDepth (fst (enumerate sys rootPath filter maxDepth lstat))).
  { unfold enumerate, filepath_WalkDir. destruct lstat as [d|e].
    - pose proof (walkDir_withinDepth sys rootPath filter maxDepth d Hpos Hwf []
                    initialWalk ltac:(constructor) ltac:(simpl; lia)
                    ltac:(constructor)) as Hd.
      change (pathOf rootPath []) with rootPath in Hd.
      by destruct (walkDir _ rootPath d initialWalk) as [st [[]|]].
    - constructor. }
  unfold withinDepth in Hall. rewrite Forall_forall in Hall. by apply Hall.
Qed.

Lemma Collect_depth_bound_witness :
  strings_Count "sub/c.md" slash <= 1.
Proof.
  apply (Collect_depth_bound demoOS demoRun "/root" (Ok demoTree) defaultFilter 1 noLimit
           demoResult ltac:(lia) ltac:(vm_compute; reflexivity)
           ltac:(vm_compute; reflexivity)
           {| RelPath := "sub/c.md"; Content := "# c" +:+ nl; Size := 4;
              Language := "markdown" |}).
  do 2 right. left.
Defined.

(** ** What the walk does not miss *)

Lemma linkFree_spec n t dirs e :
  linkFree (mkEntry n t dirs e) = true ->
  IsSymlink (mkEntry n t dirs e) = false
  /\ Forall (fun d => linkFree d = true) dirs.
Proof.
  cbn [linkFree]. intros [H1 H2]%andb_true_iff. apply negb_true_iff in H1.
  split; [done|]. clear H1. induction dirs as [|d dirs IH]; [constructor|].
  apply andb_true_iff in H2 as [Hd Hrest]. constructor; [done|by apply IH].
Qed.

Lemma walkEntries_no_skip {St}
    (fn : string -> option DirEntry -> option error -> St -> St * option WalkErr)
    path dirs st :
  snd (walkEntries fn path dirs st) = None.
Proof.
  revert st. induction dirs as [|d1 rest IH]; intros st; [done|].
  cbn [walkEntries]. destruct (walkDir fn _ d1 st) as [st' [[]|]]; [done|]. apply IH.
Qed.

(** The walk of a tree without link never asks to skip the entries left
    in the directory of its root. *)
Lemma walkDir_no_skip sys rootPath filter maxDepth path d st :
  linkFree d = true ->
  snd (walkDir (walkFn sys rootPath filter maxDepth) path d st) = None.
Proof.
  destruct d as [n t dirs rderr]. intros [Hlink _]%linkFree_spec.
  rewrite walkDir_unfold. cbv zeta.
  destruct (IsDir (mkEntry n t dirs rderr)) eqn:Hdir.
  - destruct (walkFn _ _ _ _ path _ None st) as [st1 [[]|]]; [done|].
    rewrite bool_decide_eq_false_2 by (by intros []). cbn [orb negb].
    destruct (match rderr with Some e => _ | None => _ end) as [st2 [[]|]]; [done|].
    apply walkEntries_no_skip.
  - assert (Hnone : snd (walkFn sys rootPath filter maxDepth path
                           (Some (mkEntry n t dirs rderr)) None st) = None).
    { unfold walkFn. rewrite Hlink. by apply visitEntry_file. }
    destruct (walkFn _ _ _ _ path _ None st) as [st1 err]. simpl in Hnone. subst err.
    by rewrite orb_true_r.
Qed.

(** The walk only adds jobs. *)
Lemma walkDir_keeps_job sys rootPath filter maxDepth (j : fileJob) path d st :
  j ∈ fileJobs st ->
  j ∈ fileJobs (fst (walkDir (walkFn sys rootPath filter maxDepth) path d st)).
Proof.
  apply (walkDir_invariant _ (fun st => j ∈ fileJobs st)). clear.
  intros path d err st Hj.
  destruct (walkFn_jobs sys rootPath filter maxDepth path d err st)
    as [->|(rel & _ & _ & ->)]; [done|]. apply elem_of_app. by left.
Qed.

Lemma walkEntries_keeps_job sys rootPath filter maxDepth (j : fileJob) path dirs st :
  j ∈ fileJobs st ->
  j ∈ fileJobs (fst (walkEntries (walkFn sys rootPath filter maxDepth) path dirs st)).
Proof.
  apply (walkEntries_invariant _ (fun st => j ∈ fileJobs st)).
  apply Forall_forall. intros d _ p st0. apply walkDir_keeps_job.
Qed.

(** In a listing without link, the job that the walk of one entry
    always adds is among the jobs after the walk of the listing. *)
Lemma walkEntries_reaches sys rootPath filter maxDepth (j : fileJob) path dirs d1 :
  Forall (fun d => linkFree d = true) dirs ->
  d1 ∈ dirs ->
  (forall st, j ∈ fileJobs (fst (walkDir (walkFn sys rootPath filter maxDepth)
                                  (filepath_Join path (Name d1)) d1 st))) ->
  forall st,
    j ∈ fileJobs (fst (walkEntries (walkFn sys rootPath filter maxDepth) path dirs st)).
Proof.
  intros Hfree Hin Hj. induction dirs as [|d rest IH]; intros st.
  { by apply elem_of_nil in Hin. }
  apply Forall_cons in Hfree as [Hd Hfree]. cbn [walkEntries].
  pose proof (walkDir_no_skip sys rootPath filter maxDepth
                (filepath_Join path (Name d)) d st Hd) as Hnone.
  apply elem_of_cons in Hin as [<-|Hin].
  - specialize (Hj st).
    destruct (walkDir _ _ d1 st) as [st' err]. simpl in Hnone, Hj. subst err.
    by apply walkEntries_keeps_job.
  - destruct (walkDir _ _ d st) as [st' err]. simpl in Hnone. subst err.
    by apply IH.
Qed.

Lemma walkDir_complete sys rootPath filter maxDepth (d : DirEntry) (ns : list string)
    (e : DirEntry) :
  reaches d ns e ->
  IsDir e = false ->
  wellFormed d = true -> linkFree d = true ->
  forall ms st,
    validNames ms ->
    ShouldInclude filter (relOf (ms ++ ns)) = true ->
    (forall k, (0 < k < length (ms ++ ns))%nat -> (length ms <= k)%nat ->
               entered filter maxDepth (relOf (take k (ms ++ ns))) = true) ->
    jobOf rootPath (ms ++ ns)
      ∈ fileJobs (fst (walkDir (walkFn sys rootPath filter maxDepth)
                         (pathOf rootPath ms) d st)).
Proof.
  intros Hreach Hfile.
  induction Hreach as [d|d d1 ns e Hdir Hin Hreach IH];
    intros Hwf Hfree ms st Hms Hinc Hent.
  - rewrite app_nil_r in *. rewrite walkDir_file by done.
    destruct d as [n t dirs rderr]. apply linkFree_spec in Hfree as [Hlink _].
    unfold walkFn, visitEntry. rewrite Hlink, (Rel_pathOf rootPath ms Hms), Hfile, Hinc.
    cbn [negb fst with_job fileJobs]. apply elem_of_app. right. by left.
  - destruct d as [n t dirs rderr]. cbn [listing] in Hin.
    apply wellFormed_spec in Hwf as (_ & Hval & Hwf).
    apply linkFree_spec in Hfree as [_ Hfree].
    rewrite Forall_forall in Hval, Hwf. pose proof Hfree as Hfree'.
    rewrite Forall_forall in Hfree'.
    assert (Hms1 : validNames (ms ++ [Name d1])).
    { apply Forall_app. split; [done|]. apply Forall_singleton. by apply Hval. }
    assert (Hcall : walkFn sys rootPath filter maxDepth (pathOf rootPath ms)
                      (Some (mkEntry n t dirs rderr)) None st
                    = (with_dirVisit st (pathOf rootPath ms), None)).
    { destruct ms as [|m ms'] eqn:Ems; [by apply walkFn_root_directory|].
      rewrite <- Ems in *. rewrite walkFn_directory by (done || by rewrite Ems).
      specialize (Hent (length ms)). rewrite take_app_length in Hent.
      rewrite Hent; [done| |done]. rewrite length_app, Ems. simpl. lia. }
    rewrite walkDir_unfold. cbv zeta. rewrite Hcall, Hdir.
    rewrite bool_decide_eq_false_2 by (by intros []). cbn [orb negb].
    assert (Hst2 : (match rderr with
                    | Some e0 => walkFn sys rootPath filter maxDepth (pathOf rootPath ms)
                                   (Some (mkEntry n t dirs rderr)) (Some e0)
                                   (with_dirVisit st (pathOf rootPath ms))
                    | None => (with_dirVisit st (pathOf rootPath ms), None)
                    end) = (with_dirVisit st (pathOf rootPath ms), None))
      by (by destruct rderr).
    rewrite Hst2.
    apply (walkEntries_reaches _ _ _ _ _ _ dirs d1 Hfree Hin). intros st1.
    rewrite <- pathOf_snoc.
    replace (ms ++ Name d1 :: ns)%list with ((ms ++ [Name d1]) ++ ns)%list
      in * by (by rewrite <- app_assoc).
    apply IH; try done.
    + by apply Hwf.
    + by apply Hfree'.
    + intros k Hk Hlen. apply Hent; [done|]. rewrite length_app in Hlen. simpl in Hlen.
      lia.
Qed.

(** X26: in a tree without symbolic link the walk misses no file.  A
    file is a job of the walk when the filter includes its relative
    path and the walk is let into each directory on the way to it: the
    depth limit does not cut the directory off and the filter accepts its
    probe. *)
Theorem walk_complete (sys : OS) (rootPath : string) (filter : Filter) (maxDepth : Z)
    (d : DirEntry) (ns : list string) (e : DirEntry) :
  wellFormed d = true ->
  linkFree d = true ->
  reaches d ns e ->
  IsDir e = false ->
  ShouldInclude filter (relOf ns) = true ->
  (forall k, (0 < k < length ns)%nat ->
             entered filter maxDepth (relOf (take k ns)) = true) ->
  jobOf rootPath ns ∈ jobsOf sys rootPath filter maxDepth (Ok d).
Proof.
  intros Hwf Hfree Hreach Hfile Hinc Hent.
  pose proof (walkDir_complete sys rootPath filter maxDepth d ns e Hreach Hfile Hwf Hfree
                [] initialWalk ltac:(constructor) Hinc
                ltac:(intros k Hk _; by apply Hent)) as H.
  unfold jobsOf, enumerate, filepath_WalkDir.
  change (pathOf rootPath []) with rootPath in H.
  by destruct (walkDir _ rootPath d initialWalk) as [st [[]|]].
Qed.

Lemma walk_complete_witness :
  jobOf "/root" ["sub"; "deep"; "c.txt"]
    ∈ jobsOf idleOS "/root" defaultFilter 0 (Ok threeLevelTree).
Proof.
  apply (walk_complete idleOS "/root" defaultFilter 0 threeLevelTree
           ["sub"; "deep"; "c.txt"] (regularFile "c.txt")).
  - vm_compute. reflexivity.
  - vm_compute. reflexivity.
  - apply (reaches_step _ (directory "sub" [regularFile "b.txt";
                                            directory "deep" [regularFile "c.txt"]]));
      [reflexivity|right; left|].
    apply (reaches_step _ (directory "deep" [regularFile "c.txt"]));
      [reflexivity|right; left|].
    apply (reaches_step _ (regularFile "c.txt")); [reflexivity|left|].
    apply reaches_self.
  - reflexivity.
  - vm_compute. reflexivity.
  - intros k Hk. simpl in Hk.
    destruct k as [|[|[|k]]]; [lia| | |lia]; vm_compute; reflexivity.
Defined.

(** ** The directories that every filter excludes *)

Lemma literal_match (l : list ascii) (rest : re) (k : bool -> list ascii -> bool) :
  forall (bol : bool) (s : list ascii),
    re_match (literal l rest) bol (l ++ s) k
    = re_match rest (match l with [] => bol | _ => false end) s k.
Proof.
  induction l as [|c l IH]; intros bol s; [done|].
  cbn [literal app re_match]. rewrite Ascii.eqb_refl. cbn [andb].
  rewrite IH. by destruct l.
Qed.

(** After the name, the end of the text or a separator. *)
Lemma boundary_after (bol : bool) (after : list ascii) :
  after = [] \/ head after = Some slash ->
  re_match (Cat (Alt (Cat Eol Eps) (Cat (Chr slash) Eps)) Eps) bol after
    (fun _ _ => true) = true.
Proof.
  intros [->|Hhead]; [done|]. destruct after as [|c after]; [done|].
  injection Hhead as ->. cbn [re_match]. by rewrite Ascii.eqb_refl, orb_true_r.
Qed.

Lemma elementRe_at_start (name : string) (after : list ascii) :
  after = [] \/ head after = Some slash ->
  re_match (elementRe name) true (to_bytes name ++ after) (fun _ _ => true) = true.
Proof.
  intros Hafter. unfold elementRe. cbn [re_match andb].
  by rewrite literal_match, boundary_after.
Qed.

Lemma elementRe_at_slash (name : string) (bol : bool) (after : list ascii) :
  after = [] \/ head after = Some slash ->
  re_match (elementRe name) bol (slash :: to_bytes name ++ after) (fun _ _ => true)
  = true.
Proof.
  intros Hafter. unfold elementRe. cbn [re_match]. rewrite Ascii.eqb_refl. cbn [andb].
  by rewrite literal_match, boundary_after, orb_true_r.
Qed.

Lemma search_skip (r : re) (pre s : list ascii) :
  (forall bol, re_match r bol s (fun _ _ => true) = true) ->
  forall bol, re_search_from r bol (pre ++ s) = true.
Proof.
  intros Hs. induction pre as [|c pre IH]; intros bol.
  - destruct s; cbn [app re_search_from]; by rewrite Hs.
  - cbn [app re_search_from]. by rewrite IH, orb_true_r.
Qed.

(** The expression of a name finds the name wherever it is a whole
    element of the path. *)
Lemma elementRe_search (name before after : string) :
  wholeElement before after ->
  re_search (elementRe name) (before +:+ name +:+ after) = true.
Proof.
  intros [Hbefore Hafter]. unfold re_search. rewrite !to_bytes_app.
  assert (Hafter' : to_bytes after = [] \/ head (to_bytes after) = Some slash).
  { destruct Hafter as [->|H]; [by left|by right]. }
  destruct Hbefore as [->|Hlast].
  - cbn [to_bytes list_ascii_of_string app].
    destruct (to_bytes name ++ to_bytes after)%list eqn:E;
      cbn [re_search_from]; rewrite <- E; by rewrite elementRe_at_start.
  - unfold lastByte in Hlast.
    destruct (rev (to_bytes before)) as [|c l] eqn:Erev; [done|].
    injection Hlast as ->.
    apply (f_equal (@rev ascii)) in Erev. rewrite rev_involutive in Erev.
    cbn [rev] in Erev. rewrite Erev, <- app_assoc. cbn [app].
    apply search_skip. intros bol. by apply elementRe_at_slash.
Qed.

Lemma excludedNames_patterns :
  Forall (fun name => elementPattern name ∈ alwaysExclude
                      /\ re_parse (elementPattern name) = Some (elementRe name))
    excludedNames.
Proof.
  unfold excludedNames.
  repeat (apply Forall_cons; split;
          [split; [vm_compute; set_solver|vm_compute; reflexivity]|]).
  constructor.
Qed.

Lemma element_excluded (compile : string -> option Regexp)
    (customExcludes : list string) (tests : bool) (name before after : string) :
  regexp_on_fragment compile ->
  name ∈ excludedNames ->
  wholeElement before after ->
  excluded_by_pattern (compile_all compile (allPatternsOf customExcludes tests))
    (before +:+ name +:+ after) = true.
Proof.
  intros Hc Hname Hwhole. apply compile_all_matches.
  pose proof excludedNames_patterns as Hall. rewrite Forall_forall in Hall.
  destruct (Hall name Hname) as [Hin Hparse].
  destruct (Hc _ _ Hparse) as (R & HR & Hmatch).
  exists (elementPattern name), R. split; [|split; [done|]].
  - unfold allPatternsOf. apply elem_of_app. by left.
  - rewrite Hmatch. by apply elementRe_search.
Qed.

(** X28: the directories that every filter excludes.  For each of the
    names [node_modules], [.git], [vendor], [dist], [build] and the other
    names of the built-in patterns [(^|/)name($|/)], a path that holds the
    name as a whole element is never included, whatever the extensions,
    the patterns of the caller and the flags of the filter: neither the
    directory, nor its probe, nor a file beneath it. *)
Theorem excluded_directories (compile : string -> option Regexp)
    (exts customExcludes : list string) (respect tests : bool)
    (name before after : string) :
  regexp_on_fragment compile ->
  name ∈ excludedNames ->
  wholeElement before after ->
  ShouldInclude (NewFilter compile exts customExcludes respect tests)
    (before +:+ name +:+ after) = false.
Proof.
  intros Hc Hname Hwhole. unfold ShouldInclude, filepath_ToSlash. cbv zeta.
  by rewrite NewFilter_excludePatterns, element_excluded.
Qed.

Lemma excluded_directories_witness :
  ShouldInclude (NewFilter fragment_Compile [] [] true false)
    ("web/" +:+ "node_modules" +:+ "/lib/index.js") = false.
Proof.
  apply (excluded_directories fragment_Compile [] [] true false
           "node_modules" "web/" "/lib/index.js").
  - exact fragment_Compile_on_fragment.
  - vm_compute. set_solver.
  - split; right; vm_compute; reflexivity.
Defined.

Lemma LoadGitignore_excludePatterns compile (f : Filter) file :
  excludePatterns (LoadGitignore compile f file) = excludePatterns f.
Proof.
  unfold LoadGitignore. destruct (negb (respectGitignore f)); [done|].
  by destruct file.
Qed.

(** X29: no record of a result lies in a directory that every filter
    excludes.  With a filter built by [NewFilter], with or without an
    ignore file loaded, no relative path of a record holds one of the
    excluded names as a whole element. *)
Theorem Collect_excluded_directories (compile : string -> option Regexp)
    (globs : string -> ascii -> option Glob)
    (exts customExcludes : list string) (respect tests : bool)
    (file : option (list string))
    (sys : OS) (sched : list event) (rootPath : string)
    (lstat : result DirEntry) (maxDepth : Z) (maxFileSizeMB : float)
    (r : CollectionResult) (f : FileData) (name before after : string) :
  regexp_on_fragment compile ->
  Collect sys sched rootPath lstat
    (LoadGitignore globs (NewFilter compile exts customExcludes respect tests) file)
    maxDepth maxFileSizeMB = Some (Ok r) ->
  f ∈ Files r ->
  name ∈ excludedNames ->
  wholeElement before after ->
  RelPath f <> before +:+ name +:+ after.
Proof.
  intros Hc H Hf Hname Hwhole Heq.
  destruct (Collect_file_from_job _ _ _ _ _ _ _ _ _ H Hf) as (job & Hjob & Hp).
  pose proof (enumerate_admitted sys rootPath
                (LoadGitignore globs (NewFilter compile exts customExcludes respect tests)
                   file) maxDepth lstat) as Hall.
  rewrite Forall_forall in Hall. destruct (Hall job Hjob) as [_ Hinc].
  rewrite <- (produced_RelPath _ _ _ _ Hp), Heq in Hinc.
  apply ShouldInclude_true in Hinc as [Hpat _].
  rewrite LoadGitignore_excludePatterns, NewFilter_excludePatterns in Hpat.
  unfold filepath_ToSlash in Hpat.
  by rewrite element_excluded in Hpat.
Qed.

Lemma Collect_excluded_directories_witness :
  Collect modulesOS (sequential 1) "/root" (Ok modulesTree)
    (LoadGitignore wildcard_Compile (NewFilter fragment_Compile [] [] true false) None)
    0 noLimit = Some (Ok modulesResult)
  /\ "a.js" <> "" +:+ "node_modules" +:+ "/x.js".
Proof.
  assert (H : Collect modulesOS (sequential 1) "/root" (Ok modulesTree)
                (LoadGitignore wildcard_Compile
                   (NewFilter fragment_Compile [] [] true false) None)
                0 noLimit = Some (Ok modulesResult)) by (vm_compute; reflexivity).
  split; [exact H|].
  apply (Collect_excluded_directories fragment_Compile wildcard_Compile [] [] true false
           None modulesOS (sequential 1) "/root" (Ok modulesTree) 0 noLimit modulesResult
           {| RelPath := "a.js"; Content := "let a" +:+ nl; Size := 6;
              Language := "javascript" |} "node_modules" "" "/x.js").
  - exact fragment_Compile_on_fragment.
  - exact H.
  - left.
  - vm_compute. set_solver.
  - split; [by left|right; vm_compute; reflexivity].
Defined.

(** ** Symbolic links, as the walk treats them *)




